(** * VM backup and checkpoint orchestrator (lib/vdsm/virt/backup.py)

    A shallow embedding of the backup module: the request model
    ([BackupConfig], [DiskConfig], [ScratchDiskConfig]), the descriptor
    builders ([create_backup_xml], [create_checkpoint_xml]), the scratch
    disk life cycle and the session operations ([start_backup],
    [stop_backup], [delete_checkpoints]), and after them the remaining
    operations ([list_checkpoints], [dump_checkpoint],
    [redefine_checkpoints], [backup_info]).

    The Python code talks to three collaborators: the VM object ([vm]),
    the libvirt domain adapter ([dom]) and the storage dispatcher
    ([vm.cif.irs]).  They are kept abstract: a [Host] gives, for every
    call the module makes, a transition on an arbitrary world type.  The
    module itself runs in a small monad that threads the world, carries
    Python exceptions, and records every call that crosses the boundary
    together with what the call answered. *)

From Stdlib Require Import List String Ascii ZArith Bool Lia DecimalString.
Import ListNotations.
Local Open Scope string_scope.
Local Open Scope list_scope.

(** ** Exceptions and call results *)

(** The libvirt error codes the module compares against, and the rest. *)
Inductive virErrorNumber : Type :=
| VIR_ERR_OPERATION_INVALID
| VIR_ERR_NO_DOMAIN_CHECKPOINT
| VIR_ERR_NO_DOMAIN_BACKUP
| VIR_ERR_CHECKPOINT_INCONSISTENT
| VIR_ERR_INTERNAL_ERROR
| VIR_ERR_OPERATION_FAILED.

Definition virErrorNumber_eqb (a b : virErrorNumber) : bool :=
  match a, b with
  | VIR_ERR_OPERATION_INVALID, VIR_ERR_OPERATION_INVALID
  | VIR_ERR_NO_DOMAIN_CHECKPOINT, VIR_ERR_NO_DOMAIN_CHECKPOINT
  | VIR_ERR_NO_DOMAIN_BACKUP, VIR_ERR_NO_DOMAIN_BACKUP
  | VIR_ERR_CHECKPOINT_INCONSISTENT, VIR_ERR_CHECKPOINT_INCONSISTENT
  | VIR_ERR_INTERNAL_ERROR, VIR_ERR_INTERNAL_ERROR
  | VIR_ERR_OPERATION_FAILED, VIR_ERR_OPERATION_FAILED => true
  | _, _ => false
  end.

(** Flags handed to libvirt. *)
Inductive virFlag : Type :=
| VIR_DOMAIN_BACKUP_BEGIN_REUSE_EXTERNAL
| VIR_DOMAIN_CHECKPOINT_LIST_TOPOLOGICAL.

(** The exception classes that occur in the module.  [libvirtError]
    carries what [get_error_code] and [get_error_message] return;
    [NotConnectedError] is virdomain's, and is not a libvirt error;
    [KeyError] is a [LookupError] in Python's hierarchy. *)
Inductive exn : Type :=
| ValueError (msg : string)
| BackupError (reason : string)
| CheckpointError (reason : string)
| NoSuchBackupError (reason : string)
| NoSuchCheckpointError (reason : string)
| InconsistentCheckpointError (reason : string)
| NotConnectedError (msg : string)
| libvirtError (code : virErrorNumber) (msg : string)
| LookupError (msg : string)
| KeyError (key : string)
| AttributeError (msg : string)
| TypeError (msg : string).

Definition is_LookupError (e : exn) : bool :=
  match e with
  | LookupError _ | KeyError _ => true
  | _ => false
  end.

Inductive result (A : Type) : Type :=
| Ok (a : A)
| Raise (e : exn).
Arguments Ok {A} a.
Arguments Raise {A} e.

Definition rbind {A B} (r : result A) (f : A -> result B) : result B :=
  match r with
  | Ok a => f a
  | Raise e => Raise e
  end.

(** Modelled from the spec: a response of the vdsm API (its helpers are
    in vdsm.common.response), a tagged success payload with its result
    or a tagged error payload with a code and a message. *)
Inductive response (A : Type) : Type :=
| RespOk (res : A)
| RespError (code : Z) (message : string).
Arguments RespOk {A} res.
Arguments RespError {A} code message.

(** Modelled from the spec: [response.is_error], true on the error
    payload. *)
Definition is_error {A} (res : response A) : bool :=
  match res with
  | RespOk _ => false
  | RespError _ _ => true
  end.

Definition status_message {A} (res : response A) : string :=
  match res with
  | RespOk _ => "Done"
  | RespError _ m => m
  end.

(** ** The boundary: calls and what they answered *)

Inductive level : Type := DEBUG | INFO | ERROR | EXCEPTION.

(** One entry per call that leaves the module, with its arguments and
    its answer, and one per log record. *)
Inductive Event : Type :=
| EvFindDriveByUUIDs (domainID imageID volumeID : string)
                     (r : result (string * string))
| EvFreeze (r : result (response unit))
| EvThaw (r : result (response unit))
| EvListTransientDisks (owner : string) (r : response (list string))
| EvCreateTransientDisk (owner disk_name : string) (size : Z)
                        (r : response string)
| EvRemoveTransientDisk (owner disk_name : string) (r : response unit)
| EvBackupBegin (backup_xml : string) (checkpoint_xml : option string)
                (flags : list virFlag) (r : result unit)
| EvAbortJob (r : result unit)
| EvBackupGetXMLDesc (r : result string)
| EvCheckpointLookupByName (name : string) (r : result string)
| EvListAllCheckpoints (flags : list virFlag) (r : result (list string))
| EvBlockInfo (path : string) (r : result (Z * Z * Z))
| EvCheckpointDelete (name : string) (r : result unit)
| EvCheckpointGetXMLDesc (name : string) (r : result string)
| EvLog (l : level) (fmt : string) (args : list string).

(** The collaborators.  A checkpoint object is represented by its name
    ([getName]); [blockInfo] answers (capacity, allocation, physical);
    [findDriveByUUIDs] answers the drive's (name, path); the storage
    dispatcher reports its failures in the response. *)
Record Host (W : Type) : Type := {
  vm_id : string;
  vm_findDriveByUUIDs :
    string -> string -> string -> W -> result (string * string) * W;
  vm_freeze : W -> result (response unit) * W;
  vm_thaw : W -> result (response unit) * W;
  irs_list_transient_disks : string -> W -> response (list string) * W;
  irs_create_transient_disk :
    string -> string -> Z -> W -> response string * W;
  irs_remove_transient_disk : string -> string -> W -> response unit * W;
  dom_backupBegin :
    string -> option string -> list virFlag -> W -> result unit * W;
  dom_abortJob : W -> result unit * W;
  dom_backupGetXMLDesc : W -> result string * W;
  dom_checkpointLookupByName : string -> W -> result string * W;
  dom_listAllCheckpoints : list virFlag -> W -> result (list string) * W;
  dom_blockInfo : string -> W -> result (Z * Z * Z) * W;
  checkpoint_delete : string -> W -> result unit * W;
  checkpoint_getXMLDesc : string -> W -> result string * W
}.
Arguments vm_id {W}.
Arguments vm_findDriveByUUIDs {W}.
Arguments vm_freeze {W}.
Arguments vm_thaw {W}.
Arguments irs_list_transient_disks {W}.
Arguments irs_create_transient_disk {W}.
Arguments irs_remove_transient_disk {W}.
Arguments dom_backupBegin {W}.
Arguments dom_abortJob {W}.
Arguments dom_backupGetXMLDesc {W}.
Arguments dom_checkpointLookupByName {W}.
Arguments dom_listAllCheckpoints {W}.
Arguments dom_blockInfo {W}.
Arguments checkpoint_delete {W}.
Arguments checkpoint_getXMLDesc {W}.

(** ** The monad of the module *)

Definition M (W A : Type) : Type := W -> result A * W * list Event.

Definition ret {W A} (a : A) : M W A := fun w => (Ok a, w, []).

Definition raise {W A} (e : exn) : M W A := fun w => (Raise e, w, []).

Definition bind {W A B} (m : M W A) (f : A -> M W B) : M W B :=
  fun w =>
    match m w with
    | (Ok a, w1, t1) =>
        match f a w1 with
        | (r, w2, t2) => (r, w2, t1 ++ t2)
        end
    | (Raise e, w1, t1) => (Raise e, w1, t1)
    end.

(** [try: m  except: handler] with the handler choosing by class and
    re-raising what it does not handle. *)
Definition try_except {W A} (m : M W A) (handler : exn -> M W A) : M W A :=
  fun w =>
    match m w with
    | (Ok a, w1, t1) => (Ok a, w1, t1)
    | (Raise e, w1, t1) =>
        match handler e w1 with
        | (r, w2, t2) => (r, w2, t1 ++ t2)
        end
    end.

(** [try: m  finally: fin]; an exception of [fin] replaces the outcome
    of [m]. *)
Definition try_finally {W A} (m : M W A) (fin : M W unit) : M W A :=
  fun w =>
    match m w with
    | (r, w1, t1) =>
        match fin w1 with
        | (Ok _, w2, t2) => (r, w2, t1 ++ t2)
        | (Raise e, w2, t2) => (Raise e, w2, t1 ++ t2)
        end
    end.

Definition lift {W A} (r : result A) : M W A := fun w => (r, w, []).

(** A call that may raise, and one that answers a response. *)
Definition call {W A} (op : W -> result A * W) (ev : result A -> Event)
  : M W A :=
  fun w => match op w with (r, w1) => (r, w1, [ev r]) end.

Definition call_response {W A} (op : W -> response A * W)
                         (ev : response A -> Event) : M W (response A) :=
  fun w => match op w with (r, w1) => (Ok r, w1, [ev r]) end.

Definition log {W} (l : level) (fmt : string) (args : list string)
  : M W unit :=
  fun w => (Ok tt, w, [EvLog l fmt args]).

Declare Scope monad_scope.
Delimit Scope monad_scope with monad.
Notation "x <- m ;; k" := (bind m (fun x => k))
  (at level 61, m at next level, right associativity) : monad_scope.
Notation "m ;;; k" := (bind m (fun _ => k))
  (at level 61, right associativity) : monad_scope.

(** ** XML elements

    Modelled from the spec: the elements of the descriptor documents,
    built through vdsm.virt.vmxml, whose code is in another module.  An
    element has a tag, attributes in the order they were set, an
    optional text and children.  An attribute holds whatever Python
    value it was given, so a value is a string or [None]. *)
#[local] Set Warnings "-register-all".
Inductive Element : Type :=
| Elem (tag : string) (attrs : list (string * option string))
       (text : option string) (children : list Element).

Definition el_tag (e : Element) : string :=
  match e with Elem t _ _ _ => t end.
Definition el_attrs (e : Element) : list (string * option string) :=
  match e with Elem _ a _ _ => a end.
Definition el_text (e : Element) : option string :=
  match e with Elem _ _ x _ => x end.
Definition el_children (e : Element) : list Element :=
  match e with Elem _ _ _ c => c end.

(** [vmxml.Element(tag, **attrs)] *)
Definition Element_new (tag : string) (attrs : list (string * option string))
  : Element := Elem tag attrs None [].

Definition appendTextNode (e : Element) (text : string) : Element :=
  match e with Elem t a _ c => Elem t a (Some text) c end.

Definition appendChild (e child : Element) : Element :=
  match e with Elem t a x c => Elem t a x (c ++ [child]) end.

(** Python dict assignment on an association list: an existing key keeps
    its place and takes the new value, a new key goes last. *)
Fixpoint dict_set {V} (k : string) (v : V) (d : list (string * V))
  : list (string * V) :=
  match d with
  | [] => [(k, v)]
  | (k', v') :: rest =>
      if String.eqb k' k then (k, v) :: rest
      else (k', v') :: dict_set k v rest
  end.

Fixpoint dict_get {V} (k : string) (d : list (string * V)) : option V :=
  match d with
  | [] => None
  | (k', v') :: rest => if String.eqb k' k then Some v' else dict_get k rest
  end.

Definition values {V} (d : list (string * V)) : list V := map snd d.

(** [vmxml.set_attr(element, attribute, value)] *)
Definition set_attr (e : Element) (attribute : string) (value : option string)
  : Element :=
  match e with Elem t a x c => Elem t (dict_set attribute value a) x c end.

(** The attribute [k] of [e]: [None] when it is not set. *)
Definition attr (k : string) (e : Element) : option (option string) :=
  dict_get k (el_attrs e).

(** The children of [e] with the given tag. *)
Definition children_tagged (tag : string) (e : Element) : list Element :=
  filter (fun c => String.eqb (el_tag c) tag) (el_children e).

(** ** What the module imports from the rest of vdsm

    The helpers whose code lives in other modules: the validator of
    [properties.UUID] (the stored value for a well-formed UUID, nothing
    for any other string), the directory [P_BACKUP], the export URL of
    [nbdutils.UnixAddress], the serializer [xmlutils.tostring] (which
    may raise, as on an attribute that holds [None]),
    [storage.disable_dynamic_ownership] (as a function of its
    [write_type] argument and the element it updates), and whether this
    libvirt defines [VIR_ERR_CHECKPOINT_INCONSISTENT]. *)
Record Platform : Type := {
  UUID_validate : string -> option string;
  P_BACKUP : string;
  nbd_url : string -> string -> string;
  tostring : Element -> result string;
  disable_dynamic_ownership : bool -> Element -> Element;
  cold_backup_enabled : bool
}.

Definition MODE_FULL : string := "full".
Definition MODE_INCREMENTAL : string := "incremental".

(** Modelled from the spec: the storage types of [DISK_TYPE], declared in
    vdsm.virt.vmdevices.storage (file | block). *)
Definition DISK_TYPE_FILE : string := "file".
Definition DISK_TYPE_BLOCK : string := "block".

(** ** Property descriptors

    The assignment to a field declared with vdsm.common.properties,
    whose code is in another module.  A required field with no value
    fails closed, an enumerated field rejects unknown values, a UUID
    must be well formed and an integer respects its minimum; an
    optional field that is not given stays [None]. *)

(** Modelled from the spec: a field declared [required=True] that is
    given no value. *)
Definition prop_required {A} (name : string) (v : option A) : result A :=
  match v with
  | Some a => Ok a
  | None => Raise (ValueError ("Property " ++ name ++ " is required"))
  end.

(** Modelled from the spec: an optional [properties.UUID] field. *)
Definition prop_UUID (p : Platform) (name : string) (v : option string)
  : result (option string) :=
  match v with
  | None => Ok None
  | Some s =>
      match UUID_validate p s with
      | Some s' => Ok (Some s')
      | None => Raise (ValueError ("Invalid value for property " ++ name))
      end
  end.

(** Modelled from the spec: a [properties.UUID(required=True)] field. *)
Definition prop_UUID_required (p : Platform) (name : string)
                              (v : option string) : result string :=
  match v with
  | None => Raise (ValueError ("Property " ++ name ++ " is required"))
  | Some s =>
      match UUID_validate p s with
      | Some s' => Ok s'
      | None => Raise (ValueError ("Invalid value for property " ++ name))
      end
  end.

(** Modelled from the spec: a [properties.Enum] field with its allowed
    values. *)
Definition prop_Enum (allowed : list string) (name : string)
                     (v : option string) : result (option string) :=
  match v with
  | None => Ok None
  | Some s =>
      if existsb (String.eqb s) allowed then Ok (Some s)
      else Raise (ValueError ("Invalid value for property " ++ name))
  end.

(** Modelled from the spec: a [properties.Integer] field with its
    minimum. *)
Definition prop_Integer (minval : Z) (name : string) (v : option Z)
  : result (option Z) :=
  match v with
  | None => Ok None
  | Some n =>
      if Z.leb minval n then Ok (Some n)
      else Raise (ValueError ("Invalid value for property " ++ name))
  end.

Notation "x <-- r ;; k" := (rbind r (fun x => k))
  (at level 61, r at next level, right associativity).
Notation "'_' <-- r ;; k" := (rbind r (fun _ => k))
  (at level 61, r at next level, right associativity).

(** ** The request model *)

(** The dictionaries a caller sends: a key that is missing reads as
    [None] under [dict.get]. *)
Record scratch_disk_dict : Type := {
  k_path : option string;
  k_type : option string
}.

Record disk_dict : Type := {
  k_volumeID : option string;
  k_imageID : option string;
  k_domainID : option string;
  k_checkpoint : option bool;
  k_backup_mode : option string;
  k_scratch_disk : option scratch_disk_dict
}.

Record backup_dict : Type := {
  k_backup_id : option string;
  k_from_checkpoint_id : option string;
  k_to_checkpoint_id : option string;
  k_parent_checkpoint_id : option string;
  k_require_consistency : option bool;
  k_creation_time : option Z;
  k_disks : list disk_dict
}.

Record ScratchDiskConfig : Type := {
  scratch_path : string;
  scratch_type : string
}.

Record DiskConfig : Type := {
  vol_id : string;
  img_id : string;
  dom_id : string;
  checkpoint : bool;
  backup_mode : option string;
  scratch_disk : option ScratchDiskConfig
}.

Record BackupConfig : Type := {
  backup_id : string;
  from_checkpoint_id : option string;
  to_checkpoint_id : option string;
  parent_checkpoint_id : option string;
  require_consistency : option bool;
  creation_time : option Z;
  disks : list DiskConfig
}.

Record BackupDrive : Type := {
  drive_name : string;
  drive_path : string;
  drive_backup_mode : option string;
  drive_scratch_disk : option ScratchDiskConfig
}.

(** [ScratchDiskConfig.__init__] *)
Definition ScratchDiskConfig_init (path type : option string)
  : result ScratchDiskConfig :=
  path' <-- prop_required "path" path ;;
  type' <-- prop_required "type" type ;;
  _ <-- prop_Enum [DISK_TYPE_FILE; DISK_TYPE_BLOCK] "type" (Some type') ;;
  Ok {| scratch_path := path'; scratch_type := type' |}.

(** [DiskConfig.__init__] *)
Definition DiskConfig_init (p : Platform) (disk_config : disk_dict)
  : result DiskConfig :=
  vol <-- prop_UUID_required p "vol_id" (k_volumeID disk_config) ;;
  img <-- prop_UUID_required p "img_id" (k_imageID disk_config) ;;
  dom <-- prop_UUID_required p "dom_id" (k_domainID disk_config) ;;
  cp <-- prop_required "checkpoint" (k_checkpoint disk_config) ;;
  mode <-- prop_Enum [MODE_FULL; MODE_INCREMENTAL] "backup_mode"
                     (k_backup_mode disk_config) ;;
  scratch <-- match k_scratch_disk disk_config with
              | Some sd =>
                  s <-- ScratchDiskConfig_init (k_path sd) (k_type sd) ;;
                  Ok (Some s)
              | None => Ok None
              end ;;
  Ok {| vol_id := vol; img_id := img; dom_id := dom; checkpoint := cp;
        backup_mode := mode; scratch_disk := scratch |}.

(** [[DiskConfig(d) for d in ...]] *)
Fixpoint DiskConfig_list (p : Platform) (ds : list disk_dict)
  : result (list DiskConfig) :=
  match ds with
  | [] => Ok []
  | d :: rest =>
      disk <-- DiskConfig_init p d ;;
      disks' <-- DiskConfig_list p rest ;;
      Ok (disk :: disks')
  end.

Definition is_incremental (mode : option string) : bool :=
  match mode with
  | Some m => String.eqb m MODE_INCREMENTAL
  | None => false
  end.

Definition is_None {A} (o : option A) : bool :=
  match o with None => true | Some _ => false end.

(** The loop of [BackupConfig.__init__] over the disks. *)
Fixpoint check_disk_modes (from_checkpoint_id : option string)
                          (ds : list DiskConfig) : result unit :=
  match ds with
  | [] => Ok tt
  | disk :: rest =>
      if is_None from_checkpoint_id && is_incremental (backup_mode disk)
      then Raise (BackupError
                    "Cannot start an incremental backup for disk, full backup is requested")
      else check_disk_modes from_checkpoint_id rest
  end.

(** [BackupConfig.__init__] *)
Definition BackupConfig_init (p : Platform) (backup_config : backup_dict)
  : result BackupConfig :=
  bid <-- prop_UUID_required p "backup_id" (k_backup_id backup_config) ;;
  from <-- prop_UUID p "from_checkpoint_id"
                     (k_from_checkpoint_id backup_config) ;;
  to <-- prop_UUID p "to_checkpoint_id" (k_to_checkpoint_id backup_config) ;;
  parent <-- prop_UUID p "parent_checkpoint_id"
                       (k_parent_checkpoint_id backup_config) ;;
  ctime <-- prop_Integer 0 "creation_time" (k_creation_time backup_config) ;;
  if negb (is_None from) && is_None parent
  then Raise (BackupError
                "Cannot start an incremental backup without parent_checkpoint_id")
  else
    ds <-- DiskConfig_list p (k_disks backup_config) ;;
    _ <-- check_disk_modes from ds ;;
    Ok {| backup_id := bid;
          from_checkpoint_id := from;
          to_checkpoint_id := to;
          parent_checkpoint_id := parent;
          require_consistency := k_require_consistency backup_config;
          creation_time := ctime;
          disks := ds |}.

(** ** Descriptor builders *)

(** An NBD address as the builders read it: [address.transport] and
    [address.path]. *)
Record Address : Type := {
  transport : string;
  address_path : string
}.

Definition option_string_eqb (a b : option string) : bool :=
  match a, b with
  | None, None => true
  | Some x, Some y => String.eqb x y
  | _, _ => false
  end.

(** [str] of an integer. *)
Definition str_of_Z (n : Z) : string :=
  NilZero.string_of_int (Z.to_int n).

Section Builders.
Variable p : Platform.

(** The body of the loop of [create_backup_xml] for one drive:
    [drive.scratch_disk.type] on a drive without scratch disk is an
    attribute access on [None]. *)
Definition backup_disk_element (from_checkpoint_id : option string)
                               (drive : BackupDrive) : result Element :=
  match drive_scratch_disk drive with
  | None => Raise (AttributeError "'NoneType' object has no attribute 'type'")
  | Some sd =>
      let disk := Element_new "disk"
                    [("name", Some (drive_name drive));
                     ("type", Some (scratch_type sd))] in
      let disk :=
        match drive_backup_mode drive with
        | Some mode =>
            let disk := set_attr disk "backupmode" (Some mode) in
            if String.eqb mode MODE_INCREMENTAL
            then set_attr disk MODE_INCREMENTAL from_checkpoint_id
            else disk
        | None => disk
        end in
      let scratch :=
        if String.eqb (scratch_type sd) DISK_TYPE_BLOCK
        then Element_new "scratch" [("dev", Some (scratch_path sd))]
        else Element_new "scratch" [("file", Some (scratch_path sd))] in
      let scratch := disable_dynamic_ownership p false scratch in
      Ok (appendChild disk scratch)
  end.

Fixpoint backup_disk_elements (from_checkpoint_id : option string)
                              (ds : list BackupDrive) (disks : Element)
  : result Element :=
  match ds with
  | [] => Ok disks
  | drive :: rest =>
      disk <-- backup_disk_element from_checkpoint_id drive ;;
      backup_disk_elements from_checkpoint_id rest (appendChild disks disk)
  end.

(** The element [create_backup_xml] builds before serializing it. *)
Definition backup_xml_tree (address : Address)
                           (drives : list (string * BackupDrive))
                           (from_checkpoint_id : option string)
  : result Element :=
  let domainbackup := Element_new "domainbackup" [("mode", Some "pull")] in
  let domainbackup :=
    match from_checkpoint_id with
    | Some id =>
        appendChild domainbackup
                    (appendTextNode (Element_new "incremental" []) id)
    | None => domainbackup
    end in
  let server := Element_new "server"
                  [("transport", Some (transport address));
                   ("socket", Some (address_path address))] in
  let domainbackup := appendChild domainbackup server in
  disks <-- backup_disk_elements from_checkpoint_id (values drives)
                                 (Element_new "disks" []) ;;
  Ok (appendChild domainbackup disks).

Definition create_backup_xml (address : Address)
                             (drives : list (string * BackupDrive))
                             (from_checkpoint_id : option string)
  : result string :=
  domainbackup <-- backup_xml_tree address drives from_checkpoint_id ;;
  tostring p domainbackup.

(** The loop of [create_checkpoint_xml] over [backup_cfg.disks]:
    [drives[disk.img_id]] raises [KeyError] on an unknown image. *)
Fixpoint checkpoint_disk_elements (to_checkpoint_id : string)
                                  (drives : list (string * BackupDrive))
                                  (ds : list DiskConfig) (disks : Element)
  : result Element :=
  match ds with
  | [] => Ok disks
  | disk :: rest =>
      if checkpoint disk then
        match dict_get (img_id disk) drives with
        | None => Raise (KeyError (img_id disk))
        | Some drive =>
            let disk_elm := Element_new "disk"
                              [("name", Some (drive_name drive));
                               ("checkpoint", Some "bitmap");
                               ("bitmap", Some to_checkpoint_id)] in
            checkpoint_disk_elements to_checkpoint_id drives rest
                                     (appendChild disks disk_elm)
        end
      else checkpoint_disk_elements to_checkpoint_id drives rest disks
  end.

(** Python's truth value of [backup_cfg.creation_time]. *)
Definition truthy_Z (v : option Z) : bool :=
  match v with
  | Some n => negb (Z.eqb n 0)
  | None => false
  end.

(** The element [create_checkpoint_xml] builds when a checkpoint is
    requested. *)
Definition checkpoint_xml_tree (backup_cfg : BackupConfig)
                               (drives : list (string * BackupDrive))
                               (to_id : string) : result Element :=
  let checkpoint := Element_new "domaincheckpoint" [] in
  let name := appendTextNode (Element_new "name" []) to_id in
  let checkpoint := appendChild checkpoint name in
  let cp_description :=
    ("checkpoint for backup '" ++ backup_id backup_cfg ++ "'")%string in
  let description :=
    appendTextNode (Element_new "description" []) cp_description in
  let checkpoint := appendChild checkpoint description in
  let checkpoint :=
    match parent_checkpoint_id backup_cfg with
    | Some parent =>
        let parent_name := appendTextNode (Element_new "name" []) parent in
        let cp_parent := appendChild (Element_new "parent" []) parent_name in
        appendChild checkpoint cp_parent
    | None => checkpoint
    end in
  let checkpoint :=
    if truthy_Z (creation_time backup_cfg) then
      match creation_time backup_cfg with
      | Some t =>
          appendChild checkpoint
            (appendTextNode (Element_new "creationTime" []) (str_of_Z t))
      | None => checkpoint
      end
    else checkpoint in
  match disks backup_cfg with
  | [] => Ok checkpoint
  | _ :: _ =>
      ds <-- checkpoint_disk_elements to_id drives (disks backup_cfg)
                                      (Element_new "disks" []) ;;
      Ok (appendChild checkpoint ds)
  end.

Definition create_checkpoint_xml (backup_cfg : BackupConfig)
                                 (drives : list (string * BackupDrive))
  : result (option string) :=
  match to_checkpoint_id backup_cfg with
  | None => Ok None
  | Some to_id =>
      checkpoint <-- checkpoint_xml_tree backup_cfg drives to_id ;;
      xml <-- tostring p checkpoint ;;
      Ok (Some xml)
  end.

(** [os.path.join] of two components. *)
Fixpoint ends_with_slash (s : string) : bool :=
  match s with
  | EmptyString => false
  | String c EmptyString => Ascii.eqb c "/"%char
  | String _ rest => ends_with_slash rest
  end.

Definition os_path_join (a b : string) : string :=
  if String.prefix "/" b then b
  else if String.eqb a "" || ends_with_slash a then (a ++ b)%string
  else (a ++ "/" ++ b)%string.

Definition socket_path (backup_id : string) : string :=
  os_path_join (P_BACKUP p) backup_id.

(** [nbdutils.UnixAddress(path)] *)
Definition UnixAddress (path : string) : Address :=
  {| transport := "unix"; address_path := path |}.

End Builders.

(** ** The operations *)

(** What [start_backup] returns under ['result']. *)
Record BackupResult : Type := {
  result_disks : list (string * string);
  result_checkpoint : option string
}.

(** What [delete_checkpoints] returns under ['result']. *)
Record DeleteResult : Type := {
  checkpoint_ids : list string;
  error : option (virErrorNumber * string)
}.

(** [checkpoints[-1].getName() if checkpoints else None] *)
Fixpoint leaf_name (checkpoints : list string) : option string :=
  match checkpoints with
  | [] => None
  | [name] => Some name
  | _ :: rest => leaf_name rest
  end.

Section Operations.
Context {W : Type}.
Variable h : Host W.
Variable p : Platform.
Local Open Scope monad_scope.

(** *** Calls across the boundary *)

Definition findDriveByUUIDs (domainID imageID volumeID : string)
  : M W (string * string) :=
  call (vm_findDriveByUUIDs h domainID imageID volumeID)
       (EvFindDriveByUUIDs domainID imageID volumeID).

Definition freeze : M W (response unit) := call (vm_freeze h) EvFreeze.

Definition thaw : M W (response unit) := call (vm_thaw h) EvThaw.

Definition list_transient_disks (owner : string)
  : M W (response (list string)) :=
  call_response (irs_list_transient_disks h owner)
                (EvListTransientDisks owner).

Definition create_transient_disk (owner_name disk_name : string) (size : Z)
  : M W (response string) :=
  call_response (irs_create_transient_disk h owner_name disk_name size)
                (EvCreateTransientDisk owner_name disk_name size).

Definition remove_transient_disk (owner disk_name : string)
  : M W (response unit) :=
  call_response (irs_remove_transient_disk h owner disk_name)
                (EvRemoveTransientDisk owner disk_name).

Definition backupBegin (backup_xml : string) (checkpoint_xml : option string)
                       (flags : list virFlag) : M W unit :=
  call (dom_backupBegin h backup_xml checkpoint_xml flags)
       (EvBackupBegin backup_xml checkpoint_xml flags).

Definition abortJob : M W unit := call (dom_abortJob h) EvAbortJob.

Definition backupGetXMLDesc : M W string :=
  call (dom_backupGetXMLDesc h) EvBackupGetXMLDesc.

Definition checkpointLookupByName (name : string) : M W string :=
  call (dom_checkpointLookupByName h name) (EvCheckpointLookupByName name).

Definition listAllCheckpoints (flags : list virFlag) : M W (list string) :=
  call (dom_listAllCheckpoints h flags) (EvListAllCheckpoints flags).

Definition blockInfo (path : string) : M W (Z * Z * Z) :=
  call (dom_blockInfo h path) (EvBlockInfo path).

Definition delete (checkpoint : string) : M W unit :=
  call (checkpoint_delete h checkpoint) (EvCheckpointDelete checkpoint).

Definition getXMLDesc (checkpoint : string) : M W string :=
  call (checkpoint_getXMLDesc h checkpoint)
       (EvCheckpointGetXMLDesc checkpoint).

(** [try: m  except libvirt.libvirtError as e: handler] *)
Definition except_libvirtError {A} (m : M W A)
    (handler : virErrorNumber -> string -> M W A) : M W A :=
  try_except m (fun e =>
    match e with
    | libvirtError code msg => handler code msg
    | _ => raise e
    end).

(** *** Checkpoint chain *)

Definition _get_leaf_checkpoint_name : M W (option string) :=
  except_libvirtError
    (checkpoints <- listAllCheckpoints
                      [VIR_DOMAIN_CHECKPOINT_LIST_TOPOLOGICAL] ;;
     ret (leaf_name checkpoints))
    (fun _ msg =>
       raise (CheckpointError
                ("Failed to fetch defined leaf checkpoint: " ++ msg))).

Definition _validate_parent_id (backup_cfg : BackupConfig) : M W unit :=
  if is_None (to_checkpoint_id backup_cfg) then ret tt
  else
    leaf_checkpoint_id <- _get_leaf_checkpoint_name ;;
    if negb (option_string_eqb (parent_checkpoint_id backup_cfg)
                               leaf_checkpoint_id)
    then raise (CheckpointError
           "Parent checkpoint ID does not match the actual leaf checkpoint")
    else ret tt.

Fixpoint delete_checkpoints_loop (ids deleted_checkpoint_ids : list string)
  : M W DeleteResult :=
  match ids with
  | [] => ret {| checkpoint_ids := deleted_checkpoint_ids; error := None |}
  | checkpoint_id :: rest =>
      log INFO "Delete VM %r checkpoint %r" [vm_id h; checkpoint_id] ;;;
      failure <-
        except_libvirtError
          (checkpoint <- checkpointLookupByName checkpoint_id ;;
           delete checkpoint ;;;
           ret None)
          (fun code msg =>
             if virErrorNumber_eqb code VIR_ERR_NO_DOMAIN_CHECKPOINT
             then
               log DEBUG "Checkpoint_id: %r doesn't exist, error: %s"
                   [checkpoint_id; msg] ;;;
               ret None
             else
               log ERROR "Failed to delete VM %r checkpoint %r: %s"
                   [vm_id h; checkpoint_id; msg] ;;;
               ret (Some (code, msg))) ;;
      match failure with
      | Some err =>
          ret {| checkpoint_ids := deleted_checkpoint_ids;
                 error := Some err |}
      | None =>
          delete_checkpoints_loop rest
                                  (deleted_checkpoint_ids ++ [checkpoint_id])
      end
  end.

Definition delete_checkpoints (checkpoint_ids : list string)
  : M W DeleteResult :=
  delete_checkpoints_loop checkpoint_ids [].

(** *** Drives *)

Fixpoint _get_disks_drives_loop (ds : list DiskConfig)
                                (drives : list (string * BackupDrive))
  : M W (list (string * BackupDrive)) :=
  match ds with
  | [] => ret drives
  | disk :: rest =>
      drive <- findDriveByUUIDs (dom_id disk) (img_id disk) (vol_id disk) ;;
      _get_disks_drives_loop rest
        (dict_set (img_id disk)
                  {| drive_name := fst drive;
                     drive_path := snd drive;
                     drive_backup_mode := backup_mode disk;
                     drive_scratch_disk := scratch_disk disk |}
                  drives)
  end.

Definition _get_disks_drives (backup_cfg : BackupConfig)
  : M W (list (string * BackupDrive)) :=
  try_except (_get_disks_drives_loop (disks backup_cfg) [])
    (fun e =>
       if is_LookupError e
       then raise (BackupError "Failed to find one of the backup disks")
       else raise e).

(** *** Scratch disks *)

Fixpoint remove_listed (backup_id : string) (names : list string)
  : M W unit :=
  match names with
  | [] => ret tt
  | disk_name :: rest =>
      res <- remove_transient_disk (vm_id h) disk_name ;;
      (if is_error res
       then log ERROR
              "Failed to remove backup '%s' scratch disk for drive name: %s, "
              [backup_id; disk_name]
       else ret tt) ;;;
      remove_listed backup_id rest
  end.

Definition _remove_scratch_disks (backup_id : string) : M W unit :=
  log INFO "Removing scratch disks for backup id: %s" [backup_id] ;;;
  res <- list_transient_disks (vm_id h) ;;
  match res with
  | RespError _ message =>
      raise (BackupError ("Failed to fetch scratch disks: " ++ message))
  | RespOk names => remove_listed backup_id names
  end.

Definition _get_drive_capacity (drive : BackupDrive) : M W Z :=
  except_libvirtError
    (info <- blockInfo (drive_path drive) ;;
     match info with (capacity, _, _) => ret capacity end)
    (fun _ msg =>
       raise (BackupError
                ("Failed to get drive " ++ drive_name drive ++ " capacity: "
                 ++ msg))).

Definition _create_transient_disk (backup_id : string) (drive : BackupDrive)
  : M W string :=
  let disk_name := (backup_id ++ "." ++ drive_name drive)%string in
  drive_size <- _get_drive_capacity drive ;;
  res <- create_transient_disk (vm_id h) disk_name drive_size ;;
  match res with
  | RespError _ message =>
      raise (BackupError ("Failed to create transient disk: " ++ message))
  | RespOk path => ret path
  end.

(** The loop assigns [drive.scratch_disk] on the drive objects of the
    dictionary; the function returns the dictionary as the loop left
    it. *)
Fixpoint _create_scratch_disks (backup_id : string)
                               (drives : list (string * BackupDrive))
  : M W (list (string * BackupDrive)) :=
  match drives with
  | [] => ret []
  | (img, drive) :: rest =>
      match drive_scratch_disk drive with
      | Some _ =>
          rest' <- _create_scratch_disks backup_id rest ;;
          ret ((img, drive) :: rest')
      | None =>
          path <- try_except (_create_transient_disk backup_id drive)
                    (fun e => _remove_scratch_disks backup_id ;;; raise e) ;;
          let drive' :=
            {| drive_name := drive_name drive;
               drive_path := drive_path drive;
               drive_backup_mode := drive_backup_mode drive;
               drive_scratch_disk :=
                 Some {| scratch_path := path; scratch_type := "file" |} |} in
          rest' <- _create_scratch_disks backup_id rest ;;
          ret ((img, drive') :: rest')
      end
  end.

(** *** Backup session *)

Definition _get_backup_xml (backup_id : string) : M W string :=
  except_libvirtError backupGetXMLDesc
    (fun code msg =>
       if virErrorNumber_eqb code VIR_ERR_NO_DOMAIN_BACKUP
       then raise (NoSuchBackupError ("VM backup not exists: " ++ msg))
       else raise (BackupError ("Failed to fetch VM ''backup info: " ++ msg))).

Definition _backup_exists (backup_id : string) : M W bool :=
  try_except (_get_backup_xml backup_id ;;; ret true)
    (fun e =>
       match e with
       | NoSuchBackupError msg | NotConnectedError msg =>
           log INFO
             "VM with id '%s' or backup with id '%s' not found, error: %s"
             [backup_id; vm_id h; msg] ;;;
           ret false
       | _ => raise e
       end).

Definition _add_checkpoint_xml (backup_id checkpoint_id : string)
                               (result : BackupResult) : M W BackupResult :=
  except_libvirtError
    (checkpoint <- checkpointLookupByName checkpoint_id ;;
     xml <- getXMLDesc checkpoint ;;
     ret {| result_disks := result_disks result;
            result_checkpoint := Some xml |})
    (fun code msg =>
       if virErrorNumber_eqb code VIR_ERR_NO_DOMAIN_CHECKPOINT
       then
         log EXCEPTION
           "Checkpoint_id: %r for backup_id: %r, doesn't exist, error: %s"
           [checkpoint_id; backup_id; msg] ;;;
         ret result
       else
         log EXCEPTION
           "Failed to fetch checkpoint_id: %r for backup_id: %r, error: %s"
           [checkpoint_id; backup_id; msg] ;;;
         ret result).

Definition _begin_backup (backup_cfg : BackupConfig) (backup_xml : string)
                         (checkpoint_xml : option string) : M W unit :=
  except_libvirtError
    (backupBegin backup_xml checkpoint_xml
                 [VIR_DOMAIN_BACKUP_BEGIN_REUSE_EXTERNAL])
    (fun code msg =>
       if cold_backup_enabled p
          && virErrorNumber_eqb code VIR_ERR_CHECKPOINT_INCONSISTENT
       then raise (InconsistentCheckpointError
                     ("Checkpoint can't be used: " ++ msg))
       else raise (BackupError ("Error starting backup: " ++ msg))).

Definition truthy_bool (v : option bool) : bool :=
  match v with Some b => b | None => false end.

(** The [try] block of [start_backup]. *)
Definition start_backup_session (backup_cfg : BackupConfig)
                                (nbd_addr : Address)
                                (drives : list (string * BackupDrive))
  : M W unit :=
  res <- freeze ;;
  (if is_error res && truthy_bool (require_consistency backup_cfg)
   then raise (BackupError ("Failed freeze VM: " ++ status_message res))
   else ret tt) ;;;
  backup_xml <- lift (create_backup_xml p nbd_addr drives
                                        (from_checkpoint_id backup_cfg)) ;;
  checkpoint_xml <- lift (create_checkpoint_xml p backup_cfg drives) ;;
  log INFO
    "Starting backup for backup_id: %r, backup xml: %s\ncheckpoint xml: %s"
    [backup_id backup_cfg; backup_xml;
     match checkpoint_xml with Some x => x | None => "None" end] ;;;
  _begin_backup backup_cfg backup_xml checkpoint_xml.

Definition start_backup (config : backup_dict) : M W BackupResult :=
  backup_cfg <- lift (BackupConfig_init p config) ;;
  match disks backup_cfg with
  | [] => raise (BackupError "Cannot start a backup without disks")
  | _ :: _ =>
      _validate_parent_id backup_cfg ;;;
      drives <- _get_disks_drives backup_cfg ;;
      let path := socket_path p (backup_id backup_cfg) in
      let nbd_addr := UnixAddress path in
      drives <- _create_scratch_disks (backup_id backup_cfg) drives ;;
      try_finally
        (try_except (start_backup_session backup_cfg nbd_addr drives)
           (fun e =>
              _remove_scratch_disks (backup_id backup_cfg) ;;; raise e))
        (thaw ;;; ret tt) ;;;
      let disks_urls :=
        map (fun kv => (fst kv, nbd_url p path (drive_name (snd kv))))
            drives in
      let result := {| result_disks := disks_urls;
                       result_checkpoint := None |} in
      match to_checkpoint_id backup_cfg with
      | Some to_id =>
          _add_checkpoint_xml (backup_id backup_cfg) to_id result
      | None => ret result
      end
  end.

Definition stop_backup (backup_id : string) : M W unit :=
  found <- _backup_exists backup_id ;;
  (if found
   then
     except_libvirtError abortJob
       (fun code msg =>
          if negb (virErrorNumber_eqb code VIR_ERR_OPERATION_INVALID)
          then raise (BackupError ("Failed to end VM backup: " ++ msg))
          else ret tt)
   else ret tt) ;;;
  _remove_scratch_disks backup_id.

End Operations.

(** ** A reference host

    A concrete host used to run the operations: a world with the
    transient disks registered for the VM, the checkpoint chain and the
    running backup job, and a scenario that says which calls fail.

    Modelled from the spec: the storage boundary (list-transient-disks,
    create-transient-disk, remove-transient-disk) and the hypervisor
    boundary, whose code is outside this module.  A transient disk that
    was created is listed until a removal succeeds; a removal that
    answers an error leaves the disk in place. *)
Module Sim.

Record World : Type := {
  transient : list string;
  checkpoints : list string;
  backup_running : bool
}.

Record Scenario : Type := {
  sc_vm_id : string;
  sc_connected : bool;
  sc_drives : list (string * (string * string));
  sc_block_info : string -> result (Z * Z * Z);
  sc_freeze : result (response unit);
  sc_thaw : result (response unit);
  sc_list_fails : bool;
  sc_create_fails : string -> bool;
  sc_remove_fails : string -> bool;
  sc_begin : result unit;
  sc_abort : result unit;
  sc_list_checkpoints_fault : option exn;
  sc_lookup_fault : string -> option exn;
  sc_delete_fault : string -> option exn
}.

Definition set_transient (w : World) (t : list string) : World :=
  {| transient := t; checkpoints := checkpoints w;
     backup_running := backup_running w |}.

Definition set_checkpoints (w : World) (c : list string) : World :=
  {| transient := transient w; checkpoints := c;
     backup_running := backup_running w |}.

Definition set_backup_running (w : World) (b : bool) : World :=
  {| transient := transient w; checkpoints := checkpoints w;
     backup_running := b |}.

Definition without (name : string) (l : list string) : list string :=
  filter (fun x => negb (String.eqb x name)) l.

(** Modelled from the spec: the collaborators of the module (VM, guest
    agent, hypervisor and storage dispatcher), which are not part of
    it.  Storage: listing answers the registered names, creation
    registers the name and answers a path, removal unregisters the
    name; each answers an error and changes nothing when the scenario
    makes it fail.  Hypervisor: a lookup of a checkpoint that is not in
    the chain and a descriptor request without a running backup answer
    the libvirt errors the module tests for. *)
Definition host (sc : Scenario) : Host World := {|
  vm_id := sc_vm_id sc;
  vm_findDriveByUUIDs := fun domainID imageID volumeID w =>
    (match dict_get imageID (sc_drives sc) with
     | Some d => Ok d
     | None => Raise (LookupError ("No such drive: " ++ imageID))
     end, w);
  vm_freeze := fun w => (sc_freeze sc, w);
  vm_thaw := fun w => (sc_thaw sc, w);
  irs_list_transient_disks := fun owner w =>
    (if sc_list_fails sc then RespError 100 "list failed"
     else RespOk (transient w), w);
  irs_create_transient_disk := fun owner disk_name size w =>
    if sc_create_fails sc disk_name then (RespError 100 "create failed", w)
    else (RespOk ("/run/vdsm/transient_disks/" ++ owner ++ "/" ++ disk_name)%string,
          set_transient w (transient w ++ [disk_name]));
  irs_remove_transient_disk := fun owner disk_name w =>
    if sc_remove_fails sc disk_name then (RespError 100 "remove failed", w)
    else (RespOk tt, set_transient w (without disk_name (transient w)));
  dom_backupBegin := fun backup_xml checkpoint_xml flags w =>
    match sc_begin sc with
    | Ok _ => (Ok tt, set_backup_running w true)
    | Raise e => (Raise e, w)
    end;
  dom_abortJob := fun w =>
    match sc_abort sc with
    | Ok _ => (Ok tt, set_backup_running w false)
    | Raise e => (Raise e, w)
    end;
  dom_backupGetXMLDesc := fun w =>
    (if negb (sc_connected sc) then Raise (NotConnectedError "VM is down")
     else if backup_running w then Ok "<domainbackup mode='pull'/>"
     else Raise (libvirtError VIR_ERR_NO_DOMAIN_BACKUP "no domain backup"),
     w);
  dom_checkpointLookupByName := fun name w =>
    (match sc_lookup_fault sc name with
     | Some e => Raise e
     | None =>
         if existsb (String.eqb name) (checkpoints w) then Ok name
         else Raise (libvirtError VIR_ERR_NO_DOMAIN_CHECKPOINT
                                  "no domain checkpoint")
     end, w);
  dom_listAllCheckpoints := fun flags w =>
    (match sc_list_checkpoints_fault sc with
     | Some e => Raise e
     | None => Ok (checkpoints w)
     end, w);
  dom_blockInfo := fun path w => (sc_block_info sc path, w);
  checkpoint_delete := fun name w =>
    match sc_delete_fault sc name with
    | Some e => (Raise e, w)
    | None => (Ok tt, set_checkpoints w (without name (checkpoints w)))
    end;
  checkpoint_getXMLDesc := fun name w =>
    (Ok ("<domaincheckpoint><name>" ++ name ++ "</name></domaincheckpoint>")%string,
     w)
|}.

(** A serializer and the other imported helpers, to run the builders.
    The serializer refuses an attribute that holds [None]. *)
Fixpoint serializable (e : Element) : bool :=
  match e with
  | Elem _ attrs _ children =>
      forallb (fun kv => negb (is_None (snd kv))) attrs
      && forallb serializable children
  end.

Fixpoint render (e : Element) : string :=
  match e with
  | Elem tag attrs text children =>
      ("<" ++ tag
       ++ String.concat ""
            (map (fun kv =>
                    " " ++ fst kv ++ "='"
                    ++ match snd kv with Some v => v | None => "None" end
                    ++ "'") attrs)
       ++ ">"
       ++ match text with Some x => x | None => "" end
       ++ String.concat "" (map render children)
       ++ "</" ++ tag ++ ">")%string
  end.

Definition platform : Platform := {|
  UUID_validate := fun s => if String.eqb s "" then None else Some s;
  P_BACKUP := "/run/vdsm/backup";
  nbd_url := fun path name =>
    ("nbd:unix:" ++ path ++ ":exportname=" ++ name)%string;
  tostring := fun e =>
    if serializable e then Ok (render e)
    else Raise (TypeError "cannot serialize None");
  disable_dynamic_ownership := fun write_type e =>
    appendChild e
      (Element_new "seclabel"
         ([("model", Some "dac"); ("relabel", Some "no")]
          ++ if write_type then [("type", Some "none")] else []));
  cold_backup_enabled := true
|}.

(** Scenarios over two attached drives of 10 GiB capacity, by the calls
    that fail; in [calm] every call succeeds. *)
Definition scenario (begin abort : result unit)
                    (create_fails remove_fails : string -> bool)
                    (list_fails : bool)
                    (delete_fault : string -> option exn) : Scenario := {|
  sc_vm_id := "vm-1";
  sc_connected := true;
  sc_drives := [("img-1", ("sda", "/dev/vg/sda"));
                ("img-2", ("vda", "/dev/vg/vda"))];
  sc_block_info := fun _ => Ok (10737418240, 4096, 4096)%Z;
  sc_freeze := Ok (RespOk tt);
  sc_thaw := Ok (RespOk tt);
  sc_list_fails := list_fails;
  sc_create_fails := create_fails;
  sc_remove_fails := remove_fails;
  sc_begin := begin;
  sc_abort := abort;
  sc_list_checkpoints_fault := None;
  sc_lookup_fault := fun _ => None;
  sc_delete_fault := delete_fault
|}.

Definition never : string -> bool := fun _ => false.

Definition calm : Scenario :=
  scenario (Ok tt) (Ok tt) never never false (fun _ => None).

Definition empty_world : World :=
  {| transient := []; checkpoints := []; backup_running := false |}.

Definition disk (img : string) (mode : option string) : disk_dict := {|
  k_volumeID := Some ("vol-of-" ++ img)%string;
  k_imageID := Some img;
  k_domainID := Some "dom-1";
  k_checkpoint := Some true;
  k_backup_mode := mode;
  k_scratch_disk := None
|}.

(** Requests against a chain [cp0; cp1] whose parent is [cp0]: one that
    continues from [cp1] without asking for a new checkpoint, and one
    that asks for the checkpoint [cp2]. *)
Definition two_checkpoints : World :=
  {| transient := []; checkpoints := ["cp0"; "cp1"];
     backup_running := false |}.

Definition request (from to parent : option string) (ds : list disk_dict)
  : backup_dict := {|
  k_backup_id := Some "b1";
  k_from_checkpoint_id := from;
  k_to_checkpoint_id := to;
  k_parent_checkpoint_id := parent;
  k_require_consistency := None;
  k_creation_time := None;
  k_disks := ds
|}.

Definition stale_parent_no_checkpoint : backup_dict :=
  request (Some "cp1") None (Some "cp0") [disk "img-1" (Some "incremental")].

Definition stale_parent_new_checkpoint : backup_dict :=
  request (Some "cp1") (Some "cp2") (Some "cp0")
          [disk "img-1" (Some "incremental")].

Definition config_of (c : backup_dict) : BackupConfig :=
  match BackupConfig_init platform c with
  | Ok cfg => cfg
  | Raise _ =>
      {| backup_id := ""; from_checkpoint_id := None;
         to_checkpoint_id := None; parent_checkpoint_id := None;
         require_consistency := None; creation_time := None; disks := [] |}
  end.

(** A backup is running over one scratch disk, and [abortJob] fails
    with an error other than "operation invalid". *)
Definition abort_refused : Scenario :=
  scenario (Ok tt)
           (Raise (libvirtError VIR_ERR_OPERATION_FAILED "abort failed"))
           never never false (fun _ => None).

Definition backup_in_progress : World :=
  {| transient := ["b1.sda"]; checkpoints := []; backup_running := true |}.

Definition backup_finished : World :=
  {| transient := ["b1.sda"]; checkpoints := []; backup_running := false |}.

(** The chain [a; b; c], with a hypervisor that refuses to delete [b]. *)
Definition delete_refused : Scenario :=
  scenario (Ok tt) (Ok tt) never never false
           (fun name =>
              if String.eqb name "b"
              then Some (libvirtError VIR_ERR_INTERNAL_ERROR "internal error")
              else None).

Definition chain_abc : World :=
  {| transient := []; checkpoints := ["a"; "b"; "c"];
     backup_running := false |}.

Definition has_checkpoint (name : string) (w : World) : Prop :=
  existsb (String.eqb name) (checkpoints w) = true.

(** Two resolved drives without scratch disk; a storage that creates
    the scratch disk of [sda], refuses the one of [vda], and then
    either removes what it is asked to remove or refuses to remove the
    scratch disk of [sda]. *)
Definition drive (name : string) : BackupDrive :=
  {| drive_name := name;
     drive_path := ("/dev/vg/" ++ name)%string;
     drive_backup_mode := None;
     drive_scratch_disk := None |}.

Definition two_drives : list (string * BackupDrive) :=
  [("img-1", drive "sda"); ("img-2", drive "vda")].

Definition second_creation_fails : Scenario :=
  scenario (Ok tt) (Ok tt) (fun name => String.eqb name "b1.vda") never
           false (fun _ => None).

Definition rollback_refused : Scenario :=
  scenario (Ok tt) (Ok tt)
           (fun name => String.eqb name "b1.vda")
           (fun name => String.eqb name "b1.sda")
           false (fun _ => None).

Definition listing_fails : Scenario :=
  scenario (Ok tt) (Ok tt) never never true (fun _ => None).

(** The two-disk example of the specification: a file-backed full drive
    and a block-backed incremental drive from checkpoint [cp1]. *)
Definition provisioned (name : string) (mode : option string)
                       (type : string) : BackupDrive :=
  {| drive_name := name;
     drive_path := ("/dev/vg/" ++ name)%string;
     drive_backup_mode := mode;
     drive_scratch_disk :=
       Some {| scratch_path := ("/scratch/" ++ name)%string;
               scratch_type := type |} |}.

Definition mixed_drives : list (string * BackupDrive) :=
  [("img-1", provisioned "sda" (Some "full") "file");
   ("img-2", provisioned "vda" (Some "incremental") "block")].

(** A request for the checkpoint [cp2] on top of [cp1], with the
    creation time 0 (the epoch) and with the creation time 1. *)
Definition checkpoint_request (t : Z) : backup_dict := {|
  k_backup_id := Some "b1";
  k_from_checkpoint_id := None;
  k_to_checkpoint_id := Some "cp2";
  k_parent_checkpoint_id := Some "cp1";
  k_require_consistency := None;
  k_creation_time := Some t;
  k_disks := [disk "img-1" None]
|}.

End Sim.

(** ** Listing, dumping and redefining checkpoints; backup information *)

(** What a caller sends to [redefine_checkpoints] for one checkpoint:
    the keys [id], [xml] and [config], the last one holding a backup
    request. *)
Record checkpoint_dict : Type := {
  k_id : option string;
  k_xml : option string;
  k_config : option backup_dict
}.

Record CheckpointConfig : Type := {
  cp_id : string;
  cp_xml : option string;
  cp_config : option BackupConfig
}.

(** [CheckpointConfig.__init__] *)
Definition CheckpointConfig_init (p : Platform)
                                 (checkpoint_config : checkpoint_dict)
  : result CheckpointConfig :=
  cid <-- prop_UUID_required p "id" (k_id checkpoint_config) ;;
  let xml := k_xml checkpoint_config in
  config <-- match k_config checkpoint_config with
             | Some c =>
                 cfg <-- BackupConfig_init p c ;;
                 Ok (Some cfg)
             | None => Ok None
             end ;;
  if is_None config && is_None xml
  then Raise (CheckpointError
         "Cannot redefine checkpoint without checkpoint XML or backup config")
  else Ok {| cp_id := cid; cp_xml := xml; cp_config := config |}.

Section Checkpoints.
Context {W : Type}.
Variable h : Host W.
Local Open Scope monad_scope.

(** [list_checkpoints]; the value is what the function returns under
    ['result']. *)
Definition list_checkpoints : M W (list string) :=
  except_libvirtError
    (checkpoints <- listAllCheckpoints h
                      [VIR_DOMAIN_CHECKPOINT_LIST_TOPOLOGICAL] ;;
     ret checkpoints)
    (fun _ msg =>
       raise (CheckpointError
                ("Failed to fetch defined checkpoints list: " ++ msg))).

(** [dump_checkpoint]; the value is what the function returns under
    ['result']['checkpoint']. *)
Definition dump_checkpoint (checkpoint_id : string) : M W string :=
  except_libvirtError
    (checkpoint <- checkpointLookupByName h checkpoint_id ;;
     xml <- getXMLDesc h checkpoint ;;
     ret xml)
    (fun code msg =>
       if virErrorNumber_eqb code VIR_ERR_NO_DOMAIN_CHECKPOINT
       then raise (NoSuchCheckpointError
                     ("Failed to fetch checkpoint: " ++ msg))
       else raise (libvirtError code msg)).

End Checkpoints.

(** *** Two more calls

    [redefine_checkpoints] and [backup_info] make two calls that the
    operations above do not make: [dom.checkpointCreateXML] and
    [vm.find_device_by_name_or_path], the latter answering the
    [imageID] of the device it finds.  Their runs record the calls of
    both kinds. *)

Inductive virCheckpointCreateFlag : Type :=
| VIR_DOMAIN_CHECKPOINT_CREATE_REDEFINE
| VIR_DOMAIN_CHECKPOINT_CREATE_REDEFINE_VALIDATE.

Inductive Call : Type :=
| Boundary (e : Event)
| EvCheckpointCreateXML (xml : option string)
                        (flags : list virCheckpointCreateFlag)
                        (r : result unit)
| EvFindDeviceByNameOrPath (name : string) (r : result string).

Record HostExt (W : Type) : Type := {
  dom_checkpointCreateXML :
    option string -> list virCheckpointCreateFlag -> W -> result unit * W;
  vm_find_device_by_name_or_path : string -> W -> result string * W
}.
Arguments dom_checkpointCreateXML {W}.
Arguments vm_find_device_by_name_or_path {W}.

(** The parser [xmlutils.fromstring], which raises on a document that
    is not well formed, and whether this libvirt defines
    [VIR_DOMAIN_CHECKPOINT_CREATE_REDEFINE_VALIDATE]. *)
Record PlatformExt : Type := {
  fromstring : string -> result Element;
  redefine_validate_enabled : bool
}.

Definition MX (W A : Type) : Type := W -> result A * W * list Call.

(** An operation of the first kind, run among the others. *)
Definition embed {W A} (m : M W A) : MX W A :=
  fun w => match m w with (r, w1, t) => (r, w1, map Boundary t) end.

Definition xret {W A} (a : A) : MX W A := fun w => (Ok a, w, []).

Definition xraise {W A} (e : exn) : MX W A := fun w => (Raise e, w, []).

Definition xbind {W A B} (m : MX W A) (f : A -> MX W B) : MX W B :=
  fun w =>
    match m w with
    | (Ok a, w1, t1) =>
        match f a w1 with
        | (r, w2, t2) => (r, w2, t1 ++ t2)
        end
    | (Raise e, w1, t1) => (Raise e, w1, t1)
    end.

Definition xtry_except {W A} (m : MX W A) (handler : exn -> MX W A)
  : MX W A :=
  fun w =>
    match m w with
    | (Ok a, w1, t1) => (Ok a, w1, t1)
    | (Raise e, w1, t1) =>
        match handler e w1 with
        | (r, w2, t2) => (r, w2, t1 ++ t2)
        end
    end.

Definition xcall {W A} (op : W -> result A * W) (ev : result A -> Call)
  : MX W A :=
  fun w => match op w with (r, w1) => (r, w1, [ev r]) end.

Declare Scope calls_scope.
Delimit Scope calls_scope with calls.
Notation "x <- m ;; k" := (xbind m (fun x => k))
  (at level 61, m at next level, right associativity) : calls_scope.
Notation "m ;;; k" := (xbind m (fun _ => k))
  (at level 61, right associativity) : calls_scope.

(** [element.find('./tag')]: the first child with the tag. *)
Definition find_child (tag : string) (e : Element) : option Element :=
  List.find (fun c => String.eqb (el_tag c) tag) (el_children e).

(** [element.get(key)]: the value of the attribute, [None] when the
    element has no such attribute. *)
Definition get (key : string) (e : Element) : option string :=
  match attr key e with
  | Some v => v
  | None => None
  end.

(** [domainbackup.findall("./disks/disk[@backup='yes']")]: in document
    order, the [disk] children of the [disks] children that carry the
    attribute [backup] with the value [yes]. *)
Definition backup_disks (domainbackup : Element) : list Element :=
  flat_map
    (fun disks =>
       filter (fun disk =>
                 String.eqb (el_tag disk) "disk"
                 && option_string_eqb (get "backup" disk) (Some "yes"))
              (el_children disks))
    (children_tagged "disks" domainbackup).

(** The error of [_raise_parse_error]. *)
Definition parse_error (backup_xml : string) : exn :=
  BackupError ("Failed to parse invalid libvirt backup XML: " ++ backup_xml).

Section MoreOperations.
Context {W : Type}.
Variable h : Host W.
Variable hx : HostExt W.
Variable p : Platform.
Variable px : PlatformExt.
Local Open Scope calls_scope.

Definition checkpointCreateXML (xml : option string)
                               (flags : list virCheckpointCreateFlag)
  : MX W unit :=
  xcall (dom_checkpointCreateXML hx xml flags)
        (EvCheckpointCreateXML xml flags).

Definition find_device_by_name_or_path (name : string) : MX W string :=
  xcall (vm_find_device_by_name_or_path hx name)
        (EvFindDeviceByNameOrPath name).

(** The flags of [redefine_checkpoints]. *)
Definition redefine_flags : list virCheckpointCreateFlag :=
  VIR_DOMAIN_CHECKPOINT_CREATE_REDEFINE
  :: (if redefine_validate_enabled px
      then [VIR_DOMAIN_CHECKPOINT_CREATE_REDEFINE_VALIDATE]
      else []).

(** The loop of [redefine_checkpoints]; a [BackupConfig] object is
    true. *)
Fixpoint redefine_checkpoints_loop (checkpoints : list checkpoint_dict)
                                   (checkpoint_ids : list string)
  : MX W DeleteResult :=
  match checkpoints with
  | [] => xret {| checkpoint_ids := checkpoint_ids; error := None |}
  | checkpoint :: rest =>
      checkpoint_cfg <- embed (lift (CheckpointConfig_init p checkpoint)) ;;
      embed (log INFO "Redefine VM %r checkpoint %r"
                 [vm_id h; cp_id checkpoint_cfg]) ;;;
      checkpoint_xml <-
        match cp_config checkpoint_cfg with
        | Some config =>
            drives <- embed (_get_disks_drives h config) ;;
            embed (lift (create_checkpoint_xml p config drives))
        | None => xret (cp_xml checkpoint_cfg)
        end ;;
      failure <-
        xtry_except
          (checkpointCreateXML checkpoint_xml redefine_flags ;;;
           xret None)
          (fun e =>
             match e with
             | libvirtError code msg =>
                 embed (log ERROR "Failed to redefine VM %r checkpoint %r: %s"
                            [vm_id h; cp_id checkpoint_cfg; msg]) ;;;
                 xret (Some (code, msg))
             | _ => xraise e
             end) ;;
      match failure with
      | Some err =>
          xret {| checkpoint_ids := checkpoint_ids; error := Some err |}
      | None =>
          redefine_checkpoints_loop rest
                                    (checkpoint_ids ++ [cp_id checkpoint_cfg])
      end
  end.

(** [redefine_checkpoints]; the value is what the function returns
    under ['result'], which has the shape of the result of
    [delete_checkpoints]. *)
Definition redefine_checkpoints (checkpoints : list checkpoint_dict)
  : MX W DeleteResult :=
  redefine_checkpoints_loop checkpoints [].

(** The loop of [_parse_backup_info] over the disks that are backed
    up. *)
Fixpoint parse_backup_disks (backup_xml path : string) (ds : list Element)
                            (disks_urls : list (string * string))
  : MX W (list (string * string)) :=
  match ds with
  | [] => xret disks_urls
  | disk :: rest =>
      match get "name" disk with
      | None => xraise (parse_error backup_xml)
      | Some disk_name =>
          imageID <- find_device_by_name_or_path disk_name ;;
          parse_backup_disks backup_xml path rest
            (dict_set imageID (nbd_url p path disk_name) disks_urls)
      end
  end.

Definition _parse_backup_info (backup_id backup_xml : string)
  : MX W (list (string * string)) :=
  domainbackup <- embed (lift (fromstring px backup_xml)) ;;
  match find_child "server" domainbackup with
  | None => xraise (parse_error backup_xml)
  | Some server =>
      match get "socket" server with
      | None => xraise (parse_error backup_xml)
      | Some path =>
          parse_backup_disks backup_xml path (backup_disks domainbackup) []
      end
  end.

Definition backup_info (backup_id : string) (checkpoint_id : option string)
  : MX W BackupResult :=
  backup_xml <- embed (_get_backup_xml h backup_id) ;;
  embed (log DEBUG "backup_id %r info: %s" [backup_id; backup_xml]) ;;;
  disks_urls <- _parse_backup_info backup_id backup_xml ;;
  let result := {| result_disks := disks_urls; result_checkpoint := None |} in
  match checkpoint_id with
  | Some checkpoint_id =>
      embed (_add_checkpoint_xml h backup_id checkpoint_id result)
  | None => xret result
  end.

End MoreOperations.
(** ** The reference host, with the two further calls

    Modelled from the spec: the hypervisor accepts the redefinition of
    a checkpoint unless the scenario makes it fail for the XML, and the
    VM finds the devices of a table by name; the parser knows the
    documents of a table by their rendering. *)
Module SimCalls.

Definition host_ext (create_fault : option string -> option exn)
                    (devices : list (string * string))
  : HostExt Sim.World := {|
  dom_checkpointCreateXML := fun xml flags w =>
    match create_fault xml with
    | Some e => (Raise e, w)
    | None => (Ok tt, w)
    end;
  vm_find_device_by_name_or_path := fun name w =>
    (match dict_get name devices with
     | Some imageID => Ok imageID
     | None => Raise (LookupError ("No such disk " ++ name))
     end, w)
|}.

Definition platform_ext (documents : list Element) : PlatformExt := {|
  fromstring := fun s =>
    match List.find (fun e => String.eqb (Sim.render e) s) documents with
    | Some e => Ok e
    | None => Raise (ValueError "not well-formed")
    end;
  redefine_validate_enabled := true
|}.

(** An entry that carries its XML, and one without XML and config. *)
Definition entry (name : string) : checkpoint_dict := {|
  k_id := Some name;
  k_xml := Some ("<domaincheckpoint><name>" ++ name
                 ++ "</name></domaincheckpoint>")%string;
  k_config := None
|}.

Definition bare_entry (name : string) : checkpoint_dict :=
  {| k_id := Some name; k_xml := None; k_config := None |}.

(** A hypervisor that refuses to redefine the checkpoint [b]. *)
Definition refuses_b (xml : option string) : option exn :=
  if option_string_eqb xml (k_xml (entry "b"))
  then Some (libvirtError VIR_ERR_INTERNAL_ERROR "internal error")
  else None.

Definition accepts (xml : option string) : option exn := None.

(** The descriptor of a running backup as libvirt reports it: two
    disks that are backed up and one that is not. *)
Definition reported_backup : Element :=
  Elem "domainbackup" [("mode", Some "pull")] None
    [Elem "server" [("transport", Some "unix");
                    ("socket", Some "/run/vdsm/backup/b1")] None [];
     Elem "disks" [] None
       [Elem "disk" [("name", Some "sda"); ("backup", Some "yes");
                     ("type", Some "file")] None [];
        Elem "disk" [("name", Some "hdc"); ("backup", Some "no")] None [];
        Elem "disk" [("name", Some "vda"); ("backup", Some "yes");
                     ("type", Some "file")] None []]].

Definition attached : list (string * string) :=
  [("sda", "img-1"); ("vda", "img-2")].

End SimCalls.

(** ** Statements used by the theorems *)

(** The names of the transient disks whose removal was requested, and
    of the checkpoints that were looked up, in call order. *)
Fixpoint removed (evs : list Event) : list string :=
  match evs with
  | [] => []
  | EvRemoveTransientDisk _ name _ :: rest => name :: removed rest
  | _ :: rest => removed rest
  end.

Fixpoint looked_up (evs : list Event) : list string :=
  match evs with
  | [] => []
  | EvCheckpointLookupByName name _ :: rest => name :: looked_up rest
  | _ :: rest => looked_up rest
  end.

Definition is_freeze (e : Event) : bool :=
  match e with EvFreeze _ => true | _ => false end.
Definition is_thaw (e : Event) : bool :=
  match e with EvThaw _ => true | _ => false end.
Definition is_abort (e : Event) : bool :=
  match e with EvAbortJob _ => true | _ => false end.
Definition is_listing (e : Event) : bool :=
  match e with EvListTransientDisks _ _ => true | _ => false end.
Definition is_removal (e : Event) : bool :=
  match e with EvRemoveTransientDisk _ _ _ => true | _ => false end.
Definition is_creation (e : Event) : bool :=
  match e with EvCreateTransientDisk _ _ _ _ => true | _ => false end.
Definition is_checkpoint_listing (e : Event) : bool :=
  match e with EvListAllCheckpoints _ _ => true | _ => false end.

(** How often an event of a kind occurs in a trace. *)
Definition count (kind : Event -> bool) (evs : list Event) : nat :=
  List.length (filter kind evs).

(** The calls and log records of the run of [m] from [w]. *)
Definition events_of {W A} (m : M W A) (w : W) : list Event := snd (m w).

(** Every run of [m] leaves a trace in [S]. *)
Definition traces {W A} (m : M W A) (S : list Event -> Prop) : Prop :=
  forall w r w' evs, m w = (r, w', evs) -> S evs.

(** Every run of [m] makes only calls outside [kind]. *)
Definition avoids {W A} (kind : Event -> bool) (m : M W A) : Prop :=
  traces m (Forall (fun e => kind e = false)).

(** The two cross-field conditions of [BackupConfig.__init__], read on
    the request. *)
Definition parent_missing (c : backup_dict) : Prop :=
  k_from_checkpoint_id c <> None /\ k_parent_checkpoint_id c = None.

Definition incremental_without_from (c : backup_dict) : Prop :=
  k_from_checkpoint_id c = None /\
  exists d, In d (k_disks c) /\ k_backup_mode d = Some MODE_INCREMENTAL.

Definition validation_error (e : exn) : Prop :=
  exists msg, e = ValueError msg \/ e = BackupError msg.

(** Every field of the request passes the validator of its property. *)
Definition uuid_ok (p : Platform) (required : bool) (v : option string)
  : bool :=
  match v with
  | None => negb required
  | Some s => negb (is_None (UUID_validate p s))
  end.

Definition enum_ok (allowed : list string) (v : option string) : bool :=
  match v with
  | None => true
  | Some s => existsb (String.eqb s) allowed
  end.

Definition scratch_fields_valid (sd : scratch_disk_dict) : bool :=
  negb (is_None (k_path sd))
  && match k_type sd with
     | Some t => existsb (String.eqb t) [DISK_TYPE_FILE; DISK_TYPE_BLOCK]
     | None => false
     end.

Definition disk_fields_valid (p : Platform) (d : disk_dict) : bool :=
  uuid_ok p true (k_volumeID d)
  && uuid_ok p true (k_imageID d)
  && uuid_ok p true (k_domainID d)
  && negb (is_None (k_checkpoint d))
  && enum_ok [MODE_FULL; MODE_INCREMENTAL] (k_backup_mode d)
  && match k_scratch_disk d with
     | Some sd => scratch_fields_valid sd
     | None => true
     end.

Definition fields_valid (p : Platform) (c : backup_dict) : bool :=
  uuid_ok p true (k_backup_id c)
  && uuid_ok p false (k_from_checkpoint_id c)
  && uuid_ok p false (k_to_checkpoint_id c)
  && uuid_ok p false (k_parent_checkpoint_id c)
  && match k_creation_time c with
     | Some t => Z.leb 0 t
     | None => true
     end
  && forallb (disk_fields_valid p) (k_disks c).

(** The calls an operation may make: its footprint. *)
Definition cleanup_call (e : Event) : bool :=
  match e with
  | EvLog _ _ _ | EvListTransientDisks _ _ | EvRemoveTransientDisk _ _ _ =>
      true
  | _ => false
  end.

Definition scratch_call (e : Event) : bool :=
  match e with
  | EvBlockInfo _ _ | EvCreateTransientDisk _ _ _ _ => true
  | _ => cleanup_call e
  end.

Definition drive_call (e : Event) : bool :=
  match e with EvFindDriveByUUIDs _ _ _ _ => true | _ => false end.

Definition begin_call (e : Event) : bool :=
  match e with EvLog _ _ _ | EvBackupBegin _ _ _ _ => true | _ => false end.

Definition describe_call (e : Event) : bool :=
  match e with
  | EvLog _ _ _ | EvCheckpointLookupByName _ _
  | EvCheckpointGetXMLDesc _ _ => true
  | _ => false
  end.

(** Every run of [m] makes only calls of its footprint. *)
Definition within {W A} (footprint : Event -> bool) (m : M W A) : Prop :=
  avoids (fun e => negb (footprint e)) m.

Definition freeze_or_thaw (e : Event) : bool := is_freeze e || is_thaw e.

(** The error [_validate_parent_id] raises on a stale parent. *)
Definition mismatch : exn :=
  CheckpointError
    "Parent checkpoint ID does not match the actual leaf checkpoint".

(** C1 as the specification states it: a request with
    [from_checkpoint_id] set is only started when its parent is the leaf
    of a fresh topological listing. *)
Definition chain_checked_when_from_is_set : Prop :=
  forall (W : Type) (h : Host W) (p : Platform) (c : backup_dict)
         (cfg : BackupConfig) (w w' : W) res evs,
    BackupConfig_init p c = Ok cfg ->
    from_checkpoint_id cfg <> None ->
    start_backup h p c w = (Ok res, w', evs) ->
    exists cps w1,
      dom_listAllCheckpoints h [VIR_DOMAIN_CHECKPOINT_LIST_TOPOLOGICAL] w
      = (Ok cps, w1)
      /\ parent_checkpoint_id cfg = leaf_name cps.

(** What [backupGetXMLDesc] answers when [_backup_exists] finds no
    session, and what [abortJob] answers when [stop_backup] goes on. *)
Definition no_session (g : result string) : Prop :=
  exists msg,
    g = Raise (libvirtError VIR_ERR_NO_DOMAIN_BACKUP msg)
    \/ g = Raise (NotConnectedError msg).

Definition benign (a : result unit) : Prop :=
  a = Ok tt
  \/ exists msg, a = Raise (libvirtError VIR_ERR_OPERATION_INVALID msg).

(** C4 as the specification states it, on its last point: every run of
    [stop_backup] goes through the scratch disk removal, which starts by
    listing the transient disks. *)
Definition cleanup_after_every_stop : Prop :=
  forall (W : Type) (h : Host W) (backup_id : string) (w : W),
    count is_listing (events_of (stop_backup h backup_id) w) <> 0%nat.

(** Outcomes of processing one checkpoint id in [delete_checkpoints],
    in every world of an invariant [I] that processing preserves: the
    checkpoint is deleted or turns out to be absent at the lookup or at
    the deletion; or the lookup or the deletion fails with another
    libvirt error. *)
Definition deleted_or_absent {W} (h : Host W) (I : W -> Prop) (id : string)
  : Prop :=
  forall w, I w ->
    (exists cp w1 w2,
        dom_checkpointLookupByName h id w = (Ok cp, w1)
        /\ checkpoint_delete h cp w1 = (Ok tt, w2) /\ I w2)
    \/ (exists msg w1,
           dom_checkpointLookupByName h id w
           = (Raise (libvirtError VIR_ERR_NO_DOMAIN_CHECKPOINT msg), w1)
           /\ I w1)
    \/ (exists cp w1 msg w2,
           dom_checkpointLookupByName h id w = (Ok cp, w1)
           /\ checkpoint_delete h cp w1
              = (Raise (libvirtError VIR_ERR_NO_DOMAIN_CHECKPOINT msg), w2)
           /\ I w2).

Definition fails_hard {W} (h : Host W) (I : W -> Prop) (id : string)
                      (code : virErrorNumber) (msg : string) : Prop :=
  code <> VIR_ERR_NO_DOMAIN_CHECKPOINT
  /\ forall w, I w ->
       (exists w1,
           dom_checkpointLookupByName h id w
           = (Raise (libvirtError code msg), w1))
       \/ (exists cp w1 w2,
              dom_checkpointLookupByName h id w = (Ok cp, w1)
              /\ checkpoint_delete h cp w1
                 = (Raise (libvirtError code msg), w2)).

Definition removal_call (e : Event) : bool :=
  match e with
  | EvLog _ _ _ | EvRemoveTransientDisk _ _ _ => true
  | _ => false
  end.

(** The error [_remove_scratch_disks] raises when the listing fails. *)
Definition fetch_failed (message : string) : exn :=
  BackupError ("Failed to fetch scratch disks: " ++ message).

Definition removing_scratch_disks (backup_id : string) : Event :=
  EvLog INFO "Removing scratch disks for backup id: %s" [backup_id].

Definition removal_failure_logged (backup_id disk_name : string) : Event :=
  EvLog ERROR
    "Failed to remove backup '%s' scratch disk for drive name: %s, "
    [backup_id; disk_name].

(** The drive after [drive.scratch_disk = ScratchDiskConfig(path=path,
    type="file")]. *)
Definition with_scratch_file (drive : BackupDrive) (path : string)
  : BackupDrive :=
  {| drive_name := drive_name drive;
     drive_path := drive_path drive;
     drive_backup_mode := drive_backup_mode drive;
     drive_scratch_disk :=
       Some {| scratch_path := path; scratch_type := "file" |} |}.

(** What a successful [_create_scratch_disks] has done, drive by drive:
    nothing for a drive that came with a scratch disk; for any other
    drive one [blockInfo] call on the path of the drive, answering its
    (capacity, allocation, physical), followed by one creation of the
    transient disk [{backup_id}.{drive_name}] for the VM with the
    capacity as its size, whose path becomes the scratch disk of the
    drive. *)
Inductive scratch_disks_created {W} (h : Host W) (backup_id : string)
  : list (string * BackupDrive) -> list (string * BackupDrive)
    -> list Event -> Prop :=
| created_none : scratch_disks_created h backup_id [] [] []
| created_skip img drive rest rest' t :
    drive_scratch_disk drive <> None ->
    scratch_disks_created h backup_id rest rest' t ->
    scratch_disks_created h backup_id
      ((img, drive) :: rest) ((img, drive) :: rest') t
| created_one img drive rest rest' t capacity allocation physical path :
    drive_scratch_disk drive = None ->
    scratch_disks_created h backup_id rest rest' t ->
    scratch_disks_created h backup_id
      ((img, drive) :: rest)
      ((img, with_scratch_file drive path) :: rest')
      (EvBlockInfo (drive_path drive) (Ok (capacity, allocation, physical))
       :: EvCreateTransientDisk (vm_id h)
            (backup_id ++ "." ++ drive_name drive) capacity (RespOk path)
       :: t).

(** The transient disks created in a trace: owner, name and size. *)
Fixpoint created (evs : list Event) : list (string * string * Z) :=
  match evs with
  | [] => []
  | EvCreateTransientDisk owner name size _ :: rest =>
      (owner, name, size) :: created rest
  | _ :: rest => created rest
  end.

Definition lacks_scratch_disk (kv : string * BackupDrive) : bool :=
  is_None (drive_scratch_disk (snd kv)).

(** C2 as the specification states it: after a failed
    [_create_scratch_disks], a listing of the transient disks of the VM
    shows none that carries the backup id. *)
Definition scratch_disks_all_or_nothing : Prop :=
  forall (sc : Sim.Scenario) (backup_id : string)
         (drives : list (string * BackupDrive)) (w w' w2 : Sim.World)
         e evs names,
    _create_scratch_disks (Sim.host sc) backup_id drives w
    = (Raise e, w', evs) ->
    irs_list_transient_disks (Sim.host sc) (Sim.sc_vm_id sc) w'
    = (RespOk names, w2) ->
    forall name, In name names ->
                 String.prefix (backup_id ++ ".") name = false.

(** The helper leaves the tag and the attributes of the element it is
    given as they are. *)
Definition keeps_tag_and_attributes (f : bool -> Element -> Element) : Prop :=
  forall write_type e,
    el_tag (f write_type e) = el_tag e
    /\ el_attrs (f write_type e) = el_attrs e.

(** The entry of a drive in the backup descriptor: a [disk] element
    that names the drive, carries [backupmode] exactly when the drive
    has a backup mode, carries [incremental] (the checkpoint to diff
    from) exactly when that mode is incremental, and has one [scratch]
    child that refers to the scratch disk by [dev] when its type is
    block and by [file] otherwise. *)
Definition describes_drive (from_checkpoint_id : option string)
                           (d : BackupDrive) (entry : Element) : Prop :=
  el_tag entry = "disk"
  /\ attr "name" entry = Some (Some (drive_name d))
  /\ attr "backupmode" entry = option_map Some (drive_backup_mode d)
  /\ attr "incremental" entry
     = (if is_incremental (drive_backup_mode d)
        then Some from_checkpoint_id else None)
  /\ exists sd scratch,
       drive_scratch_disk d = Some sd
       /\ attr "type" entry = Some (Some (scratch_type sd))
       /\ children_tagged "scratch" entry = [scratch]
       /\ if String.eqb (scratch_type sd) DISK_TYPE_BLOCK
          then attr "dev" scratch = Some (Some (scratch_path sd))
               /\ attr "file" scratch = None
          else attr "file" scratch = Some (Some (scratch_path sd))
               /\ attr "dev" scratch = None.

(** The entry of a disk in the checkpoint descriptor: bitmap tracking
    of the drive under the name of the checkpoint. *)
Definition bitmap_entry (to_id drive_name : string) : Element :=
  Elem "disk"
       [("name", Some drive_name); ("checkpoint", Some "bitmap");
        ("bitmap", Some to_id)]
       None [].

Definition tracks_disk (to_id : string) (drives : list (string * BackupDrive))
                       (disk : DiskConfig) (entry : Element) : Prop :=
  exists drive,
    dict_get (img_id disk) drives = Some drive
    /\ entry = bitmap_entry to_id (drive_name drive).

Definition text_element (tag text : string) : Element :=
  Elem tag [] (Some text) [].

(** The steps of [start_backup] for a validated request with disks. *)
Definition start_backup_steps {W} (h : Host W) (p : Platform)
                              (cfg : BackupConfig) : M W BackupResult :=
  bind (_validate_parent_id h cfg)
    (fun _ =>
       bind (_get_disks_drives h cfg)
         (fun drives =>
            bind (_create_scratch_disks h (backup_id cfg) drives)
              (fun drives =>
                 bind
                   (try_finally
                      (try_except
                         (start_backup_session h p cfg
                            (UnixAddress (socket_path p (backup_id cfg)))
                            drives)
                         (fun e =>
                            bind (_remove_scratch_disks h (backup_id cfg))
                                 (fun _ => raise e)))
                      (bind (thaw h) (fun _ => ret tt)))
                   (fun _ =>
                      match to_checkpoint_id cfg with
                      | Some to_id =>
                          _add_checkpoint_xml h (backup_id cfg) to_id
                            {| result_disks :=
                                 map (fun kv =>
                                        (fst kv,
                                         nbd_url p
                                           (socket_path p (backup_id cfg))
                                           (drive_name (snd kv)))) drives;
                               result_checkpoint := None |}
                      | None =>
                          ret {| result_disks :=
                                   map (fun kv =>
                                          (fst kv,
                                           nbd_url p
                                             (socket_path p (backup_id cfg))
                                             (drive_name (snd kv)))) drives;
                                 result_checkpoint := None |}
                      end)))).

(** The steps of [start_backup] that come before the [try] block, for a
    validated request: the parent check, the lookup of the drives and
    the creation of the scratch disks. *)
Definition start_backup_setup {W} (h : Host W) (cfg : BackupConfig)
  : M W (list (string * BackupDrive)) :=
  bind (_validate_parent_id h cfg)
    (fun _ =>
       bind (_get_disks_drives h cfg)
         (fun drives => _create_scratch_disks h (backup_id cfg) drives)).

(** The error of [start_backup] for a request without disks. *)
Definition without_disks : exn :=
  BackupError "Cannot start a backup without disks".

Definition is_libvirtError (e : exn) : bool :=
  match e with libvirtError _ _ => true | _ => false end.

(** The lookup or the deletion of the checkpoint raises [e], in every
    world of the invariant. *)
Definition fails_with {W} (h : Host W) (I : W -> Prop) (id : string)
                      (e : exn) : Prop :=
  forall w, I w ->
    (exists w1, dom_checkpointLookupByName h id w = (Raise e, w1))
    \/ (exists cp w1 w2,
           dom_checkpointLookupByName h id w = (Ok cp, w1)
           /\ checkpoint_delete h cp w1 = (Raise e, w2)).

(** The libvirt error that reports a checkpoint as absent. *)
Definition is_absent (e : exn) : bool :=
  match e with
  | libvirtError VIR_ERR_NO_DOMAIN_CHECKPOINT _ => true
  | _ => false
  end.

(** C5 as the specification states it: when the processing of an id
    fails for another reason than the checkpoint being absent,
    [delete_checkpoints] does not raise; it returns the ids processed
    before together with an error. *)
Definition partial_progress_on_every_failure : Prop :=
  forall (W : Type) (h : Host W) (I : W -> Prop) (ids : list string)
         (b : string) (post : list string) (e : exn) (w : W),
    I w ->
    (forall id, In id ids -> deleted_or_absent h I id) ->
    is_absent e = false ->
    fails_with h I b e ->
    exists err w' evs,
      delete_checkpoints h (ids ++ b :: post) w
      = (Ok {| checkpoint_ids := ids; error := Some err |}, w', evs).

(** The chain [a; b; c] of a VM that goes down after the deletion of
    [a]: the lookup of [b] raises the error of a domain that is not
    connected. *)
Definition vm_goes_down : Sim.Scenario := {|
  Sim.sc_vm_id := "vm-1";
  Sim.sc_connected := false;
  Sim.sc_drives := [];
  Sim.sc_block_info := fun _ => Ok (0, 0, 0)%Z;
  Sim.sc_freeze := Ok (RespOk tt);
  Sim.sc_thaw := Ok (RespOk tt);
  Sim.sc_list_fails := false;
  Sim.sc_create_fails := Sim.never;
  Sim.sc_remove_fails := Sim.never;
  Sim.sc_begin := Ok tt;
  Sim.sc_abort := Ok tt;
  Sim.sc_list_checkpoints_fault := None;
  Sim.sc_lookup_fault := fun name =>
    if String.eqb name "b" then Some (NotConnectedError "VM is down")
    else None;
  Sim.sc_delete_fault := fun _ => None
|}.

(** ** Statements about the further operations *)

(** An exception as it leaves an [except libvirt.libvirtError] clause
    that raises a checkpoint error in its place; any other exception
    passes through. *)
Definition as_CheckpointError (what : string) (e : exn) : exn :=
  match e with
  | libvirtError _ msg => CheckpointError (what ++ msg)
  | _ => e
  end.

(** The exception [dump_checkpoint] raises for an exception of its
    calls. *)
Definition dump_error (e : exn) : exn :=
  match e with
  | libvirtError VIR_ERR_NO_DOMAIN_CHECKPOINT msg =>
      NoSuchCheckpointError ("Failed to fetch checkpoint: " ++ msg)
  | _ => e
  end.

(** The calls that fetch the description of a checkpoint, and what
    they end with: the lookup, and on a checkpoint that was found the
    request of its description. *)
Definition description_fetched (checkpoint_id : string) (evs : list Event)
                               (g : result string) : Prop :=
  (exists e,
      evs = [EvCheckpointLookupByName checkpoint_id (Raise e)]
      /\ g = Raise e)
  \/ (exists checkpoint,
         evs = [EvCheckpointLookupByName checkpoint_id (Ok checkpoint);
                EvCheckpointGetXMLDesc checkpoint g]).

(** The record [_add_checkpoint_xml] logs for a libvirt error. *)
Definition description_failure_logged (backup_id checkpoint_id : string)
    (code : virErrorNumber) (msg : string) : Event :=
  EvLog EXCEPTION
    (if virErrorNumber_eqb code VIR_ERR_NO_DOMAIN_CHECKPOINT
     then "Checkpoint_id: %r for backup_id: %r, doesn't exist, error: %s"
     else "Failed to fetch checkpoint_id: %r for backup_id: %r, error: %s")
    [checkpoint_id; backup_id; msg].

(** The result with the description of the checkpoint added. *)
Definition with_checkpoint (result : BackupResult) (xml : string)
  : BackupResult :=
  {| result_disks := result_disks result; result_checkpoint := Some xml |}.

(** How a run ends. *)
Definition outcome_of {W A} (m : M W A) (w : W) : result A :=
  fst (fst (m w)).

(** How the fetch of the description of the checkpoint that was asked
    for ends an operation that has its result: without checkpoint id
    nothing is called; otherwise the description is fetched and added,
    a libvirt error of the fetch is logged and leaves the result as it
    is, and any other exception of the fetch is raised. *)
Definition checkpoint_described (backup_id : string)
    (checkpoint_id : option string) (urls : BackupResult)
    (evs : list Event) (r : result BackupResult) : Prop :=
  match checkpoint_id with
  | None => evs = [] /\ r = Ok urls
  | Some id =>
      exists g td,
        description_fetched id td g
        /\ match g with
           | Ok xml => evs = td /\ r = Ok (with_checkpoint urls xml)
           | Raise (libvirtError code msg) =>
               evs = td ++ [description_failure_logged backup_id id code msg]
               /\ r = Ok urls
           | Raise e => evs = td /\ r = Raise e
           end
  end.

(** The [checkpointCreateXML] calls of a run: the XML and the flags
    that were submitted, and the answer. *)
Fixpoint redefined (evs : list Call)
  : list (option string * list virCheckpointCreateFlag * result unit) :=
  match evs with
  | [] => []
  | EvCheckpointCreateXML xml flags r :: rest =>
      (xml, flags, r) :: redefined rest
  | _ :: rest => redefined rest
  end.

(** The id of an entry after validation. *)
Definition id_of (p : Platform) (c : checkpoint_dict) : option string :=
  match prop_UUID_required p "id" (k_id c) with
  | Ok cid => Some cid
  | Raise _ => None
  end.

(** What [redefine_checkpoints] submits for an entry: the XML of the
    entry when it has no backup config, and otherwise, whether the
    entry has an XML or not, the checkpoint descriptor built from the
    config; always with the redefine flags. *)
Definition submitted_for (p : Platform) (px : PlatformExt)
    (c : checkpoint_dict)
    (submission : option string * list virCheckpointCreateFlag * result unit)
  : Prop :=
  snd (fst submission) = redefine_flags px
  /\ match k_config c with
     | None => fst (fst submission) = k_xml c
     | Some b =>
         exists cfg drives,
           BackupConfig_init p b = Ok cfg
           /\ create_checkpoint_xml p cfg drives = Ok (fst (fst submission))
     end.

(** The answer of the call that made [redefine_checkpoints] stop, as
    read from the error it reports. *)
Definition failure_of (error : option (virErrorNumber * string))
  : list (result unit) :=
  match error with
  | None => []
  | Some (code, msg) => [Raise (libvirtError code msg)]
  end.

(** The calls of a run that records the two further calls, and how it
    ends. *)
Definition calls_of {W A} (m : MX W A) (w : W) : list Call := snd (m w).

Definition ends_with {W A} (m : MX W A) (w : W) : result A :=
  fst (fst (m w)).

(** A device that was found: the name that was looked up and the image
    id of the device. *)
Definition device_found (kv : string * string) : Call :=
  EvFindDeviceByNameOrPath (fst kv) (Ok (snd kv)).

(** The URLs of the devices found, keyed by image id: a later device
    with the image id of an earlier one takes its place. *)
Definition urls_of (p : Platform) (path : string)
                   (found : list (string * string))
                   (disks_urls : list (string * string))
  : list (string * string) :=
  fold_left (fun urls kv => dict_set (snd kv) (nbd_url p path (fst kv)) urls)
            found disks_urls.

(** The socket of the server of a backup descriptor. *)
Definition socket_of (domainbackup : Element) : option string :=
  match find_child "server" domainbackup with
  | Some server => get "socket" server
  | None => None
  end.

(** The exception [_get_backup_xml] raises for an exception of
    [backupGetXMLDesc]. *)
Definition backup_xml_error (e : exn) : exn :=
  match e with
  | libvirtError VIR_ERR_NO_DOMAIN_BACKUP msg =>
      NoSuchBackupError ("VM backup not exists: " ++ msg)
  | libvirtError _ msg =>
      BackupError ("Failed to fetch VM ''backup info: " ++ msg)
  | _ => e
  end.

(** How the loop of [_parse_backup_info] ends on the names of the disks
    that are backed up, after it has found some devices: with the URLs
    of all of them; or at a disk without name, with the parse error; or
    with the exception of the lookup of the next device. *)
Definition disks_parsed (p : Platform) (backup_xml path : string)
    (names : list (option string)) (found : list (string * string))
    (calls : list Call) (r : result (list (string * string))) : Prop :=
  map (fun kv => Some (fst kv)) found = firstn (List.length found) names
  /\ match r with
     | Ok urls =>
         calls = map device_found found
         /\ List.length found = List.length names
         /\ urls = urls_of p path found []
     | Raise e =>
         (calls = map device_found found
          /\ nth_error names (List.length found) = Some None
          /\ e = parse_error backup_xml)
         \/ (exists name,
                calls = map device_found found
                        ++ [EvFindDeviceByNameOrPath name (Raise e)]
                /\ nth_error names (List.length found) = Some (Some name))
     end.

(** The lookup of the drive of a disk, and the drive recorded for what
    the lookup answered: its name and its path. *)
Definition drive_lookup (disk : DiskConfig) (r : result (string * string))
  : Event :=
  EvFindDriveByUUIDs (dom_id disk) (img_id disk) (vol_id disk) r.

Definition drive_of (disk : DiskConfig) (found : string * string)
  : BackupDrive :=
  {| drive_name := fst found;
     drive_path := snd found;
     drive_backup_mode := backup_mode disk;
     drive_scratch_disk := scratch_disk disk |}.

(** The dictionary of the drives found for the disks, keyed by image
    id. *)
Definition drives_of (found : list (DiskConfig * (string * string)))
                     (drives : list (string * BackupDrive))
  : list (string * BackupDrive) :=
  fold_left (fun acc df => dict_set (img_id (fst df))
                                    (drive_of (fst df) (snd df)) acc)
            found drives.

(** The exception [_get_disks_drives] raises for an exception of a
    lookup. *)
Definition drive_error (e : exn) : exn :=
  if is_LookupError e
  then BackupError "Failed to find one of the backup disks"
  else e.

(** The rounds of [redefine_checkpoints] that reached the call: for
    each [checkpointCreateXML] call of a run, the lookups of drives made
    since the call before it, with the XML and the flags that were
    submitted and the answer. *)
Fixpoint submissions (evs : list Call) (lookups : list Event)
  : list (list Event
          * (option string * list virCheckpointCreateFlag * result unit)) :=
  match evs with
  | [] => []
  | EvCheckpointCreateXML xml flags r :: rest =>
      (lookups, (xml, flags, r)) :: submissions rest []
  | Boundary e :: rest =>
      submissions rest (if drive_call e then lookups ++ [e] else lookups)
  | _ :: rest => submissions rest lookups
  end.

(** The round of [redefine_checkpoints] for an entry: for an entry
    without backup config no drive is looked up and the XML of the
    entry is submitted; for an entry with a backup config, whether it
    has an XML or not, the drive of each disk of the config is looked
    up, in order, and the checkpoint descriptor built from the config
    for the drives that the lookups answered is submitted; always with
    the redefine flags. *)
Definition round_for (p : Platform) (px : PlatformExt) (c : checkpoint_dict)
    (round : list Event
             * (option string * list virCheckpointCreateFlag * result unit))
  : Prop :=
  snd (fst (snd round)) = redefine_flags px
  /\ match k_config c with
     | None => fst round = [] /\ fst (fst (snd round)) = k_xml c
     | Some b =>
         exists cfg found,
           BackupConfig_init p b = Ok cfg
           /\ map fst found = disks cfg
           /\ fst round
              = map (fun df => drive_lookup (fst df) (Ok (snd df))) found
           /\ create_checkpoint_xml p cfg (drives_of found [])
              = Ok (fst (fst (snd round)))
     end.

(** An entry with a backup config, for the checkpoint [cp2] of the drive
    of [img-1]; its XML is not the descriptor of that checkpoint. *)
Definition configured_entry : checkpoint_dict := {|
  k_id := Some "cp2";
  k_xml := Some "<domaincheckpoint><name>other</name></domaincheckpoint>";
  k_config := Some (Sim.checkpoint_request 1)
|}.

Definition is_begin (e : Event) : bool :=
  match e with EvBackupBegin _ _ _ _ => true | _ => false end.

(** The calls of the guarded part of [start_backup]. *)
Definition session_call (e : Event) : bool :=
  is_freeze e || is_begin e || is_thaw e.

(** The exception [_begin_backup] raises for an exception of
    [backupBegin]. *)
Definition begin_error (p : Platform) (e : exn) : exn :=
  match e with
  | libvirtError code msg =>
      if cold_backup_enabled p
         && virErrorNumber_eqb code VIR_ERR_CHECKPOINT_INCONSISTENT
      then InconsistentCheckpointError ("Checkpoint can't be used: " ++ msg)
      else BackupError ("Error starting backup: " ++ msg)
  | _ => e
  end.

(** The error of [start_backup] for a freeze that answered an error
    when consistency is required. *)
Definition freeze_failed (res : response unit) : exn :=
  BackupError ("Failed freeze VM: " ++ status_message res).

(** The record [start_backup] logs before it begins the backup. *)
Definition starting_backup (cfg : BackupConfig) (backup_xml : string)
                           (checkpoint_xml : option string) : Event :=
  EvLog INFO
    "Starting backup for backup_id: %r, backup xml: %s\ncheckpoint xml: %s"
    [backup_id cfg; backup_xml;
     match checkpoint_xml with Some x => x | None => "None" end].

(** What [start_backup] submits to [backupBegin] after freeze answered
    [f], or the exception that ends the [try] block before: the
    exception of freeze, the error for a freeze that failed when
    consistency is required, or the exception of a descriptor
    builder. *)
Definition submission (p : Platform) (cfg : BackupConfig) (addr : Address)
    (drives : list (string * BackupDrive)) (f : result (response unit))
  : result (string * option string) :=
  res <-- f ;;
  _ <-- (if is_error res && truthy_bool (require_consistency cfg)
         then Raise (freeze_failed res)
         else Ok tt) ;;
  backup_xml <-- create_backup_xml p addr drives (from_checkpoint_id cfg) ;;
  checkpoint_xml <-- create_checkpoint_xml p cfg drives ;;
  Ok (backup_xml, checkpoint_xml).

(** The guarded part of [start_backup]: the [try] block, the removal of
    the scratch disks when it raises, and thaw in every case. *)
Definition guarded_session {W} (h : Host W) (p : Platform)
    (cfg : BackupConfig) (drives : list (string * BackupDrive)) : M W unit :=
  try_finally
    (try_except
       (start_backup_session h p cfg
          (UnixAddress (socket_path p (backup_id cfg))) drives)
       (fun e =>
          bind (_remove_scratch_disks h (backup_id cfg)) (fun _ => raise e)))
    (bind (thaw h) (fun _ => ret tt)).

(** The names a listing of the transient disks answered. *)
Definition listed (res : response (list string)) : list string :=
  match res with
  | RespOk names => names
  | RespError _ _ => []
  end.

(** The exception that leaves the guarded part when the [try] block
    raised [e]: the exception of thaw when thaw raised, else the
    failure of the listing of the scratch disks when it failed, else
    [e]. *)
Definition rollback_error (e : exn) (res : response (list string))
                          (th : result (response unit)) : exn :=
  match th with
  | Raise e' => e'
  | Ok _ =>
      match res with
      | RespError _ message => fetch_failed message
      | RespOk _ => e
      end
  end.

(** The URLs [start_backup] returns for its drives. *)
Definition disks_urls (p : Platform) (cfg : BackupConfig)
                      (drives : list (string * BackupDrive))
  : list (string * string) :=
  map (fun kv =>
         (fst kv,
          nbd_url p (socket_path p (backup_id cfg)) (drive_name (snd kv))))
      drives.

(** A drive after [_create_scratch_disks]: the same drive under the
    same key, with a scratch disk; a drive that came with one is
    unchanged. *)
Definition given_scratch_disk (kv kv' : string * BackupDrive) : Prop :=
  fst kv' = fst kv
  /\ drive_name (snd kv') = drive_name (snd kv)
  /\ drive_path (snd kv') = drive_path (snd kv)
  /\ drive_backup_mode (snd kv') = drive_backup_mode (snd kv)
  /\ drive_scratch_disk (snd kv') <> None
  /\ (drive_scratch_disk (snd kv) <> None -> snd kv' = snd kv).

(** The result of [start_backup] before the description of the
    checkpoint is added. *)
Definition urls_result (p : Platform) (cfg : BackupConfig)
                       (drives : list (string * BackupDrive))
  : BackupResult :=
  {| result_disks := disks_urls p cfg drives; result_checkpoint := None |}.

(** The calls that roll back the scratch disks and thaw: the listing
    that answered [res], the removals, and the thaw that answered
    [th]. *)
Definition rolled_back {W} (h : Host W) (backup_id : string)
    (res : response (list string)) (th : result (response unit))
    (evs : list Event) : Prop :=
  exists removals,
    evs = removing_scratch_disks backup_id
          :: EvListTransientDisks (vm_id h) res :: removals ++ [EvThaw th]
    /\ Forall (fun ev => removal_call ev = true) removals
    /\ removed removals = listed res.

(** Every attribute of the element and of its descendants has a value:
    none holds [None]. *)
Fixpoint attributes_set (e : Element) : bool :=
  match e with
  | Elem _ attrs _ children =>
      forallb (fun kv => negb (is_None (snd kv))) attrs
      && forallb attributes_set children
  end.

(** The helper adds no attribute without value. *)
Definition keeps_attributes_set (f : bool -> Element -> Element) : Prop :=
  forall write_type e,
    attributes_set e = true -> attributes_set (f write_type e) = true.

(** *** Further scenarios of the reference host *)

(** A full backup of the two drives, the same with consistency
    required, and hosts whose [backupBegin] fails and whose freeze
    answers an error. *)
Definition full_backup : backup_dict :=
  Sim.request None None None [Sim.disk "img-1" None; Sim.disk "img-2" None].

Definition consistent_backup : backup_dict := {|
  k_backup_id := Some "b1";
  k_from_checkpoint_id := None;
  k_to_checkpoint_id := None;
  k_parent_checkpoint_id := None;
  k_require_consistency := Some true;
  k_creation_time := None;
  k_disks := [Sim.disk "img-1" None]
|}.

Definition begin_refused : Sim.Scenario :=
  Sim.scenario (Raise (libvirtError VIR_ERR_CHECKPOINT_INCONSISTENT "stale"))
               (Ok tt) Sim.never Sim.never false (fun _ => None).

Definition agent_silent : result (response unit) :=
  Ok (RespError 76 "Guest agent is not responding").

Definition guest_not_frozen : Sim.Scenario := {|
  Sim.sc_vm_id := "vm-1";
  Sim.sc_connected := true;
  Sim.sc_drives := [("img-1", ("sda", "/dev/vg/sda"));
                    ("img-2", ("vda", "/dev/vg/vda"))];
  Sim.sc_block_info := fun _ => Ok (10737418240, 4096, 4096)%Z;
  Sim.sc_freeze := agent_silent;
  Sim.sc_thaw := Ok (RespOk tt);
  Sim.sc_list_fails := false;
  Sim.sc_create_fails := Sim.never;
  Sim.sc_remove_fails := Sim.never;
  Sim.sc_begin := Ok tt;
  Sim.sc_abort := Ok tt;
  Sim.sc_list_checkpoints_fault := None;
  Sim.sc_lookup_fault := fun _ => None;
  Sim.sc_delete_fault := fun _ => None
|}.

(** The [backupBegin] calls of a trace. *)
Fixpoint begun (evs : list Event)
  : list (string * option string * list virFlag * result unit) :=
  match evs with
  | [] => []
  | EvBackupBegin backup_xml checkpoint_xml flags r :: rest =>
      (backup_xml, checkpoint_xml, flags, r) :: begun rest
  | _ :: rest => begun rest
  end.

(** A request for the checkpoint [cp2] on top of the chain [cp0; cp1];
    the reference hypervisor does not define the checkpoint when the
    backup begins. *)
Definition backup_with_checkpoint : backup_dict :=
  Sim.request None (Some "cp2") (Some "cp1") [Sim.disk "img-1" None].

(** The backup descriptor built for the two-disk example. *)
Definition built_backup : Element :=
  match backup_xml_tree Sim.platform (UnixAddress "/run/vdsm/backup/b1")
                        Sim.mixed_drives (Some "cp1") with
  | Ok tree => tree
  | Raise _ => Element_new "domainbackup" []
  end.

(** The drives found for the disks of the full backup, and the drives
    with their scratch disks. *)
Definition found_drives : list (DiskConfig * (string * string)) :=
  combine (disks (Sim.config_of full_backup))
          [("sda", "/dev/vg/sda"); ("vda", "/dev/vg/vda")].

Definition drives_with_scratch_disks : list (string * BackupDrive) :=
  map (fun kv =>
         (fst kv,
          with_scratch_file (snd kv)
            ("/run/vdsm/transient_disks/vm-1/b1." ++ drive_name (snd kv))%string))
      (drives_of found_drives []).

(** * Proofs *)

(** ** Runs of the monad *)

Section MonadFacts.
Context {W : Type}.

Lemma bind_run {A B} (m : M W A) (f : A -> M W B) w r w' evs :
  bind m f w = (r, w', evs) ->
  (exists a w1 t1 t2,
      m w = (Ok a, w1, t1) /\ f a w1 = (r, w', t2) /\ evs = t1 ++ t2)
  \/ (exists e, m w = (Raise e, w', evs) /\ r = Raise e).
Proof.
  unfold bind. destruct (m w) as [[[a | e] w1] t1].
  - destruct (f a w1) as [[r2 w2] t2] eqn:Ef. intros H.
    injection H as <- <- <-. left. exists a, w1, t1, t2. auto.
  - intros H. injection H as <- <- <-. right. exists e. auto.
Qed.

Lemma bind_ok {A B} (m : M W A) (f : A -> M W B) w a w1 t1 :
  m w = (Ok a, w1, t1) ->
  bind m f w =
  (let '(r, w2, t2) := f a w1 in (r, w2, t1 ++ t2)).
Proof. unfold bind. intros ->. reflexivity. Qed.

Lemma bind_raise {A B} (m : M W A) (f : A -> M W B) w e w1 t1 :
  m w = (Raise e, w1, t1) -> bind m f w = (Raise e, w1, t1).
Proof. unfold bind. intros ->. reflexivity. Qed.

Lemma try_except_run {A} (m : M W A) (handler : exn -> M W A) w r w' evs :
  try_except m handler w = (r, w', evs) ->
  (exists a, m w = (Ok a, w', evs) /\ r = Ok a)
  \/ (exists e w1 t1 t2,
         m w = (Raise e, w1, t1) /\ handler e w1 = (r, w', t2)
         /\ evs = t1 ++ t2).
Proof.
  unfold try_except. destruct (m w) as [[[a | e] w1] t1].
  - intros H. injection H as <- <- <-. left. exists a. auto.
  - destruct (handler e w1) as [[r2 w2] t2] eqn:Eh. intros H.
    injection H as <- <- <-. right. exists e, w1, t1, t2. auto.
Qed.

Lemma try_finally_run {A} (m : M W A) (fin : M W unit) w r w' evs :
  try_finally m fin w = (r, w', evs) ->
  exists r1 w1 t1 r2 t2,
    m w = (r1, w1, t1) /\ fin w1 = (r2, w', t2) /\ evs = t1 ++ t2
    /\ r = match r2 with Ok _ => r1 | Raise e => Raise e end.
Proof.
  unfold try_finally. destruct (m w) as [[r1 w1] t1].
  destruct (fin w1) as [[[u | e] w2] t2] eqn:Ef; intros H;
    injection H as <- <- <-.
  - exists r1, w1, t1, (Ok u), t2. auto.
  - exists r1, w1, t1, (Raise e), t2. auto.
Qed.

(** *** Trace properties compose *)

Lemma traces_ret {A} (a : A) (S : list Event -> Prop) :
  S [] -> traces (@ret W A a) S.
Proof. intros H w r w' evs E. injection E as <- <- <-. exact H. Qed.

Lemma traces_raise {A} e (S : list Event -> Prop) :
  S [] -> traces (@raise W A e) S.
Proof. intros H w r w' evs E. injection E as <- <- <-. exact H. Qed.

Lemma traces_lift {A} (x : result A) (S : list Event -> Prop) :
  S [] -> traces (@lift W A x) S.
Proof. intros H w r w' evs E. injection E as <- <- <-. exact H. Qed.

Lemma traces_log l fmt args (S : list Event -> Prop) :
  S [EvLog l fmt args] -> traces (@log W l fmt args) S.
Proof. intros H w r w' evs E. injection E as <- <- <-. exact H. Qed.

Lemma traces_call {A} (op : W -> result A * W) ev (S : list Event -> Prop) :
  (forall r, S [ev r]) -> traces (call op ev) S.
Proof.
  intros H w r w' evs. unfold call. destruct (op w) as [r1 w1].
  intros E. injection E as <- <- <-. apply H.
Qed.

Lemma traces_call_response {A} (op : W -> response A * W) ev
      (S : list Event -> Prop) :
  (forall r, S [ev r]) -> traces (call_response op ev) S.
Proof.
  intros H w r w' evs. unfold call_response. destruct (op w) as [r1 w1].
  intros E. injection E as <- <- <-. apply H.
Qed.

Lemma traces_bind {A B} (m : M W A) (f : A -> M W B)
      (S1 S2 S : list Event -> Prop) :
  traces m S1 -> (forall a, traces (f a) S2) ->
  (forall t1, S1 t1 -> S t1) ->
  (forall t1 t2, S1 t1 -> S2 t2 -> S (t1 ++ t2)) ->
  traces (bind m f) S.
Proof.
  intros Hm Hf Hstop Happ w r w' evs E.
  apply bind_run in E as [(a & w1 & t1 & t2 & Em & Ef & ->) | (e & Em & _)].
  - apply Happ; [eapply Hm | eapply Hf]; eassumption.
  - apply Hstop. eapply Hm; eassumption.
Qed.

Lemma traces_try_except {A} (m : M W A) handler
      (S1 S2 S : list Event -> Prop) :
  traces m S1 -> (forall e, traces (handler e) S2) ->
  (forall t1, S1 t1 -> S t1) ->
  (forall t1 t2, S1 t1 -> S2 t2 -> S (t1 ++ t2)) ->
  traces (try_except m handler) S.
Proof.
  intros Hm Hh Hstop Happ w r w' evs E.
  apply try_except_run in E
    as [(a & Em & _) | (e & w1 & t1 & t2 & Em & Eh & ->)].
  - apply Hstop. eapply Hm; eassumption.
  - apply Happ; [eapply Hm | eapply Hh]; eassumption.
Qed.

Lemma traces_try_finally {A} (m : M W A) fin
      (S1 S2 S : list Event -> Prop) :
  traces m S1 -> traces fin S2 ->
  (forall t1 t2, S1 t1 -> S2 t2 -> S (t1 ++ t2)) ->
  traces (try_finally m fin) S.
Proof.
  intros Hm Hf Happ w r w' evs E.
  apply try_finally_run in E
    as (r1 & w1 & t1 & r2 & t2 & Em & Ef & -> & _).
  apply Happ; [eapply Hm | eapply Hf]; eassumption.
Qed.

Lemma traces_weaken {A} (m : M W A) (S1 S : list Event -> Prop) :
  traces m S1 -> (forall t, S1 t -> S t) -> traces m S.
Proof. intros Hm HS w r w' evs E. apply HS. eapply Hm; eassumption. Qed.

(** *** Calls a run never makes *)

Variable kind : Event -> bool.

Lemma avoids_ret {A} (a : A) : avoids kind (@ret W A a).
Proof. apply traces_ret. constructor. Qed.

Lemma avoids_raise {A} e : avoids kind (@raise W A e).
Proof. apply traces_raise. constructor. Qed.

Lemma avoids_lift {A} (x : result A) : avoids kind (@lift W A x).
Proof. apply traces_lift. constructor. Qed.

Lemma avoids_log l fmt args :
  kind (EvLog l fmt args) = false -> avoids kind (@log W l fmt args).
Proof. intros H. apply traces_log. repeat constructor. exact H. Qed.

Lemma avoids_call {A} (op : W -> result A * W) ev :
  (forall r, kind (ev r) = false) -> avoids kind (call op ev).
Proof. intros H. apply traces_call. intros r. repeat constructor. apply H. Qed.

Lemma avoids_call_response {A} (op : W -> response A * W) ev :
  (forall r, kind (ev r) = false) -> avoids kind (call_response op ev).
Proof.
  intros H. apply traces_call_response. intros r. repeat constructor. apply H.
Qed.

Lemma avoids_bind {A B} (m : M W A) (f : A -> M W B) :
  avoids kind m -> (forall a, avoids kind (f a)) -> avoids kind (bind m f).
Proof.
  intros Hm Hf. eapply traces_bind; eauto.
  intros t1 t2 H1 H2. apply Forall_app. auto.
Qed.

Lemma avoids_try_except {A} (m : M W A) handler :
  avoids kind m -> (forall e, avoids kind (handler e)) ->
  avoids kind (try_except m handler).
Proof.
  intros Hm Hh. eapply traces_try_except; eauto.
  intros t1 t2 H1 H2. apply Forall_app. auto.
Qed.

Lemma avoids_try_finally {A} (m : M W A) fin :
  avoids kind m -> avoids kind fin -> avoids kind (try_finally m fin).
Proof.
  intros Hm Hf. eapply traces_try_finally; eauto.
  intros t1 t2 H1 H2. apply Forall_app. auto.
Qed.

Lemma count_avoided evs :
  Forall (fun e => kind e = false) evs -> count kind evs = 0%nat.
Proof.
  unfold count. induction 1 as [| e l He _ IH]; simpl.
  - reflexivity.
  - rewrite He. exact IH.
Qed.

Lemma count_app evs1 evs2 :
  count kind (evs1 ++ evs2) = (count kind evs1 + count kind evs2)%nat.
Proof. unfold count. rewrite filter_app, length_app. reflexivity. Qed.

End MonadFacts.

(** Decides [avoids] goals of straight-line operations: splits binds and
    handlers, and checks each call against the kind by evaluation. *)
Ltac avoids_step :=
  first
    [ apply avoids_ret
    | apply avoids_raise
    | apply avoids_lift
    | apply avoids_log; reflexivity
    | apply avoids_call; intros; reflexivity
    | apply avoids_call_response; intros; reflexivity
    | apply avoids_bind; [| intros]
    | apply avoids_try_except; [| intros]
    | apply avoids_try_finally
    | assumption
    | match goal with
      | |- avoids _ (match ?x with _ => _ end) => destruct x
      | |- avoids _ (let '(_, _) := ?x in _) => destruct x
      end ].

Ltac avoids_tac := repeat avoids_step.

(** ** Request validation *)

Section Validation.
Variable p : Platform.

Lemma option_string_eqb_eq a b : option_string_eqb a b = true <-> a = b.
Proof.
  destruct a as [x |], b as [y |]; simpl; split; intros H;
    try discriminate; try reflexivity.
  - apply String.eqb_eq in H. now subst.
  - injection H as ->. apply String.eqb_refl.
Qed.

Lemma prop_UUID_required_raises name v e :
  prop_UUID_required p name v = Raise e -> validation_error e.
Proof.
  unfold prop_UUID_required. destruct v as [s |].
  - destruct (UUID_validate p s); intros H; inversion H. eexists; eauto.
  - intros H; inversion H. eexists; eauto.
Qed.

Lemma prop_UUID_raises name v e :
  prop_UUID p name v = Raise e -> validation_error e.
Proof.
  unfold prop_UUID. destruct v as [s |]; [| discriminate].
  destruct (UUID_validate p s); intros H; inversion H. eexists; eauto.
Qed.

Lemma prop_UUID_None name v :
  prop_UUID p name v = Ok None -> v = None.
Proof.
  unfold prop_UUID. destruct v as [s |]; [| reflexivity].
  destruct (UUID_validate p s); discriminate.
Qed.

Lemma prop_UUID_Some name v s :
  prop_UUID p name v = Ok (Some s) -> v <> None.
Proof. destruct v; [discriminate | simpl; discriminate]. Qed.

Lemma prop_UUID_ok name v :
  uuid_ok p false v = true -> exists v', prop_UUID p name v = Ok v'.
Proof.
  unfold uuid_ok, prop_UUID. destruct v as [s |]; [| eauto].
  destruct (UUID_validate p s); [eauto | discriminate].
Qed.

Lemma prop_UUID_required_ok name v :
  uuid_ok p true v = true -> exists s, prop_UUID_required p name v = Ok s.
Proof.
  unfold uuid_ok, prop_UUID_required. destruct v as [s |]; [| discriminate].
  destruct (UUID_validate p s); [eauto | discriminate].
Qed.

Lemma prop_Enum_raises allowed name v e :
  prop_Enum allowed name v = Raise e -> validation_error e.
Proof.
  unfold prop_Enum. destruct v as [s |]; [| discriminate].
  destruct (existsb _ _); intros H; inversion H. eexists; eauto.
Qed.

Lemma prop_Enum_value allowed name v v' :
  prop_Enum allowed name v = Ok v' -> v' = v.
Proof.
  unfold prop_Enum. destruct v as [s |]; [| now intros [= <-]].
  destruct (existsb _ _); [now intros [= <-] | discriminate].
Qed.

Lemma prop_Enum_ok allowed name v :
  enum_ok allowed v = true -> prop_Enum allowed name v = Ok v.
Proof.
  unfold enum_ok, prop_Enum. destruct v as [s |]; [| reflexivity].
  now intros ->.
Qed.

Lemma prop_required_raises {A} name (v : option A) e :
  prop_required name v = Raise e -> validation_error e.
Proof. destruct v; intros H; inversion H. eexists; eauto. Qed.

Lemma ScratchDiskConfig_init_raises path type e :
  ScratchDiskConfig_init path type = Raise e -> validation_error e.
Proof.
  unfold ScratchDiskConfig_init, rbind.
  destruct (prop_required "path" path) eqn:E1;
    [| intros [= <-]; eapply prop_required_raises; eassumption].
  destruct (prop_required "type" type) eqn:E2;
    [| intros [= <-]; eapply prop_required_raises; eassumption].
  destruct (prop_Enum _ "type" _) eqn:E3;
    [discriminate | intros [= <-]; eapply prop_Enum_raises; eassumption].
Qed.

Lemma DiskConfig_init_raises d e :
  DiskConfig_init p d = Raise e -> validation_error e.
Proof.
  unfold DiskConfig_init, rbind.
  repeat match goal with
  | |- match prop_UUID_required p ?n ?v with _ => _ end = _ -> _ =>
      let E := fresh "E" in
      destruct (prop_UUID_required p n v) eqn:E;
        [| intros [= <-]; eapply prop_UUID_required_raises; eassumption]
  end.
  destruct (prop_required "checkpoint" _) eqn:E2;
    [| intros [= <-]; eapply prop_required_raises; eassumption].
  destruct (prop_Enum _ "backup_mode" _) eqn:E3;
    [| intros [= <-]; eapply prop_Enum_raises; eassumption].
  destruct (k_scratch_disk d) as [sd |]; [| discriminate].
  destruct (ScratchDiskConfig_init _ _) eqn:E4; [discriminate |].
  intros [= <-]. eapply ScratchDiskConfig_init_raises; eassumption.
Qed.

Lemma DiskConfig_init_mode d disk :
  DiskConfig_init p d = Ok disk -> backup_mode disk = k_backup_mode d.
Proof.
  unfold DiskConfig_init, rbind.
  repeat match goal with
  | |- match ?x with _ => _ end = _ -> _ =>
      let E := fresh "E" in destruct x eqn:E; try discriminate
  end;
  intros [= <-]; simpl; eapply prop_Enum_value; eassumption.
Qed.

Lemma DiskConfig_list_raises ds e :
  DiskConfig_list p ds = Raise e -> validation_error e.
Proof.
  induction ds as [| d rest IH]; simpl; [discriminate |].
  unfold rbind. destruct (DiskConfig_init p d) eqn:E1;
    [| intros [= <-]; eapply DiskConfig_init_raises; eassumption].
  destruct (DiskConfig_list p rest) eqn:E2; [discriminate |].
  intros [= <-]. now apply IH.
Qed.

Lemma DiskConfig_list_modes ds l :
  DiskConfig_list p ds = Ok l -> map backup_mode l = map k_backup_mode ds.
Proof.
  revert l. induction ds as [| d rest IH]; simpl; intros l.
  - now intros [= <-].
  - unfold rbind. destruct (DiskConfig_init p d) eqn:E1; [| discriminate].
    destruct (DiskConfig_list p rest) eqn:E2; [| discriminate].
    intros [= <-]. simpl. f_equal.
    + eapply DiskConfig_init_mode; eassumption.
    + now apply IH.
Qed.

Lemma check_disk_modes_raises from l e :
  check_disk_modes from l = Raise e -> validation_error e.
Proof.
  induction l as [| disk rest IH]; simpl; [discriminate |].
  destruct (is_None from && is_incremental (backup_mode disk)); [| exact IH].
  intros [= <-]. eexists; eauto.
Qed.

Lemma check_disk_modes_Ok l :
  check_disk_modes None l = Ok tt ->
  Forall (fun m => is_incremental m = false) (map backup_mode l).
Proof.
  induction l as [| disk rest IH]; simpl; [constructor |].
  destruct (is_incremental (backup_mode disk)) eqn:E; [discriminate |].
  intros H. constructor; auto.
Qed.

Lemma check_disk_modes_pass from l :
  from <> None \/ Forall (fun m => is_incremental m = false)
                         (map backup_mode l) ->
  check_disk_modes from l = Ok tt.
Proof.
  intros H. induction l as [| disk rest IH]; simpl; [reflexivity |].
  destruct H as [H | H].
  - destruct from; [simpl; auto | congruence].
  - inversion H as [| ? ? Hd Hr]; subst. rewrite Hd, andb_false_r. auto.
Qed.

Lemma DiskConfig_init_valid d :
  disk_fields_valid p d = true -> exists disk, DiskConfig_init p d = Ok disk.
Proof.
  unfold disk_fields_valid. rewrite !andb_true_iff.
  intros [[[[[Hv Hi] Hd] Hc] Hm] Hs].
  unfold DiskConfig_init.
  destruct (prop_UUID_required_ok "vol_id" _ Hv) as [v ->].
  destruct (prop_UUID_required_ok "img_id" _ Hi) as [i ->].
  destruct (prop_UUID_required_ok "dom_id" _ Hd) as [o ->].
  destruct (k_checkpoint d) as [c |]; [| discriminate].
  rewrite (prop_Enum_ok _ "backup_mode" _ Hm). simpl.
  destruct (k_scratch_disk d) as [sd |]; simpl; [| eauto].
  unfold scratch_fields_valid in Hs. apply andb_true_iff in Hs as [Hp Ht].
  unfold ScratchDiskConfig_init.
  destruct (k_path sd); [| discriminate].
  destruct (k_type sd) as [t |]; [| discriminate]. simpl.
  simpl in Ht. rewrite Ht. simpl. eauto.
Qed.

Lemma DiskConfig_list_valid ds :
  forallb (disk_fields_valid p) ds = true ->
  exists l, DiskConfig_list p ds = Ok l.
Proof.
  induction ds as [| d rest IH]; simpl; [eauto |].
  intros H. apply andb_true_iff in H as [Hd Hr].
  destruct (DiskConfig_init_valid d Hd) as [disk ->].
  destruct (IH Hr) as [l ->]. simpl. eauto.
Qed.

(** Whatever [BackupConfig.__init__] raises is a validation error. *)
Lemma BackupConfig_init_raises c e :
  BackupConfig_init p c = Raise e -> validation_error e.
Proof.
  unfold BackupConfig_init, rbind.
  destruct (prop_UUID_required p "backup_id" _) eqn:E0;
    [| intros [= <-]; eapply prop_UUID_required_raises; eassumption].
  destruct (prop_UUID p "from_checkpoint_id" _) eqn:E1;
    [| intros [= <-]; eapply prop_UUID_raises; eassumption].
  destruct (prop_UUID p "to_checkpoint_id" _) eqn:E2;
    [| intros [= <-]; eapply prop_UUID_raises; eassumption].
  destruct (prop_UUID p "parent_checkpoint_id" _) eqn:E3;
    [| intros [= <-]; eapply prop_UUID_raises; eassumption].
  destruct (prop_Integer 0 "creation_time" _) eqn:E4.
  2:{ intros [= <-]. unfold prop_Integer in E4.
      destruct (k_creation_time c); [| discriminate].
      destruct (Z.leb 0 z); inversion E4. eexists; eauto. }
  destruct (negb (is_None a0) && is_None a2).
  { intros [= <-]. eexists; eauto. }
  destruct (DiskConfig_list p (k_disks c)) eqn:E5;
    [| intros [= <-]; eapply DiskConfig_list_raises; eassumption].
  destruct (check_disk_modes a0 a4) eqn:E6; [discriminate |].
  intros [= <-]. eapply check_disk_modes_raises; eassumption.
Qed.

(** A request that is accepted violates neither condition. *)
Lemma BackupConfig_init_sound c cfg :
  BackupConfig_init p c = Ok cfg ->
  ~ parent_missing c /\ ~ incremental_without_from c.
Proof.
  unfold BackupConfig_init, rbind.
  destruct (prop_UUID_required p "backup_id" _) eqn:E0; [| discriminate].
  destruct (prop_UUID p "from_checkpoint_id" _) as [from |] eqn:E1;
    [| discriminate].
  destruct (prop_UUID p "to_checkpoint_id" _) eqn:E2; [| discriminate].
  destruct (prop_UUID p "parent_checkpoint_id" _) as [parent |] eqn:E3;
    [| discriminate].
  destruct (prop_Integer 0 "creation_time" _) eqn:E4; [| discriminate].
  destruct (negb (is_None from) && is_None parent) eqn:Ec; [discriminate |].
  destruct (DiskConfig_list p (k_disks c)) as [l |] eqn:E5; [| discriminate].
  destruct (check_disk_modes from l) eqn:E6; [| discriminate].
  intros _. split.
  - intros [Hfrom Hparent]. rewrite Hparent in E3. simpl in E3.
    injection E3 as <-. destruct from as [f |]; [discriminate |].
    apply prop_UUID_None in E1. contradiction.
  - intros [Hfrom (d & Hin & Hmode)]. rewrite Hfrom in E1. simpl in E1.
    injection E1 as <-. destruct a2. apply check_disk_modes_Ok in E6.
    rewrite (DiskConfig_list_modes _ _ E5) in E6.
    rewrite Forall_forall in E6.
    specialize (E6 (k_backup_mode d) (in_map _ _ _ Hin)).
    rewrite Hmode in E6. discriminate.
Qed.

(** A request whose fields are valid and that violates neither
    condition is accepted. *)
Lemma BackupConfig_init_complete c :
  fields_valid p c = true ->
  ~ parent_missing c -> ~ incremental_without_from c ->
  exists cfg, BackupConfig_init p c = Ok cfg.
Proof.
  unfold fields_valid. rewrite !andb_true_iff.
  intros [[[[[Hb Hf] Ht] Hp] Hc] Hd] Hn1 Hn2.
  unfold BackupConfig_init.
  destruct (prop_UUID_required_ok "backup_id" _ Hb) as [bid ->].
  destruct (prop_UUID_ok "from_checkpoint_id" _ Hf) as [from Efrom].
  destruct (prop_UUID_ok "to_checkpoint_id" _ Ht) as [to ->].
  destruct (prop_UUID_ok "parent_checkpoint_id" _ Hp) as [parent Eparent].
  rewrite Efrom, Eparent. simpl.
  assert (Hct : exists t, prop_Integer 0 "creation_time" (k_creation_time c)
                          = Ok t).
  { unfold prop_Integer. destruct (k_creation_time c); [| eauto].
    rewrite Hc. eauto. }
  destruct Hct as [t ->]. simpl.
  destruct (negb (is_None from) && is_None parent) eqn:Ec.
  { exfalso. apply Hn1. apply andb_true_iff in Ec as [E1 E2].
    destruct parent; [discriminate |]. apply prop_UUID_None in Eparent.
    destruct from as [f |]; [| discriminate].
    apply prop_UUID_Some in Efrom. split; assumption. }
  destruct (DiskConfig_list_valid _ Hd) as [l El]. rewrite El. simpl.
  rewrite check_disk_modes_pass; [simpl; eauto |].
  destruct from as [f |]; [left; discriminate | right].
  apply prop_UUID_None in Efrom.
  rewrite (DiskConfig_list_modes _ _ El).
  apply Forall_forall. intros m Hm. apply in_map_iff in Hm as (d & <- & Hin).
  destruct (is_incremental (k_backup_mode d)) eqn:Ei; [| reflexivity].
  exfalso. apply Hn2. split; [assumption |]. exists d. split; [assumption |].
  unfold is_incremental in Ei. destruct (k_backup_mode d) as [m |];
    [| discriminate].
  apply String.eqb_eq in Ei. now subst.
Qed.

Lemma check_disk_modes_incremental l :
  Exists (fun m => is_incremental m = true) (map backup_mode l) ->
  check_disk_modes None l
  = Raise (BackupError
             "Cannot start an incremental backup for disk, full backup is requested").
Proof.
  induction l as [| disk rest IH]; simpl; intros H.
  - inversion H.
  - destruct (is_incremental (backup_mode disk)) eqn:E; [reflexivity |].
    inversion H as [? ? Hd | ? ? Hr]; subst; [congruence | auto].
Qed.

(** With valid fields, each condition raises its own backup error. *)
Lemma BackupConfig_init_rejects c :
  fields_valid p c = true ->
  (parent_missing c ->
   BackupConfig_init p c
   = Raise (BackupError
              "Cannot start an incremental backup without parent_checkpoint_id"))
  /\ (incremental_without_from c ->
      BackupConfig_init p c
      = Raise (BackupError
                 "Cannot start an incremental backup for disk, full backup is requested")).
Proof.
  unfold fields_valid. rewrite !andb_true_iff.
  intros [[[[[Hb Hf] Ht] Hp] Hc] Hd].
  unfold BackupConfig_init.
  destruct (prop_UUID_required_ok "backup_id" _ Hb) as [bid ->].
  destruct (prop_UUID_ok "from_checkpoint_id" _ Hf) as [from Efrom].
  destruct (prop_UUID_ok "to_checkpoint_id" _ Ht) as [to ->].
  destruct (prop_UUID_ok "parent_checkpoint_id" _ Hp) as [parent Eparent].
  rewrite Efrom, Eparent. simpl.
  assert (Hct : exists t, prop_Integer 0 "creation_time" (k_creation_time c)
                          = Ok t).
  { unfold prop_Integer. destruct (k_creation_time c); [| eauto].
    rewrite Hc. eauto. }
  destruct Hct as [t ->]. simpl.
  split.
  - intros [Hfrom Hparent].
    rewrite Hparent in Eparent. injection Eparent as <-.
    destruct from as [f |]; [reflexivity |].
    apply prop_UUID_None in Efrom. contradiction.
  - intros [Hfrom (d & Hin & Hmode)].
    rewrite Hfrom in Efrom. injection Efrom as <-. simpl.
    destruct (DiskConfig_list_valid _ Hd) as [l El]. rewrite El. simpl.
    rewrite check_disk_modes_incremental; [reflexivity |].
    rewrite (DiskConfig_list_modes _ _ El).
    apply Exists_exists. exists (k_backup_mode d).
    split; [now apply in_map |]. rewrite Hmode. reflexivity.
Qed.

End Validation.

(** C9.  Constructing a [BackupConfig] raises a validation error when
    [from_checkpoint_id] is set and [parent_checkpoint_id] is not, and
    when a disk asks for incremental mode and [from_checkpoint_id] is
    not set: the backup error of the condition when the fields of the
    request pass the validators of their properties, and otherwise the
    error of the validator that fails first.  A request that violates
    neither condition, and whose fields pass the validators, constructs
    successfully.  Construction is a function of the request alone, and
    when it raises [start_backup] raises the same error without any
    call and without touching the world. *)
Theorem BackupConfig_validation (p : Platform) (c : backup_dict) :
  (parent_missing c ->
   exists e, BackupConfig_init p c = Raise e /\ validation_error e)
  /\ (incremental_without_from c ->
      exists e, BackupConfig_init p c = Raise e /\ validation_error e)
  /\ (fields_valid p c = true ->
      (parent_missing c ->
       BackupConfig_init p c
       = Raise (BackupError
                  "Cannot start an incremental backup without parent_checkpoint_id"))
      /\ (incremental_without_from c ->
          BackupConfig_init p c
          = Raise (BackupError
                     "Cannot start an incremental backup for disk, full backup is requested"))
      /\ (~ parent_missing c -> ~ incremental_without_from c ->
          exists cfg, BackupConfig_init p c = Ok cfg))
  /\ (forall W (h : Host W) (w : W) e,
        BackupConfig_init p c = Raise e ->
        start_backup h p c w = (Raise e, w, [])).
Proof.
  assert (Hrej : (parent_missing c \/ incremental_without_from c) ->
                 exists e, BackupConfig_init p c = Raise e
                           /\ validation_error e).
  { intros H. destruct (BackupConfig_init p c) as [cfg | e] eqn:E.
    - apply BackupConfig_init_sound in E as [H1 H2]. tauto.
    - exists e. split; [reflexivity |].
      eapply BackupConfig_init_raises; eassumption. }
  split; [| split; [| split]].
  - intros H. apply Hrej. now left.
  - intros H. apply Hrej. now right.
  - intros Hvalid.
    destruct (BackupConfig_init_rejects p c Hvalid) as [H1 H2].
    split; [exact H1 |]. split; [exact H2 |].
    now apply BackupConfig_init_complete.
  - intros W h w e E. unfold start_backup, bind, lift. now rewrite E.
Qed.

(** ** Footprints of the operations *)

Ltac within_tac := unfold within; avoids_tac.

(** Compares two classes of events constructor by constructor. *)
Ltac by_kind :=
  let e := fresh "e" in
  let He := fresh "He" in
  intros e He; destruct e; cbv in He |- *; congruence.

Section Footprints.
Context {W : Type}.
Variable h : Host W.
Variable p : Platform.

Lemma within_avoids {A} footprint kind (m : M W A) :
  within footprint m ->
  (forall e, footprint e = true -> kind e = false) ->
  avoids kind m.
Proof.
  intros Hm Hk. eapply traces_weaken; [exact Hm |].
  intros t Ht. eapply Forall_impl; [| exact Ht].
  intros e He. simpl in He. apply Hk. now destruct (footprint e).
Qed.

Lemma validate_parent_id_footprint cfg :
  within is_checkpoint_listing (_validate_parent_id h cfg).
Proof.
  unfold _validate_parent_id, _get_leaf_checkpoint_name,
    except_libvirtError, listAllCheckpoints.
  within_tac.
Qed.

Lemma get_disks_drives_loop_footprint ds drives :
  within drive_call (_get_disks_drives_loop h ds drives).
Proof.
  revert drives. induction ds as [| disk rest IH]; intros drives; simpl.
  - within_tac.
  - unfold findDriveByUUIDs. within_tac. apply IH.
Qed.

Lemma get_disks_drives_footprint cfg :
  within drive_call (_get_disks_drives h cfg).
Proof.
  unfold _get_disks_drives. unfold within. apply avoids_try_except.
  - apply get_disks_drives_loop_footprint.
  - intros e. avoids_tac.
Qed.

Lemma remove_listed_footprint backup_id names :
  within cleanup_call (remove_listed h backup_id names).
Proof.
  induction names as [| name rest IH]; simpl.
  - within_tac.
  - unfold remove_transient_disk. within_tac.
Qed.

Lemma remove_scratch_disks_footprint backup_id :
  within cleanup_call (_remove_scratch_disks h backup_id).
Proof.
  unfold _remove_scratch_disks, list_transient_disks. within_tac.
  apply remove_listed_footprint.
Qed.

Lemma within_cleanup_scratch {A} (m : M W A) :
  within cleanup_call m -> within scratch_call m.
Proof.
  intros H. eapply within_avoids; [exact H |].
  by_kind.
Qed.

Lemma create_transient_disk_footprint backup_id drive :
  within scratch_call (_create_transient_disk h backup_id drive).
Proof.
  unfold _create_transient_disk, _get_drive_capacity, except_libvirtError,
    blockInfo, create_transient_disk.
  within_tac.
Qed.

Lemma create_scratch_disks_footprint backup_id drives :
  within scratch_call (_create_scratch_disks h backup_id drives).
Proof.
  induction drives as [| [img drive] rest IH]; simpl.
  - within_tac.
  - destruct (drive_scratch_disk drive); unfold within.
    + apply avoids_bind; [exact IH | intros; avoids_tac].
    + apply avoids_bind.
      * apply avoids_try_except;
          [apply create_transient_disk_footprint | intros e].
        apply avoids_bind; [| intros; avoids_tac].
        apply within_cleanup_scratch, remove_scratch_disks_footprint.
      * intros path. apply avoids_bind; [exact IH | intros; avoids_tac].
Qed.

Lemma begin_backup_footprint cfg backup_xml checkpoint_xml :
  within begin_call (_begin_backup h p cfg backup_xml checkpoint_xml).
Proof.
  unfold _begin_backup, except_libvirtError, backupBegin. within_tac.
Qed.

Lemma add_checkpoint_xml_footprint backup_id checkpoint_id result :
  within describe_call
         (_add_checkpoint_xml h backup_id checkpoint_id result).
Proof.
  unfold _add_checkpoint_xml, except_libvirtError, checkpointLookupByName,
    getXMLDesc.
  within_tac.
Qed.

End Footprints.

(** ** The parent checkpoint check *)

Section ParentCheck.
Context {W : Type}.
Variable h : Host W.
Variable p : Platform.

Lemma validate_parent_id_skipped cfg w :
  to_checkpoint_id cfg = None ->
  _validate_parent_id h cfg w = (Ok tt, w, []).
Proof. unfold _validate_parent_id. intros ->. reflexivity. Qed.

Lemma validate_parent_id_mismatch cfg w cps w1 :
  to_checkpoint_id cfg <> None ->
  dom_listAllCheckpoints h [VIR_DOMAIN_CHECKPOINT_LIST_TOPOLOGICAL] w
  = (Ok cps, w1) ->
  parent_checkpoint_id cfg <> leaf_name cps ->
  _validate_parent_id h cfg w
  = (Raise mismatch, w1,
     [EvListAllCheckpoints [VIR_DOMAIN_CHECKPOINT_LIST_TOPOLOGICAL]
                           (Ok cps)]).
Proof.
  intros Hto Hlist Hneq. unfold _validate_parent_id.
  destruct (to_checkpoint_id cfg); [cbn [is_None] | congruence].
  cbv beta delta [bind _get_leaf_checkpoint_name except_libvirtError
                   try_except listAllCheckpoints call].
  rewrite Hlist. simpl.
  destruct (option_string_eqb _ _) eqn:E; [| reflexivity].
  apply option_string_eqb_eq in E. contradiction.
Qed.

Lemma validate_parent_id_passed cfg w u w1 t :
  to_checkpoint_id cfg <> None ->
  _validate_parent_id h cfg w = (Ok u, w1, t) ->
  exists cps,
    dom_listAllCheckpoints h [VIR_DOMAIN_CHECKPOINT_LIST_TOPOLOGICAL] w
    = (Ok cps, w1)
    /\ parent_checkpoint_id cfg = leaf_name cps.
Proof.
  intros Hto. unfold _validate_parent_id.
  destruct (to_checkpoint_id cfg); [cbn [is_None] | congruence].
  cbv beta delta [bind _get_leaf_checkpoint_name except_libvirtError
                   try_except listAllCheckpoints call].
  destruct (dom_listAllCheckpoints h _ w) as [[cps | e] w2]; simpl.
  - destruct (option_string_eqb _ _) eqn:E; simpl; [| discriminate].
    intros [= _ <- _]. exists cps. split; [reflexivity |].
    now apply option_string_eqb_eq.
  - destruct e; simpl; discriminate.
Qed.

Lemma start_backup_unfold c cfg w d ds :
  BackupConfig_init p c = Ok cfg -> disks cfg = d :: ds ->
  start_backup h p c w = start_backup_steps h p cfg w.
Proof.
  intros Hc Hd. unfold start_backup, start_backup_steps.
  unfold bind at 1. unfold lift. rewrite Hc, Hd.
  destruct (bind _ _ w) as [[r w1] t] eqn:E. reflexivity.
Qed.

Lemma start_backup_session_avoids kind cfg addr drives :
  (forall e, is_freeze e || begin_call e = true -> kind e = false) ->
  avoids kind (start_backup_session h p cfg addr drives).
Proof.
  intros Hk. unfold start_backup_session, freeze.
  apply avoids_bind.
  { apply avoids_call. intros r. apply Hk. reflexivity. }
  intros res. apply avoids_bind; [avoids_tac |]. intros _.
  apply avoids_bind; [avoids_tac |]. intros backup_xml.
  apply avoids_bind; [avoids_tac |]. intros checkpoint_xml.
  apply avoids_bind.
  { apply avoids_log. apply Hk. reflexivity. }
  intros _. eapply within_avoids; [apply begin_backup_footprint |].
  intros e He. apply Hk. rewrite He. apply orb_true_r.
Qed.

(** Without [to_checkpoint_id] the chain is never listed. *)
Lemma start_backup_steps_skip_chain cfg :
  to_checkpoint_id cfg = None ->
  avoids is_checkpoint_listing (start_backup_steps h p cfg).
Proof.
  intros Hto. unfold start_backup_steps. rewrite Hto.
  apply avoids_bind.
  { unfold _validate_parent_id. rewrite Hto. apply avoids_ret. }
  intros _. apply avoids_bind.
  { eapply within_avoids; [apply get_disks_drives_footprint | by_kind]. }
  intros drives. apply avoids_bind.
  { eapply within_avoids; [apply create_scratch_disks_footprint | by_kind]. }
  intros drives0. apply avoids_bind; [| intros; apply avoids_ret].
  apply avoids_try_finally.
  - apply avoids_try_except.
    + apply start_backup_session_avoids. by_kind.
    + intros e. apply avoids_bind; [| intros; apply avoids_raise].
      eapply within_avoids; [apply remove_scratch_disks_footprint | by_kind].
  - unfold thaw. avoids_tac.
Qed.

End ParentCheck.

(** C1 (amended).  The check is tied to [to_checkpoint_id].  For a
    request that passes validation and has disks: if it sets
    [to_checkpoint_id], then when the fresh topological listing answers
    a chain whose leaf differs from [parent_checkpoint_id],
    [start_backup] raises the checkpoint error and the listing is the
    only call it has made (no scratch disk, no freeze), and when
    [start_backup] succeeds, [parent_checkpoint_id] is the leaf of the
    listing made at the start; if it does not set [to_checkpoint_id],
    the chain is not listed at all. *)
Theorem start_backup_parent_check
    (W : Type) (h : Host W) (p : Platform) (c : backup_dict)
    (cfg : BackupConfig) (w : W) :
  BackupConfig_init p c = Ok cfg ->
  disks cfg <> [] ->
  (to_checkpoint_id cfg <> None ->
   (forall cps w1,
       dom_listAllCheckpoints h [VIR_DOMAIN_CHECKPOINT_LIST_TOPOLOGICAL] w
       = (Ok cps, w1) ->
       parent_checkpoint_id cfg <> leaf_name cps ->
       start_backup h p c w
       = (Raise mismatch, w1,
          [EvListAllCheckpoints [VIR_DOMAIN_CHECKPOINT_LIST_TOPOLOGICAL]
                                (Ok cps)]))
   /\ (forall res w' evs,
          start_backup h p c w = (Ok res, w', evs) ->
          exists cps w1,
            dom_listAllCheckpoints h [VIR_DOMAIN_CHECKPOINT_LIST_TOPOLOGICAL]
                                   w
            = (Ok cps, w1)
            /\ parent_checkpoint_id cfg = leaf_name cps))
  /\ (to_checkpoint_id cfg = None ->
      count is_checkpoint_listing (events_of (start_backup h p c) w)
      = 0%nat).
Proof.
  intros Hc Hd.
  destruct (disks cfg) as [| d ds] eqn:Ed; [congruence |].
  split; [intros Hto; split |].
  - intros cps w1 Hlist Hneq.
    rewrite (start_backup_unfold h p c cfg w d ds Hc Ed).
    unfold start_backup_steps.
    apply bind_raise. now apply validate_parent_id_mismatch.
  - intros res w' evs Hrun.
    rewrite (start_backup_unfold h p c cfg w d ds Hc Ed) in Hrun.
    unfold start_backup_steps in Hrun.
    apply bind_run in Hrun
      as [(u & w1 & t1 & t2 & Hv & _ & _) | (e & _ & He)];
      [| discriminate].
    apply validate_parent_id_passed in Hv as (cps & Hlist & Hleaf);
      [| assumption].
    eauto.
  - intros Hto. unfold events_of.
    rewrite (start_backup_unfold h p c cfg w d ds Hc Ed).
    destruct (start_backup_steps h p cfg w) as [[r w'] evs] eqn:Hrun.
    apply count_avoided.
    eapply (start_backup_steps_skip_chain h p cfg Hto); eassumption.
Qed.

(** C1, counterexample.  A request with [from_checkpoint_id = cp1] and
    [parent_checkpoint_id = cp0] but no [to_checkpoint_id] is started
    although the leaf of the chain is [cp1]. *)
Lemma chain_check_ignores_from_checkpoint_id :
  ~ chain_checked_when_from_is_set.
Proof.
  intros H.
  destruct (start_backup (Sim.host Sim.calm) Sim.platform
                         Sim.stale_parent_no_checkpoint Sim.two_checkpoints)
    as [[[res | e] w'] evs] eqn:Er; [| vm_compute in Er; discriminate].
  destruct (H _ (Sim.host Sim.calm) Sim.platform
              Sim.stale_parent_no_checkpoint
              (Sim.config_of Sim.stale_parent_no_checkpoint)
              Sim.two_checkpoints w' res evs)
    as (cps & w1 & Hlist & Hleaf).
  - vm_compute. reflexivity.
  - vm_compute. discriminate.
  - exact Er.
  - vm_compute in Hlist. injection Hlist as <- _.
    vm_compute in Hleaf. discriminate.
Qed.

(** C1, witness: the same request asking for the checkpoint [cp2] is
    rejected after the listing alone. *)
Lemma start_backup_parent_check_witness :
  start_backup (Sim.host Sim.calm) Sim.platform
               Sim.stale_parent_new_checkpoint Sim.two_checkpoints
  = (Raise mismatch, Sim.two_checkpoints,
     [EvListAllCheckpoints [VIR_DOMAIN_CHECKPOINT_LIST_TOPOLOGICAL]
                           (Ok ["cp0"; "cp1"])]).
Proof.
  refine (proj1 (proj1 (start_backup_parent_check
                          _ (Sim.host Sim.calm) Sim.platform
                          Sim.stale_parent_new_checkpoint
                          (Sim.config_of Sim.stale_parent_new_checkpoint)
                          Sim.two_checkpoints _ _) _)
                _ _ eq_refl _).
  - vm_compute. reflexivity.
  - vm_compute. discriminate.
  - vm_compute. discriminate.
  - vm_compute. discriminate.
Defined.

(** ** Freeze and thaw *)

Section Thaw.
Context {W : Type}.
Variable h : Host W.
Variable p : Platform.

Lemma quiet_counts evs :
  Forall (fun e => freeze_or_thaw e = false) evs ->
  count is_freeze evs = 0%nat /\ count is_thaw evs = 0%nat.
Proof.
  intros H. split; apply count_avoided; eapply Forall_impl; try exact H;
    intros e He; unfold freeze_or_thaw in He;
    apply orb_false_iff in He; tauto.
Qed.

(** The [try] block starts with freeze, and calls neither freeze nor
    thaw after it. *)
Lemma start_backup_session_shape cfg addr drives :
  traces (start_backup_session h p cfg addr drives)
         (fun t => exists f mid,
              t = EvFreeze f :: mid
              /\ Forall (fun e => freeze_or_thaw e = false) mid).
Proof.
  unfold start_backup_session.
  eapply traces_bind with
    (S1 := fun t => exists r, t = [EvFreeze r])
    (S2 := Forall (fun e => freeze_or_thaw e = false)).
  - unfold freeze. apply traces_call. eauto.
  - intros res. apply avoids_bind; [avoids_tac |]. intros _.
    apply avoids_bind; [avoids_tac |]. intros backup_xml.
    apply avoids_bind; [avoids_tac |]. intros checkpoint_xml.
    apply avoids_bind; [avoids_tac |]. intros _.
    eapply within_avoids; [apply begin_backup_footprint | by_kind].
  - intros t1 [r ->]. exists r, []. split; [reflexivity | constructor].
  - intros t1 t2 [r ->] H2. exists r, t2. split; [reflexivity | exact H2].
Qed.

(** The guarded session starts with freeze and ends with thaw, and
    calls neither of them in between: not in the rest of the [try]
    block and not in the removal of the scratch disks. *)
Lemma guarded_session_shape cfg addr drives :
  traces
    (try_finally
       (try_except (start_backup_session h p cfg addr drives)
          (fun e =>
             bind (_remove_scratch_disks h (backup_id cfg))
                  (fun _ => raise e)))
       (bind (thaw h) (fun _ => ret tt)))
    (fun t => exists f mid th,
         t = EvFreeze f :: mid ++ [EvThaw th]
         /\ Forall (fun e => freeze_or_thaw e = false) mid).
Proof.
  eapply traces_try_finally with
    (S1 := fun t => exists f mid,
               t = EvFreeze f :: mid
               /\ Forall (fun e => freeze_or_thaw e = false) mid)
    (S2 := fun t => exists r, t = [EvThaw r]).
  - eapply traces_try_except with
      (S2 := Forall (fun e => freeze_or_thaw e = false)).
    + apply start_backup_session_shape.
    + intros e. apply avoids_bind; [| intros; apply avoids_raise].
      eapply within_avoids; [apply remove_scratch_disks_footprint |].
      by_kind.
    + auto.
    + intros t1 t2 (f & mid & -> & H1) H2. exists f, (mid ++ t2).
      split; [reflexivity | apply Forall_app; auto].
  - eapply traces_bind with (S1 := fun t => exists r, t = [EvThaw r])
                            (S2 := fun t => t = []).
    + unfold thaw. apply traces_call. eauto.
    + intros a. apply traces_ret. reflexivity.
    + auto.
    + intros t1 t2 [r ->] ->. exists r. reflexivity.
  - intros t1 t2 (f & mid & -> & H1) [r ->]. exists f, mid, r.
    split; [reflexivity | exact H1].
Qed.

(** A trace with one freeze and one thaw after it. *)
Lemma frozen_once_counts pre f mid th post :
  Forall (fun e => freeze_or_thaw e = false) pre ->
  Forall (fun e => freeze_or_thaw e = false) mid ->
  Forall (fun e => freeze_or_thaw e = false) post ->
  count is_freeze (pre ++ EvFreeze f :: mid ++ EvThaw th :: post) = 1%nat
  /\ count is_thaw (pre ++ EvFreeze f :: mid ++ EvThaw th :: post) = 1%nat.
Proof.
  intros H1 H2 H3.
  apply quiet_counts in H1 as [A1 B1].
  apply quiet_counts in H2 as [A2 B2].
  apply quiet_counts in H3 as [A3 B3].
  change (EvFreeze f :: mid ++ EvThaw th :: post)
    with ([EvFreeze f] ++ mid ++ [EvThaw th] ++ post).
  rewrite !count_app, A1, A2, A3, B1, B2, B3. split; reflexivity.
Qed.

(** The [try] block freezes once and does not thaw. *)
Lemma start_backup_session_trace cfg addr drives :
  traces (start_backup_session h p cfg addr drives)
         (fun t => count is_freeze t = 1%nat /\ count is_thaw t = 0%nat).
Proof.
  unfold start_backup_session.
  eapply traces_bind with
    (S1 := fun t => exists r, t = [EvFreeze r])
    (S2 := Forall (fun e => freeze_or_thaw e = false)).
  - unfold freeze. apply traces_call. eauto.
  - intros res. change (avoids freeze_or_thaw
      (bind (if is_error res && truthy_bool (require_consistency cfg)
             then raise (BackupError ("Failed freeze VM: "
                                      ++ status_message res))
             else ret tt)
         (fun _ =>
            bind (lift (create_backup_xml p addr drives
                                          (from_checkpoint_id cfg)))
              (fun backup_xml =>
                 bind (lift (create_checkpoint_xml p cfg drives))
                   (fun checkpoint_xml =>
                      bind (log INFO
    "Starting backup for backup_id: %r, backup xml: %s\ncheckpoint xml: %s"
                              [backup_id cfg; backup_xml;
                               match checkpoint_xml with
                               | Some x => x
                               | None => "None"
                               end])
                        (fun _ =>
                           _begin_backup h p cfg backup_xml
                                         checkpoint_xml)))))).
    avoids_tac.
  - intros t1 [r ->]. split; reflexivity.
  - intros t1 t2 [r ->] H2. apply quiet_counts in H2 as [H2 H2'].
    rewrite !count_app, H2, H2'. split; reflexivity.
Qed.

Lemma remove_scratch_disks_quiet backup_id :
  avoids freeze_or_thaw (_remove_scratch_disks h backup_id).
Proof.
  eapply within_avoids; [apply remove_scratch_disks_footprint |].
  by_kind.
Qed.

(** The guarded session: one freeze, one thaw. *)
Lemma guarded_session_trace cfg addr drives :
  traces
    (try_finally
       (try_except (start_backup_session h p cfg addr drives)
          (fun e =>
             bind (_remove_scratch_disks h (backup_id cfg))
                  (fun _ => raise e)))
       (bind (thaw h) (fun _ => ret tt)))
    (fun t => count is_freeze t = 1%nat /\ count is_thaw t = 1%nat).
Proof.
  eapply traces_try_finally with
    (S1 := fun t => count is_freeze t = 1%nat /\ count is_thaw t = 0%nat)
    (S2 := fun t => exists r, t = [EvThaw r]).
  - eapply traces_try_except with
      (S2 := Forall (fun e => freeze_or_thaw e = false)).
    + apply start_backup_session_trace.
    + intros e. apply avoids_bind; [| intros; apply avoids_raise].
      apply remove_scratch_disks_quiet.
    + auto.
    + intros t1 t2 [H1 H1'] H2. apply quiet_counts in H2 as [H2 H2'].
      rewrite !count_app. lia.
  - eapply traces_bind with (S1 := fun t => exists r, t = [EvThaw r])
                            (S2 := fun t => t = []).
    + unfold thaw. apply traces_call. eauto.
    + intros a. apply traces_ret. reflexivity.
    + auto.
    + intros t1 t2 [r ->] ->. exists r. reflexivity.
  - intros t1 t2 [H1 H1'] [r ->]. rewrite !count_app, H1, H1'.
    split; reflexivity.
Qed.

End Thaw.

(** C3.  [start_backup] reaches the freeze step exactly when the
    request passes validation, has disks, and the parent check, the
    lookup of the drives and the creation of the scratch disks return;
    otherwise it raises the error of the step that failed and has
    called neither freeze nor thaw.  Once the freeze step is reached,
    whatever the collaborators answer and whichever exception ends the
    run, freeze is the next call, thaw is called after it, and neither
    is called anywhere else: not before freeze, not between the two
    (where the backup is begun, or the scratch disks are removed after a
    failure), and not after thaw.  So thaw is called exactly once, and
    after the freeze. *)
Theorem start_backup_thaws_exactly_once
    (W : Type) (h : Host W) (p : Platform) (c : backup_dict) (w : W) :
  match BackupConfig_init p c with
  | Raise e => start_backup h p c w = (Raise e, w, [])
  | Ok cfg =>
      match disks cfg with
      | [] => start_backup h p c w = (Raise without_disks, w, [])
      | _ :: _ =>
          match start_backup_setup h cfg w with
          | (Raise e, w1, pre) =>
              start_backup h p c w = (Raise e, w1, pre)
              /\ Forall (fun ev => freeze_or_thaw ev = false) pre
          | (Ok drives, w1, pre) =>
              exists f mid th post,
                events_of (start_backup h p c) w
                = pre ++ EvFreeze f :: mid ++ EvThaw th :: post
                /\ Forall (fun ev => freeze_or_thaw ev = false) pre
                /\ Forall (fun ev => freeze_or_thaw ev = false) mid
                /\ Forall (fun ev => freeze_or_thaw ev = false) post
                /\ count is_freeze (events_of (start_backup h p c) w)
                   = 1%nat
                /\ count is_thaw (events_of (start_backup h p c) w) = 1%nat
          end
      end
  end.
Proof.
  destruct (BackupConfig_init p c) as [cfg | e] eqn:Ec.
  2:{ unfold start_backup, bind, lift. rewrite Ec. reflexivity. }
  destruct (disks cfg) as [| d ds] eqn:Ed.
  { unfold start_backup, bind, lift. rewrite Ec, Ed. reflexivity. }
  unfold events_of. rewrite (start_backup_unfold h p c cfg w d ds Ec Ed).
  unfold start_backup_steps, start_backup_setup.
  cbv beta iota delta [bind].
  assert (Q : forall {A} footprint (m : M W A) w0 r w1 t,
             within footprint m ->
             (forall e, footprint e = true -> freeze_or_thaw e = false) ->
             m w0 = (r, w1, t) ->
             Forall (fun ev => freeze_or_thaw ev = false) t).
  { intros A footprint m w0 r w1 t Hm Hk Hrun.
    exact (within_avoids footprint freeze_or_thaw m Hm Hk w0 r w1 t Hrun). }
  destruct (_validate_parent_id h cfg w) as [[[u | e] w1] t1] eqn:Hv.
  2:{ split; [reflexivity |].
      eapply Q; [apply validate_parent_id_footprint | by_kind | exact Hv]. }
  apply Q with (footprint := is_checkpoint_listing) in Hv;
    [| apply validate_parent_id_footprint | by_kind].
  destruct (_get_disks_drives h cfg w1) as [[[drives0 | e] w2] t2] eqn:Hd.
  2:{ split; [reflexivity |]. apply Forall_app. split; [exact Hv |].
      eapply Q; [apply get_disks_drives_footprint | by_kind | exact Hd]. }
  apply Q with (footprint := drive_call) in Hd;
    [| apply get_disks_drives_footprint | by_kind].
  destruct (_create_scratch_disks h (backup_id cfg) drives0 w2)
    as [[[drives | e] w3] t3] eqn:Hs.
  2:{ split; [reflexivity |]. apply Forall_app. split; [exact Hv |].
      apply Forall_app. split; [exact Hd |].
      eapply Q; [apply create_scratch_disks_footprint | by_kind | exact Hs]. }
  apply Q with (footprint := scratch_call) in Hs;
    [| apply create_scratch_disks_footprint | by_kind].
  assert (Hpre : Forall (fun ev => freeze_or_thaw ev = false)
                        (t1 ++ t2 ++ t3)).
  { apply Forall_app. split; [exact Hv |]. apply Forall_app. auto. }
  destruct (try_finally _ _ w3) as [[g w4] tg] eqn:Hg.
  apply guarded_session_shape in Hg as (f & mid & th & -> & Hmid).
  assert (Hdone : forall t post,
             Forall (fun ev => freeze_or_thaw ev = false) post ->
             t = (t1 ++ t2 ++ t3) ++ EvFreeze f :: mid ++ EvThaw th :: post ->
             t = (t1 ++ t2 ++ t3) ++ EvFreeze f :: mid ++ EvThaw th :: post
             /\ Forall (fun ev => freeze_or_thaw ev = false) (t1 ++ t2 ++ t3)
             /\ Forall (fun ev => freeze_or_thaw ev = false) mid
             /\ Forall (fun ev => freeze_or_thaw ev = false) post
             /\ count is_freeze t = 1%nat /\ count is_thaw t = 1%nat).
  { intros t post Hpost ->. split; [reflexivity |].
    repeat (split; [assumption |]). now apply frozen_once_counts. }
  destruct g as [u' | e].
  - destruct (to_checkpoint_id cfg) as [to_id |].
    + destruct (_add_checkpoint_xml h (backup_id cfg) to_id _ w4)
        as [[r w5] t5] eqn:Hp.
      exists f, mid, th, t5. apply Hdone.
      * eapply Q; [apply add_checkpoint_xml_footprint | by_kind | exact Hp].
      * cbv beta iota delta [snd]. repeat rewrite <- app_assoc.
        cbn [app]. repeat rewrite <- app_assoc. reflexivity.
    + exists f, mid, th, []. apply Hdone; [constructor |].
      cbv beta iota delta [snd ret]. repeat rewrite <- app_assoc.
      cbn [app]. repeat rewrite <- app_assoc. reflexivity.
  - exists f, mid, th, []. apply Hdone; [constructor |].
    cbv beta iota delta [snd]. repeat rewrite <- app_assoc.
    cbn [app]. reflexivity.
Qed.

(** ** Stopping a backup *)

Section Stop.
Context {W : Type}.
Variable h : Host W.

Lemma stop_backup_no_session backup_id w g w1 :
  dom_backupGetXMLDesc h w = (g, w1) -> no_session g ->
  exists args r w' t,
    _remove_scratch_disks h backup_id w1 = (r, w', t)
    /\ stop_backup h backup_id w
       = (r, w',
          EvBackupGetXMLDesc g
          :: EvLog INFO
               "VM with id '%s' or backup with id '%s' not found, error: %s"
               args
          :: t).
Proof.
  intros Hg [msg Hno].
  destruct (_remove_scratch_disks h backup_id w1) as [[r w'] t] eqn:Er.
  cbv beta delta [stop_backup _backup_exists _get_backup_xml
                  except_libvirtError try_except bind backupGetXMLDesc call
                  raise ret log].
  rewrite Hg.
  destruct Hno as [-> | ->]; simpl; rewrite Er; eauto 10.
Qed.

Lemma stop_backup_aborted backup_id w xml w1 a w2 :
  dom_backupGetXMLDesc h w = (Ok xml, w1) ->
  dom_abortJob h w1 = (a, w2) -> benign a ->
  exists r w' t,
    _remove_scratch_disks h backup_id w2 = (r, w', t)
    /\ stop_backup h backup_id w
       = (r, w', EvBackupGetXMLDesc (Ok xml) :: EvAbortJob a :: t).
Proof.
  intros Hg Ha Hb.
  destruct (_remove_scratch_disks h backup_id w2) as [[r w'] t] eqn:Er.
  cbv beta delta [stop_backup _backup_exists _get_backup_xml
                  except_libvirtError try_except bind backupGetXMLDesc call
                  abortJob raise ret log].
  rewrite Hg. simpl. rewrite Ha.
  destruct Hb as [-> | [msg ->]]; simpl; rewrite Er; eauto 10.
Qed.

Lemma stop_backup_escalates backup_id w xml w1 code msg w2 :
  dom_backupGetXMLDesc h w = (Ok xml, w1) ->
  dom_abortJob h w1 = (Raise (libvirtError code msg), w2) ->
  code <> VIR_ERR_OPERATION_INVALID ->
  stop_backup h backup_id w
  = (Raise (BackupError ("Failed to end VM backup: " ++ msg)), w2,
     [EvBackupGetXMLDesc (Ok xml);
      EvAbortJob (Raise (libvirtError code msg))]).
Proof.
  intros Hg Ha Hc.
  cbv beta delta [stop_backup _backup_exists _get_backup_xml
                  except_libvirtError try_except bind backupGetXMLDesc call
                  abortJob raise ret log].
  rewrite Hg. simpl. rewrite Ha.
  destruct code; simpl; try reflexivity. congruence.
Qed.

End Stop.

(** C4 (amended).  [stop_backup] first asks for the backup descriptor.
    When the answer is "no domain backup" or the domain is not
    connected, it makes no abort call and goes on to the scratch disk
    removal, whose outcome is its outcome.  When a backup is found it
    calls abort once: after a successful abort and after an "operation
    invalid" error the scratch disk removal runs and decides the
    outcome; any other libvirt error is raised as a backup error, and
    then the scratch disks are neither listed nor removed. *)
Theorem stop_backup_outcomes
    (W : Type) (h : Host W) (backup_id : string) (w w1 : W)
    (g : result string) :
  dom_backupGetXMLDesc h w = (g, w1) ->
  (no_session g ->
   exists args r w' t,
     _remove_scratch_disks h backup_id w1 = (r, w', t)
     /\ stop_backup h backup_id w
        = (r, w',
           EvBackupGetXMLDesc g
           :: EvLog INFO
                "VM with id '%s' or backup with id '%s' not found, error: %s"
                args
           :: t)
     /\ count is_abort (events_of (stop_backup h backup_id) w) = 0%nat)
  /\ (forall xml a w2,
         g = Ok xml -> dom_abortJob h w1 = (a, w2) ->
         (benign a ->
          exists r w' t,
            _remove_scratch_disks h backup_id w2 = (r, w', t)
            /\ stop_backup h backup_id w
               = (r, w', EvBackupGetXMLDesc g :: EvAbortJob a :: t))
         /\ (forall code msg,
                a = Raise (libvirtError code msg) ->
                code <> VIR_ERR_OPERATION_INVALID ->
                stop_backup h backup_id w
                = (Raise (BackupError ("Failed to end VM backup: " ++ msg)),
                   w2, [EvBackupGetXMLDesc g; EvAbortJob a]))).
Proof.
  intros Hg. split.
  - intros Hno.
    destruct (stop_backup_no_session h backup_id w g w1 Hg Hno)
      as (args & r & w' & t & Hr & Hs).
    exists args, r, w', t. repeat split; try assumption.
    unfold events_of. rewrite Hs. simpl.
    assert (Hq : avoids is_abort (_remove_scratch_disks h backup_id)).
    { eapply within_avoids; [apply remove_scratch_disks_footprint |].
      by_kind. }
    change (count is_abort t = 0%nat).
    apply count_avoided. eapply Hq; eassumption.
  - intros xml a w2 -> Ha. split.
    + intros Hb. eapply stop_backup_aborted; eassumption.
    + intros code msg -> Hc. eapply stop_backup_escalates; eassumption.
Qed.

(** C4, counterexample: a backup is running, abort fails with
    "operation failed"; [stop_backup] raises without listing the
    transient disks, and the scratch disk stays. *)
Lemma stop_backup_skips_cleanup_when_abort_escalates :
  ~ cleanup_after_every_stop.
Proof.
  intros H.
  apply (H _ (Sim.host Sim.abort_refused) "b1" Sim.backup_in_progress).
  vm_compute. reflexivity.
Qed.

(** C4, witness: with no backup running, [stop_backup] aborts nothing
    and its outcome is that of the scratch disk removal. *)
Lemma stop_backup_outcomes_witness :
  exists args r w' t,
    _remove_scratch_disks (Sim.host Sim.calm) "b1" Sim.backup_finished
    = (r, w', t)
    /\ stop_backup (Sim.host Sim.calm) "b1" Sim.backup_finished
       = (r, w',
          EvBackupGetXMLDesc
            (Raise (libvirtError VIR_ERR_NO_DOMAIN_BACKUP "no domain backup"))
          :: EvLog INFO
               "VM with id '%s' or backup with id '%s' not found, error: %s"
               args
          :: t)
    /\ count is_abort
         (events_of (stop_backup (Sim.host Sim.calm) "b1")
                    Sim.backup_finished) = 0%nat.
Proof.
  apply (proj1 (stop_backup_outcomes _ (Sim.host Sim.calm) "b1"
                  Sim.backup_finished Sim.backup_finished
                  (Raise (libvirtError VIR_ERR_NO_DOMAIN_BACKUP
                                       "no domain backup")) eq_refl)).
  exists "no domain backup". left. reflexivity.
Defined.

(** ** Deleting checkpoints *)

Section Delete.
Context {W : Type}.
Variable h : Host W.
Variable I : W -> Prop.

Lemma looked_up_app t1 t2 :
  looked_up (t1 ++ t2) = looked_up t1 ++ looked_up t2.
Proof.
  induction t1 as [| e t1 IH]; simpl; [reflexivity |].
  destruct e; simpl; rewrite ?IH; reflexivity.
Qed.

Ltac run_delete_step :=
  cbn [delete_checkpoints_loop];
  cbv beta iota zeta delta [bind log except_libvirtError try_except
                            checkpointLookupByName delete call ret].

(** An id that is deleted or absent joins the deleted ids and the loop
    goes on. *)
Lemma delete_step_processed id rest deleted w :
  I w -> deleted_or_absent h I id ->
  exists w1 t1,
    I w1 /\ looked_up t1 = [id]
    /\ forall r w2 t2,
         delete_checkpoints_loop h rest (deleted ++ [id]) w1 = (r, w2, t2) ->
         delete_checkpoints_loop h (id :: rest) deleted w = (r, w2, t1 ++ t2).
Proof.
  intros Hw Hid.
  destruct (Hid w Hw)
    as [(cp & w1 & w2 & Hl & Hd & Hi)
       | [(msg & w1 & Hl & Hi) | (cp & w1 & msg & w2 & Hl & Hd & Hi)]].
  - exists w2,
      [EvLog INFO "Delete VM %r checkpoint %r" [vm_id h; id];
       EvCheckpointLookupByName id (Ok cp);
       EvCheckpointDelete cp (Ok tt)].
    split; [exact Hi |]. split; [reflexivity |].
    intros r w3 t2 Hrest. run_delete_step. rewrite Hl, Hd. simpl.
    rewrite Hrest. reflexivity.
  - exists w1,
      [EvLog INFO "Delete VM %r checkpoint %r" [vm_id h; id];
       EvCheckpointLookupByName id
         (Raise (libvirtError VIR_ERR_NO_DOMAIN_CHECKPOINT msg));
       EvLog DEBUG "Checkpoint_id: %r doesn't exist, error: %s" [id; msg]].
    split; [exact Hi |]. split; [reflexivity |].
    intros r w3 t2 Hrest. run_delete_step. rewrite Hl. simpl.
    rewrite Hrest. reflexivity.
  - exists w2,
      [EvLog INFO "Delete VM %r checkpoint %r" [vm_id h; id];
       EvCheckpointLookupByName id (Ok cp);
       EvCheckpointDelete cp
         (Raise (libvirtError VIR_ERR_NO_DOMAIN_CHECKPOINT msg));
       EvLog DEBUG "Checkpoint_id: %r doesn't exist, error: %s" [id; msg]].
    split; [exact Hi |]. split; [reflexivity |].
    intros r w3 t2 Hrest. run_delete_step. rewrite Hl, Hd. simpl.
    rewrite Hrest. reflexivity.
Qed.

(** An id that fails hard ends the loop with the ids deleted so far. *)
Lemma delete_step_failed id rest deleted code msg w :
  I w -> fails_hard h I id code msg ->
  exists w1 t1,
    looked_up t1 = [id]
    /\ delete_checkpoints_loop h (id :: rest) deleted w
       = (Ok {| checkpoint_ids := deleted; error := Some (code, msg) |},
          w1, t1).
Proof.
  intros Hw [Hcode Hid].
  assert (Hneq : virErrorNumber_eqb code VIR_ERR_NO_DOMAIN_CHECKPOINT
                 = false) by (destruct code; simpl; congruence).
  destruct (Hid w Hw) as [(w1 & Hl) | (cp & w1 & w2 & Hl & Hd)].
  - exists w1. eexists. split.
    2:{ run_delete_step. rewrite Hl. simpl. rewrite Hneq. reflexivity. }
    reflexivity.
  - exists w2. eexists. split.
    2:{ run_delete_step. rewrite Hl, Hd. simpl. rewrite Hneq. reflexivity. }
    reflexivity.
Qed.

Lemma delete_loop_all ids : forall deleted w,
  I w -> (forall id, In id ids -> deleted_or_absent h I id) ->
  exists w' evs,
    delete_checkpoints_loop h ids deleted w
    = (Ok {| checkpoint_ids := deleted ++ ids; error := None |}, w', evs)
    /\ looked_up evs = ids.
Proof.
  induction ids as [| id rest IH]; intros deleted w Hw Hids.
  - exists w, []. simpl. rewrite app_nil_r. auto.
  - destruct (delete_step_processed id rest deleted w Hw
                (Hids id (or_introl eq_refl)))
      as (w1 & t1 & Hw1 & Hlook & Hstep).
    destruct (IH (deleted ++ [id]) w1 Hw1
                 (fun i Hi => Hids i (or_intror Hi)))
      as (w' & t2 & Hrest & Hlook2).
    exists w', (t1 ++ t2). split.
    + rewrite (Hstep _ _ _ Hrest), <- app_assoc. reflexivity.
    + rewrite looked_up_app, Hlook, Hlook2. reflexivity.
Qed.

Lemma delete_loop_partial pre : forall deleted b post code msg w,
  I w -> (forall id, In id pre -> deleted_or_absent h I id) ->
  fails_hard h I b code msg ->
  exists w' evs,
    delete_checkpoints_loop h (pre ++ b :: post) deleted w
    = (Ok {| checkpoint_ids := deleted ++ pre; error := Some (code, msg) |},
       w', evs)
    /\ looked_up evs = pre ++ [b].
Proof.
  induction pre as [| id rest IH]; intros deleted b post code msg w Hw Hids Hb.
  - destruct (delete_step_failed b post deleted code msg w Hw Hb)
      as (w1 & t1 & Hlook & Hrun).
    exists w1, t1. simpl. rewrite app_nil_r. auto.
  - destruct (delete_step_processed id (rest ++ b :: post) deleted w Hw
                (Hids id (or_introl eq_refl)))
      as (w1 & t1 & Hw1 & Hlook & Hstep).
    destruct (IH (deleted ++ [id]) b post code msg w1 Hw1
                 (fun i Hi => Hids i (or_intror Hi)) Hb)
      as (w' & t2 & Hrest & Hlook2).
    exists w', (t1 ++ t2). split.
    + simpl app. rewrite (Hstep _ _ _ Hrest), <- app_assoc. reflexivity.
    + rewrite looked_up_app, Hlook, Hlook2. reflexivity.
Qed.

(** An id whose lookup or deletion raises another exception than a
    libvirt error ends the loop with that exception. *)
Lemma delete_step_raised id rest deleted e w :
  I w -> is_libvirtError e = false -> fails_with h I id e ->
  exists w1 t1,
    looked_up t1 = [id]
    /\ delete_checkpoints_loop h (id :: rest) deleted w = (Raise e, w1, t1).
Proof.
  intros Hw He Hid.
  destruct (Hid w Hw) as [(w1 & Hl) | (cp & w1 & w2 & Hl & Hd)].
  - exists w1. eexists. split.
    2:{ run_delete_step. rewrite Hl. simpl.
        destruct e; try reflexivity. discriminate. }
    reflexivity.
  - exists w2. eexists. split.
    2:{ run_delete_step. rewrite Hl, Hd. simpl.
        destruct e; try reflexivity. discriminate. }
    reflexivity.
Qed.

Lemma delete_loop_raises pre : forall deleted b post e w,
  I w -> (forall id, In id pre -> deleted_or_absent h I id) ->
  is_libvirtError e = false -> fails_with h I b e ->
  exists w' evs,
    delete_checkpoints_loop h (pre ++ b :: post) deleted w = (Raise e, w', evs)
    /\ looked_up evs = pre ++ [b].
Proof.
  induction pre as [| id rest IH]; intros deleted b post e w Hw Hids He Hb.
  - destruct (delete_step_raised b post deleted e w Hw He Hb)
      as (w1 & t1 & Hlook & Hrun).
    exists w1, t1. simpl. auto.
  - destruct (delete_step_processed id (rest ++ b :: post) deleted w Hw
                (Hids id (or_introl eq_refl)))
      as (w1 & t1 & Hw1 & Hlook & Hstep).
    destruct (IH (deleted ++ [id]) b post e w1 Hw1
                 (fun i Hi => Hids i (or_intror Hi)) He Hb)
      as (w' & t2 & Hrest & Hlook2).
    exists w', (t1 ++ t2). split.
    + simpl app. rewrite (Hstep _ _ _ Hrest). reflexivity.
    + rewrite looked_up_app, Hlook, Hlook2. reflexivity.
Qed.

(** No libvirt error leaves the loop as an exception. *)
Lemma delete_loop_catches_libvirt_errors ids : forall deleted w e w' evs,
  delete_checkpoints_loop h ids deleted w = (Raise e, w', evs) ->
  is_libvirtError e = false.
Proof.
  induction ids as [| id rest IH]; intros deleted w e w' evs Hrun.
  - discriminate.
  - cbn [delete_checkpoints_loop] in Hrun.
    apply bind_run in Hrun
      as [(u & w1 & t1 & t2 & _ & Hrun & _) | (e0 & Hlog & _)];
      [| discriminate].
    apply bind_run in Hrun
      as [(failure & w2 & t3 & t4 & _ & Hrun & _) | (e0 & Htry & [= <-])].
    + destruct failure as [err |]; [discriminate |].
      eapply IH; eassumption.
    + apply try_except_run in Htry
        as [(a & _ & Ha) | (e1 & w0 & ta & tb & _ & Hh & _)];
        [discriminate |].
      destruct e1; try (injection Hh as <- _ _; reflexivity).
      destruct (virErrorNumber_eqb code VIR_ERR_NO_DOMAIN_CHECKPOINT);
        discriminate.
Qed.

End Delete.

(** C5 (amended).  [delete_checkpoints] processes the ids in the order
    given.  When every id of [ids] is deleted or already absent, the
    result lists all of [ids] and carries no error.  When these are
    followed by an id [b] whose lookup or deletion fails with another
    libvirt error, the call does not raise: it returns the ids processed
    before [b] together with the code and message of the error, and it
    has looked up no id after [b].  When the lookup or the deletion of
    [b] raises an exception that is not a libvirt error, the call raises
    that exception after it has processed the ids before [b], which
    nothing then reports, and it has looked up no id after [b].
    Whatever the hypervisor answers, no libvirt error leaves
    [delete_checkpoints] as an exception. *)
Theorem delete_checkpoints_partial_progress
    (W : Type) (h : Host W) (I : W -> Prop) (ids : list string) (w : W) :
  I w ->
  (forall id, In id ids -> deleted_or_absent h I id) ->
  (exists w' evs,
      delete_checkpoints h ids w
      = (Ok {| checkpoint_ids := ids; error := None |}, w', evs)
      /\ looked_up evs = ids)
  /\ (forall b post code msg,
         fails_hard h I b code msg ->
         exists w' evs,
           delete_checkpoints h (ids ++ b :: post) w
           = (Ok {| checkpoint_ids := ids; error := Some (code, msg) |},
              w', evs)
           /\ looked_up evs = ids ++ [b])
  /\ (forall b post e,
         is_libvirtError e = false ->
         fails_with h I b e ->
         exists w' evs,
           delete_checkpoints h (ids ++ b :: post) w = (Raise e, w', evs)
           /\ looked_up evs = ids ++ [b])
  /\ (forall any w0 e w' evs,
         delete_checkpoints h any w0 = (Raise e, w', evs) ->
         is_libvirtError e = false).
Proof.
  intros Hw Hids. split; [| split; [| split]].
  - exact (delete_loop_all h I ids [] w Hw Hids).
  - intros b post code msg Hb.
    exact (delete_loop_partial h I ids [] b post code msg w Hw Hids Hb).
  - intros b post e He Hb.
    exact (delete_loop_raises h I ids [] b post e w Hw Hids He Hb).
  - intros any w0 e w' evs Hrun.
    exact (delete_loop_catches_libvirt_errors h any [] w0 e w' evs Hrun).
Qed.

Lemma existsb_without name other l :
  String.eqb other name = false ->
  existsb (String.eqb other) (Sim.without name l)
  = existsb (String.eqb other) l.
Proof.
  intros Hneq. unfold Sim.without.
  induction l as [| x l IH]; simpl; [reflexivity |].
  destruct (String.eqb x name) eqn:Ex; simpl.
  - apply String.eqb_eq in Ex. subst x. rewrite Hneq. exact IH.
  - rewrite IH. reflexivity.
Qed.

Lemma sim_lookup sc name w :
  dom_checkpointLookupByName (Sim.host sc) name w
  = (match Sim.sc_lookup_fault sc name with
     | Some e => Raise e
     | None =>
         if existsb (String.eqb name) (Sim.checkpoints w) then Ok name
         else Raise (libvirtError VIR_ERR_NO_DOMAIN_CHECKPOINT
                                  "no domain checkpoint")
     end, w).
Proof. reflexivity. Qed.

Lemma sim_delete sc name w :
  checkpoint_delete (Sim.host sc) name w
  = match Sim.sc_delete_fault sc name with
    | Some e => (Raise e, w)
    | None =>
        (Ok tt, Sim.set_checkpoints w (Sim.without name (Sim.checkpoints w)))
    end.
Proof. reflexivity. Qed.

(** C5, witness: deleting [a; b; c] when the deletion of [b] fails
    returns [a] and the error, and [c] is never looked up. *)
Lemma delete_checkpoints_partial_progress_witness :
  exists w' evs,
    delete_checkpoints (Sim.host Sim.delete_refused) (["a"] ++ "b" :: ["c"])
                       Sim.chain_abc
    = (Ok {| checkpoint_ids := ["a"];
             error := Some (VIR_ERR_INTERNAL_ERROR, "internal error") |},
       w', evs)
    /\ looked_up evs = ["a"] ++ ["b"].
Proof.
  refine (proj1 (proj2 (delete_checkpoints_partial_progress
                          _ (Sim.host Sim.delete_refused)
                          (Sim.has_checkpoint "b")
                          ["a"] Sim.chain_abc _ _))
                "b" ["c"] VIR_ERR_INTERNAL_ERROR "internal error" _).
  - reflexivity.
  - intros id [<- | []] w Hw.
    destruct (existsb (String.eqb "a") (Sim.checkpoints w)) eqn:E.
    + left. exists "a", w,
        (Sim.set_checkpoints w (Sim.without "a" (Sim.checkpoints w))).
      split; [| split].
      * rewrite sim_lookup.
        change (Sim.sc_lookup_fault Sim.delete_refused "a") with (@None exn).
        rewrite E. reflexivity.
      * reflexivity.
      * change (existsb (String.eqb "b")
                        (Sim.without "a" (Sim.checkpoints w)) = true).
        rewrite existsb_without; [exact Hw | reflexivity].
    + right. left. exists "no domain checkpoint", w. split; [| exact Hw].
      rewrite sim_lookup.
      change (Sim.sc_lookup_fault Sim.delete_refused "a") with (@None exn).
      rewrite E. reflexivity.
  - split; [discriminate |]. intros w Hw. right.
    exists "b", w, w. split; [| reflexivity].
    rewrite sim_lookup.
    change (Sim.sc_lookup_fault Sim.delete_refused "b") with (@None exn).
    unfold Sim.has_checkpoint in Hw. rewrite Hw. reflexivity.
Defined.

(** C5, counterexample.  The VM goes down after the deletion of [a]:
    the lookup of [b] raises [NotConnectedError], which is no libvirt
    error, and [delete_checkpoints] raises it; nothing reports that [a]
    was deleted. *)
Lemma delete_checkpoints_raises_other_exceptions :
  ~ partial_progress_on_every_failure.
Proof.
  intros H.
  destruct (H _ (Sim.host vm_goes_down) (fun _ => True) ["a"] "b" ["c"]
              (NotConnectedError "VM is down") Sim.chain_abc I)
    as (err & w' & evs & Hrun).
  - intros id [<- | []] w _.
    destruct (existsb (String.eqb "a") (Sim.checkpoints w)) eqn:E.
    + left. exists "a", w,
        (Sim.set_checkpoints w (Sim.without "a" (Sim.checkpoints w))).
      split; [| split; [reflexivity | exact I]].
      rewrite sim_lookup.
      change (Sim.sc_lookup_fault vm_goes_down "a") with (@None exn).
      rewrite E. reflexivity.
    + right. left. exists "no domain checkpoint", w. split; [| exact I].
      rewrite sim_lookup.
      change (Sim.sc_lookup_fault vm_goes_down "a") with (@None exn).
      rewrite E. reflexivity.
  - reflexivity.
  - intros w _. left. exists w. reflexivity.
  - vm_compute in Hrun. discriminate.
Qed.

(** ** Scratch disks *)

Section ScratchDisks.
Context {W : Type}.
Variable h : Host W.

Lemma removed_app t1 t2 : removed (t1 ++ t2) = removed t1 ++ removed t2.
Proof.
  induction t1 as [| e t1 IH]; simpl; [reflexivity |].
  destruct e; simpl; rewrite ?IH; reflexivity.
Qed.

(** The loop of [_remove_scratch_disks] asks for the removal of every
    name, in order, logs each refusal and always completes. *)
Lemma remove_listed_run backup_id names : forall w,
  exists w' t,
    remove_listed h backup_id names w = (Ok tt, w', t)
    /\ removed t = names
    /\ Forall (fun e => removal_call e = true) t
    /\ (forall name code message,
           In (EvRemoveTransientDisk (vm_id h) name
                                     (RespError code message)) t ->
           In (removal_failure_logged backup_id name) t).
Proof.
  induction names as [| name rest IH]; intros w.
  - exists w, []. repeat split; try constructor. intros ? ? ? [].
  - cbn [remove_listed].
    cbv beta iota zeta delta [bind remove_transient_disk call_response].
    destruct (irs_remove_transient_disk h (vm_id h) name w) as [res w1].
    destruct (IH w1) as (w' & t & Hrun & Hrem & Hkind & Hlog).
    destruct res as [u | code message]; simpl; rewrite Hrun.
    + exists w', (EvRemoveTransientDisk (vm_id h) name (RespOk u) :: t).
      repeat split.
      * simpl. now rewrite Hrem.
      * constructor; [reflexivity | exact Hkind].
      * intros n c m [Hin | Hin]; [discriminate | right; eauto].
    + exists w',
        (EvRemoveTransientDisk (vm_id h) name (RespError code message)
         :: removal_failure_logged backup_id name :: t).
      repeat split.
      * simpl. now rewrite Hrem.
      * repeat constructor. exact Hkind.
      * intros n c m [Hin | [Hin | Hin]].
        -- injection Hin as <- _ _. right. left. reflexivity.
        -- discriminate.
        -- right. right. eauto.
Qed.

Lemma remove_scratch_disks_listing_failed backup_id w code message w1 :
  irs_list_transient_disks h (vm_id h) w = (RespError code message, w1) ->
  _remove_scratch_disks h backup_id w
  = (Raise (fetch_failed message), w1,
     [removing_scratch_disks backup_id;
      EvListTransientDisks (vm_id h) (RespError code message)]).
Proof.
  intros Hl.
  cbv beta iota zeta delta [_remove_scratch_disks bind log
                            list_transient_disks call_response raise].
  rewrite Hl. reflexivity.
Qed.

Lemma remove_scratch_disks_listed backup_id w names w1 :
  irs_list_transient_disks h (vm_id h) w = (RespOk names, w1) ->
  exists w' t,
    _remove_scratch_disks h backup_id w
    = (Ok tt, w',
       removing_scratch_disks backup_id
       :: EvListTransientDisks (vm_id h) (RespOk names) :: t)
    /\ remove_listed h backup_id names w1 = (Ok tt, w', t)
    /\ removed t = names
    /\ Forall (fun e => removal_call e = true) t
    /\ (forall name code message,
           In (EvRemoveTransientDisk (vm_id h) name
                                     (RespError code message)) t ->
           In (removal_failure_logged backup_id name) t).
Proof.
  intros Hl.
  destruct (remove_listed_run backup_id names w1)
    as (w' & t & Hrun & Hrest).
  exists w', t. split; [| split; assumption].
  cbv beta iota zeta delta [_remove_scratch_disks bind log
                            list_transient_disks call_response].
  rewrite Hl. cbv beta iota. rewrite Hrun. reflexivity.
Qed.

(** A failed listing in the trace of [_remove_scratch_disks] is the
    failure it raises. *)
Lemma remove_scratch_disks_raises_on_failed_listing
      backup_id w r w' t owner code message :
  _remove_scratch_disks h backup_id w = (r, w', t) ->
  In (EvListTransientDisks owner (RespError code message)) t ->
  r = Raise (fetch_failed message).
Proof.
  intros Hrun Hin.
  destruct (irs_list_transient_disks h (vm_id h) w) as [[names | c m] w1]
    eqn:Hl.
  - destruct (remove_scratch_disks_listed backup_id w names w1 Hl)
      as (w2 & t2 & Hrun2 & _ & _ & Hkind & _).
    rewrite Hrun2 in Hrun. injection Hrun as <- <- <-.
    destruct Hin as [Hin | [Hin | Hin]]; try discriminate.
    rewrite Forall_forall in Hkind. apply Hkind in Hin. discriminate.
  - rewrite (remove_scratch_disks_listing_failed backup_id w c m w1 Hl)
      in Hrun.
    injection Hrun as <- <- <-.
    destruct Hin as [Hin | [Hin | []]]; [discriminate |].
    injection Hin as _ _ <-. reflexivity.
Qed.

Lemma backup_exists_avoids_listing backup_id :
  avoids is_listing (_backup_exists h backup_id).
Proof.
  unfold _backup_exists, _get_backup_xml, except_libvirtError,
    backupGetXMLDesc.
  avoids_tac.
Qed.

Lemma create_transient_disk_avoids_listing backup_id drive :
  avoids is_listing (_create_transient_disk h backup_id drive).
Proof.
  unfold _create_transient_disk, _get_drive_capacity, except_libvirtError,
    blockInfo, create_transient_disk.
  avoids_tac.
Qed.

(** A successful [_create_transient_disk] is one [blockInfo] call and
    one creation with the capacity it answered. *)
Lemma create_transient_disk_ok backup_id drive w path w' t :
  _create_transient_disk h backup_id drive w = (Ok path, w', t) ->
  exists capacity allocation physical,
    t = [EvBlockInfo (drive_path drive)
                     (Ok (capacity, allocation, physical));
         EvCreateTransientDisk (vm_id h)
           (backup_id ++ "." ++ drive_name drive) capacity (RespOk path)].
Proof.
  cbv beta iota zeta delta [_create_transient_disk _get_drive_capacity
                            except_libvirtError try_except bind blockInfo
                            call create_transient_disk call_response].
  destruct (dom_blockInfo h (drive_path drive) w)
    as [[[[capacity allocation] physical] | e] w1].
  - cbv beta iota zeta delta [ret].
    destruct (irs_create_transient_disk h (vm_id h) _ capacity w1)
      as [[path' | code message] w2]; cbv beta iota zeta delta [ret raise].
    + intros [= <- <- <-]. exists capacity, allocation, physical. reflexivity.
    + discriminate.
  - destruct e; cbv beta iota zeta delta [raise]; discriminate.
Qed.

Lemma create_scratch_disks_raises_on_failed_listing
      backup_id drives : forall w r w' evs owner code message,
  _create_scratch_disks h backup_id drives w = (r, w', evs) ->
  In (EvListTransientDisks owner (RespError code message)) evs ->
  r = Raise (fetch_failed message).
Proof.
  induction drives as [| [img drive] rest IH];
    intros w r w' evs owner code message Hrun Hin.
  - injection Hrun as <- <- <-. destruct Hin.
  - cbn [_create_scratch_disks] in Hrun.
    destruct (drive_scratch_disk drive) as [sd |].
    + apply bind_run in Hrun
        as [(rest' & w1 & t1 & t2 & Hr & Hret & ->) | (e & Hr & ->)].
      * injection Hret as <- <- <-. rewrite app_nil_r in Hin.
        specialize (IH _ _ _ _ _ _ _ Hr Hin). discriminate.
      * eapply IH; eassumption.
    + apply bind_run in Hrun
        as [(path & w1 & t1 & t2 & Hc & Hk & ->) | (e & Hc & ->)].
      * apply try_except_run in Hc
          as [(a & Hc & [= <-]) | (e & w0 & ta & tb & Hc & Hh & ->)].
        -- apply in_app_or in Hin as [Hin | Hin].
           { apply (create_transient_disk_avoids_listing backup_id drive)
               in Hc.
             rewrite Forall_forall in Hc. apply Hc in Hin. discriminate. }
           apply bind_run in Hk
             as [(rest' & w2 & t3 & t4 & Hr & Hret & ->) | (e & Hr & ->)].
           ++ injection Hret as <- <- <-. rewrite app_nil_r in Hin.
              specialize (IH _ _ _ _ _ _ _ Hr Hin). discriminate.
           ++ eapply IH; eassumption.
        -- apply bind_run in Hh
             as [(u & w2 & t3 & t4 & _ & Hret & _) | (e1 & _ & He)];
             [injection Hret as Hret _ _ |]; discriminate.
      * apply try_except_run in Hc
          as [(a & _ & Ha) | (e0 & w0 & ta & tb & Hc & Hh & ->)];
          [discriminate |].
        apply in_app_or in Hin as [Hin | Hin].
        { apply (create_transient_disk_avoids_listing backup_id drive) in Hc.
          rewrite Forall_forall in Hc. apply Hc in Hin. discriminate. }
        apply bind_run in Hh
          as [(u & w2 & t3 & t4 & Hr & Hret & ->) | (e1 & Hr & [= ->])].
        -- injection Hret as _ <- <-. rewrite app_nil_r in Hin.
           pose proof (remove_scratch_disks_raises_on_failed_listing
                         _ _ _ _ _ _ _ _ Hr Hin) as Hbad.
           discriminate.
        -- pose proof (remove_scratch_disks_raises_on_failed_listing
                         _ _ _ _ _ _ _ _ Hr Hin) as He.
           injection He as ->. reflexivity.
Qed.

Lemma create_scratch_disks_created backup_id drives :
  forall w drives' w' evs,
    _create_scratch_disks h backup_id drives w = (Ok drives', w', evs) ->
    scratch_disks_created h backup_id drives drives' evs.
Proof.
  induction drives as [| [img drive] rest IH]; intros w drives' w' evs Hrun.
  - injection Hrun as <- <- <-. constructor.
  - cbn [_create_scratch_disks] in Hrun.
    destruct (drive_scratch_disk drive) as [sd |] eqn:Esd.
    + apply bind_run in Hrun
        as [(rest' & w1 & t1 & t2 & Hr & Hret & ->) | (e & _ & He)];
        [| discriminate].
      injection Hret as <- <- <-. rewrite app_nil_r.
      constructor; [congruence | eapply IH; eassumption].
    + apply bind_run in Hrun
        as [(path & w1 & t1 & t2 & Hc & Hk & ->) | (e & _ & He)];
        [| discriminate].
      apply try_except_run in Hc
        as [(a & Hc & [= <-]) | (e & w0 & ta & tb & _ & Hh & _)].
      2:{ apply bind_run in Hh
            as [(u & w2 & t3 & t4 & _ & Hret & _) | (e1 & _ & He)];
            [injection Hret as Hret _ _ |]; discriminate. }
      apply create_transient_disk_ok in Hc
        as (capacity & allocation & physical & ->).
      apply bind_run in Hk
        as [(rest' & w2 & t3 & t4 & Hr & Hret & ->) | (e & _ & He)];
        [| discriminate].
      injection Hret as <- <- <-. rewrite app_nil_r.
      apply (created_one h backup_id img drive rest rest' t3
                         capacity allocation physical path Esd).
      eapply IH; eassumption.
Qed.

Lemma scratch_disks_created_names backup_id drives drives' evs :
  scratch_disks_created h backup_id drives drives' evs ->
  map fst (created evs)
  = map (fun kv =>
           (vm_id h, (backup_id ++ "." ++ drive_name (snd kv))%string))
        (filter lacks_scratch_disk drives)
  /\ map fst drives' = map fst drives
  /\ Forall (fun kv => drive_scratch_disk (snd kv) <> None) drives'.
Proof.
  induction 1 as [| img drive rest rest' t Hsd _ (IH1 & IH2 & IH3)
                  | img drive rest rest' t c a ph path Hsd _
                      (IH1 & IH2 & IH3)].
  - repeat split; constructor.
  - unfold lacks_scratch_disk at 1. simpl.
    destruct (drive_scratch_disk drive) eqn:E; [| congruence]. simpl.
    repeat split; [assumption | now f_equal |].
    constructor; [simpl; congruence | assumption].
  - unfold lacks_scratch_disk at 1. simpl. rewrite Hsd. simpl.
    repeat split; [now f_equal | now f_equal |].
    constructor; [simpl; discriminate | assumption].
Qed.

(** When [_create_scratch_disks] raises, the last thing it did was the
    rollback: one listing, at the end of the trace. *)
Lemma create_scratch_disks_rolls_back backup_id drives :
  forall w e w' evs,
    _create_scratch_disks h backup_id drives w = (Raise e, w', evs) ->
    exists pre res t,
      evs = pre ++ removing_scratch_disks backup_id
                :: EvListTransientDisks (vm_id h) res :: t
      /\ Forall (fun ev => is_listing ev = false) pre
      /\ match res with
         | RespOk names =>
             removed t = names
             /\ Forall (fun ev => removal_call ev = true) t
             /\ exists img drive w0 w1 t0,
                  In (img, drive) drives
                  /\ drive_scratch_disk drive = None
                  /\ _create_transient_disk h backup_id drive w0
                     = (Raise e, w1, t0)
         | RespError _ message => t = [] /\ e = fetch_failed message
         end.
Proof.
  assert (Hmono : forall (x : string * BackupDrive) rest res t e,
            match res with
            | RespOk names =>
                removed t = names
                /\ Forall (fun ev => removal_call ev = true) t
                /\ exists img drive w0 w1 t0,
                     In (img, drive) rest
                     /\ drive_scratch_disk drive = None
                     /\ _create_transient_disk h backup_id drive w0
                        = (Raise e, w1, t0)
            | RespError _ message => t = [] /\ e = fetch_failed message
            end ->
            match res with
            | RespOk names =>
                removed t = names
                /\ Forall (fun ev => removal_call ev = true) t
                /\ exists img drive w0 w1 t0,
                     In (img, drive) (x :: rest)
                     /\ drive_scratch_disk drive = None
                     /\ _create_transient_disk h backup_id drive w0
                        = (Raise e, w1, t0)
            | RespError _ message => t = [] /\ e = fetch_failed message
            end).
  { intros x rest [names | c m] t e; [| tauto].
    intros (H1 & H2 & img & drive & w0 & w1 & t0 & Hin & H3 & H4).
    split; [exact H1 |]. split; [exact H2 |].
    exists img, drive, w0, w1, t0. split; [right; exact Hin |]. auto. }
  induction drives as [| [img drive] rest IH]; intros w e w' evs Hrun.
  - discriminate.
  - cbn [_create_scratch_disks] in Hrun.
    destruct (drive_scratch_disk drive) as [sd |] eqn:Esd.
    + apply bind_run in Hrun
        as [(rest' & w1 & t1 & t2 & _ & Hret & _) | (e0 & Hr & [= <-])];
        [discriminate |].
      destruct (IH _ _ _ _ Hr) as (pre & res & t & Hevs & Hpre & Hres).
      exists pre, res, t. split; [exact Hevs |]. split; [exact Hpre |].
      apply Hmono. exact Hres.
    + apply bind_run in Hrun
        as [(path & w1 & t1 & t2 & Hc & Hk & ->) | (e0 & Hc & [= <-])].
      * apply try_except_run in Hc
          as [(a & Hc & [= <-]) | (e1 & w0 & ta & tb & _ & Hh & _)].
        2:{ apply bind_run in Hh
              as [(u & w2 & t3 & t4 & _ & Hret & _) | (e2 & _ & He)];
              [injection Hret as Hret _ _ |]; discriminate. }
        apply (create_transient_disk_avoids_listing backup_id drive) in Hc.
        apply bind_run in Hk
          as [(rest' & w2 & t3 & t4 & _ & Hret & _) | (e0 & Hr & [= <-])];
          [discriminate |].
        destruct (IH _ _ _ _ Hr) as (pre & res & t & -> & Hpre & Hres).
        exists (t1 ++ pre), res, t. rewrite <- app_assoc.
        split; [reflexivity |]. split; [| apply Hmono; exact Hres].
        apply Forall_app. split; assumption.
      * apply try_except_run in Hc
          as [(a & _ & Ha) | (e1 & w0 & ta & tb & Hc & Hh & ->)];
          [discriminate |].
        pose proof (create_transient_disk_avoids_listing
                      backup_id drive _ _ _ _ Hc) as Hquiet.
        destruct (irs_list_transient_disks h (vm_id h) w0)
          as [[names | code message] w1] eqn:Hl.
        -- destruct (remove_scratch_disks_listed backup_id w0 names w1 Hl)
             as (w2 & t & Hrm & _ & Hrem & Hkind & _).
           unfold bind in Hh. rewrite Hrm in Hh.
           injection Hh as <- _ <-.
           exists ta, (RespOk names), t. rewrite app_nil_r.
           split; [reflexivity |]. split; [exact Hquiet |].
           split; [exact Hrem |]. split; [exact Hkind |].
           exists img, drive, w, w0, ta.
           split; [left; reflexivity |]. split; [exact Esd | exact Hc].
        -- pose proof (remove_scratch_disks_listing_failed
                         backup_id w0 code message w1 Hl) as Hrm.
           unfold bind in Hh. rewrite Hrm in Hh.
           injection Hh as <- _ <-.
           exists ta, (RespError code message), [].
           repeat split; assumption.
Qed.

Lemma thaw_finally_run w (r : result unit) w' t :
  bind (thaw h) (fun _ => ret tt) w = (r, w', t) ->
  exists x, t = [EvThaw x]
            /\ match x with
               | Ok _ => r = Ok tt
               | Raise e => r = Raise e
               end.
Proof.
  cbv beta iota zeta delta [bind thaw call ret].
  destruct (vm_thaw h w) as [[res | e] w1]; intros [= <- <- <-].
  - exists (Ok res). split; reflexivity.
  - exists (Raise e). split; reflexivity.
Qed.

(** A failed listing in the trace of the guarded session of
    [start_backup] is raised, unless thaw raises after it. *)
Lemma guarded_session_raises_on_failed_listing
      p cfg addr drives w (r : result unit) w' t owner code message :
  try_finally
    (try_except (start_backup_session h p cfg addr drives)
       (fun e =>
          bind (_remove_scratch_disks h (backup_id cfg)) (fun _ => raise e)))
    (bind (thaw h) (fun _ => ret tt)) w
  = (r, w', t) ->
  In (EvListTransientDisks owner (RespError code message)) t ->
  r = Raise (fetch_failed message)
  \/ exists e, In (EvThaw (Raise e)) t /\ r = Raise e.
Proof.
  intros Hrun Hin.
  apply try_finally_run in Hrun
    as (r1 & w1 & t1 & r2 & t2 & Hm & Hf & -> & ->).
  apply thaw_finally_run in Hf as (x & -> & Hx).
  destruct x as [res | e]; subst r2.
  2:{ right. exists e. split; [| reflexivity].
      apply in_or_app. right. left. reflexivity. }
  left. apply in_app_or in Hin as [Hin | [Hin | []]]; [| discriminate].
  apply try_except_run in Hm
    as [(a & Hm & _) | (e0 & w0 & ta & tb & Hm & Hh & ->)].
  - apply (start_backup_session_avoids h p is_listing cfg addr drives)
      in Hm; [| by_kind].
    rewrite Forall_forall in Hm. apply Hm in Hin. discriminate.
  - apply in_app_or in Hin as [Hin | Hin].
    { apply (start_backup_session_avoids h p is_listing cfg addr drives)
        in Hm; [| by_kind].
      rewrite Forall_forall in Hm. apply Hm in Hin. discriminate. }
    apply bind_run in Hh
      as [(u & w2 & t3 & t4 & Hr & Hret & ->) | (e1 & Hr & ->)].
    + injection Hret as _ _ <-. rewrite app_nil_r in Hin.
      pose proof (remove_scratch_disks_raises_on_failed_listing
                    _ _ _ _ _ _ _ _ Hr Hin) as Hbad.
      discriminate.
    + pose proof (remove_scratch_disks_raises_on_failed_listing
                    _ _ _ _ _ _ _ _ Hr Hin) as He.
      injection He as ->. reflexivity.
Qed.

Lemma start_backup_raises_on_failed_listing
      p c w r w' evs owner code message :
  start_backup h p c w = (r, w', evs) ->
  In (EvListTransientDisks owner (RespError code message)) evs ->
  r = Raise (fetch_failed message)
  \/ exists e, In (EvThaw (Raise e)) evs /\ r = Raise e.
Proof.
  intros Hrun Hin.
  destruct (BackupConfig_init p c) as [cfg | e] eqn:Ec.
  2:{ unfold start_backup, bind, lift in Hrun. rewrite Ec in Hrun.
      injection Hrun as _ _ <-. destruct Hin. }
  destruct (disks cfg) as [| d ds] eqn:Ed.
  { unfold start_backup, bind, lift in Hrun. rewrite Ec, Ed in Hrun.
    injection Hrun as _ _ <-. destruct Hin. }
  rewrite (start_backup_unfold h p c cfg w d ds Ec Ed) in Hrun.
  unfold start_backup_steps in Hrun.
  assert (Hskip : forall t, Forall (fun e => is_listing e = false) t ->
                  ~ In (EvListTransientDisks owner (RespError code message))
                       t).
  { intros t Ht Hi. rewrite Forall_forall in Ht. apply Ht in Hi.
    discriminate. }
  apply bind_run in Hrun
    as [(u & w1 & t1 & t2 & Hv & Hrun & ->) | (e & Hv & _)].
  2:{ exfalso. eapply Hskip; [| exact Hin].
      eapply (within_avoids is_checkpoint_listing is_listing);
        [apply validate_parent_id_footprint | by_kind | exact Hv]. }
  apply in_app_or in Hin as [Hin | Hin].
  { exfalso. eapply Hskip; [| exact Hin].
    eapply (within_avoids is_checkpoint_listing is_listing);
      [apply validate_parent_id_footprint | by_kind | exact Hv]. }
  apply bind_run in Hrun
    as [(drives & w2 & t3 & t4 & Hd & Hrun & ->) | (e & Hd & _)].
  2:{ exfalso. eapply Hskip; [| exact Hin].
      eapply (within_avoids drive_call is_listing);
        [apply get_disks_drives_footprint | by_kind | exact Hd]. }
  apply in_app_or in Hin as [Hin | Hin].
  { exfalso. eapply Hskip; [| exact Hin].
    eapply (within_avoids drive_call is_listing);
      [apply get_disks_drives_footprint | by_kind | exact Hd]. }
  apply bind_run in Hrun
    as [(drives0 & w3 & t5 & t6 & Hc & Hrun & ->) | (e & Hc & ->)].
  2:{ left.
      pose proof (create_scratch_disks_raises_on_failed_listing
                    _ _ _ _ _ _ _ _ _ Hc Hin) as He.
      injection He as ->. reflexivity. }
  apply in_app_or in Hin as [Hin | Hin].
  { pose proof (create_scratch_disks_raises_on_failed_listing
                  _ _ _ _ _ _ _ _ _ Hc Hin) as Hbad.
    discriminate. }
  apply bind_run in Hrun
    as [(u' & w4 & t7 & t8 & Hg & Hpost & ->) | (e & Hg & ->)].
  - apply in_app_or in Hin as [Hin | Hin].
    + destruct (guarded_session_raises_on_failed_listing
                  _ _ _ _ _ _ _ _ _ _ _ Hg Hin)
        as [Hbad | (e & _ & Hbad)]; discriminate.
    + exfalso. eapply Hskip; [| exact Hin].
      destruct (to_checkpoint_id cfg) as [to_id |].
      * eapply (within_avoids describe_call is_listing);
          [apply add_checkpoint_xml_footprint | by_kind | exact Hpost].
      * injection Hpost as _ _ <-. constructor.
  - destruct (guarded_session_raises_on_failed_listing
                _ _ _ _ _ _ _ _ _ _ _ Hg Hin)
      as [He | (e' & Hthaw & He)].
    + left. injection He as ->. reflexivity.
    + right. exists e'. injection He as ->. split; [| reflexivity].
      apply in_or_app. right. apply in_or_app. right.
      apply in_or_app. right. exact Hthaw.
Qed.

End ScratchDisks.

(** C10.  [_remove_scratch_disks] first lists the transient disks of the
    VM.  When the listing answers an error it raises a backup error and
    removes nothing.  When the listing answers names it asks for the
    removal of each listed name, in order, whatever the earlier removals
    answered; each refusal is logged, and the call returns normally; an
    empty listing removes nothing.  A failed listing inside
    [stop_backup] or inside the rollback of [_create_scratch_disks] is
    therefore what they raise, and a failed listing inside
    [start_backup] is what it raises unless thaw raises afterwards. *)
Theorem remove_scratch_disks_outcomes
    (W : Type) (h : Host W) (backup_id : string) (w w1 : W)
    (res : response (list string)) :
  irs_list_transient_disks h (vm_id h) w = (res, w1) ->
  match res with
  | RespError code message =>
      _remove_scratch_disks h backup_id w
      = (Raise (fetch_failed message), w1,
         [removing_scratch_disks backup_id;
          EvListTransientDisks (vm_id h) res])
  | RespOk names =>
      exists w' t,
        _remove_scratch_disks h backup_id w
        = (Ok tt, w',
           removing_scratch_disks backup_id
           :: EvListTransientDisks (vm_id h) res :: t)
        /\ removed t = names
        /\ Forall (fun e => removal_call e = true) t
        /\ (forall name code message,
               In (EvRemoveTransientDisk (vm_id h) name
                                         (RespError code message)) t ->
               In (removal_failure_logged backup_id name) t)
        /\ (names = [] -> t = [] /\ w' = w1)
  end
  /\ (forall w0 r w' evs code message,
         stop_backup h backup_id w0 = (r, w', evs) ->
         In (EvListTransientDisks (vm_id h) (RespError code message)) evs ->
         r = Raise (fetch_failed message))
  /\ (forall drives w0 r w' evs code message,
         _create_scratch_disks h backup_id drives w0 = (r, w', evs) ->
         In (EvListTransientDisks (vm_id h) (RespError code message)) evs ->
         r = Raise (fetch_failed message))
  /\ (forall p c w0 r w' evs code message,
         start_backup h p c w0 = (r, w', evs) ->
         In (EvListTransientDisks (vm_id h) (RespError code message)) evs ->
         r = Raise (fetch_failed message)
         \/ exists e, In (EvThaw (Raise e)) evs /\ r = Raise e).
Proof.
  intros Hl. split; [| split; [| split]].
  - destruct res as [names | code message].
    + destruct (remove_scratch_disks_listed h backup_id w names w1 Hl)
        as (w' & t & Hrun & Hloop & Hrem & Hkind & Hlog).
      exists w', t.
      split; [exact Hrun |]. split; [exact Hrem |].
      split; [exact Hkind |]. split; [exact Hlog |].
      intros ->. injection Hloop as <- <-. split; reflexivity.
    + now apply remove_scratch_disks_listing_failed.
  - intros w0 r w' evs code message Hrun Hin.
    pose (abortJob' := abortJob h).
    unfold stop_backup in Hrun. fold abortJob' in Hrun.
    apply bind_run in Hrun
      as [(found & wa & ta & tb & Ha & Hb & ->) | (e & Ha & ->)].
    + assert (Hta : Forall (fun e => is_listing e = false) ta).
      { eapply (backup_exists_avoids_listing h backup_id); eassumption. }
      assert (Hq : forall wx rx wy tx,
                 (if found
                  then
                    except_libvirtError abortJob'
                      (fun code msg =>
                         if negb (virErrorNumber_eqb
                                    code VIR_ERR_OPERATION_INVALID)
                         then raise (BackupError
                                       ("Failed to end VM backup: " ++ msg))
                         else ret tt)
                  else ret tt) wx = (rx, wy, tx) ->
                 Forall (fun e => is_listing e = false) tx).
      { change (avoids is_listing
                  (if found
                   then
                     except_libvirtError abortJob'
                       (fun code msg =>
                          if negb (virErrorNumber_eqb
                                     code VIR_ERR_OPERATION_INVALID)
                          then raise (BackupError
                                        ("Failed to end VM backup: " ++ msg))
                          else ret tt)
                   else ret tt)).
        unfold except_libvirtError, abortJob', abortJob. avoids_tac. }
      apply bind_run in Hb
        as [(u & wb & tc & td & Hb & Hc & ->) | (e & Hb & ->)].
      * apply Hq in Hb.
        apply in_app_or in Hin as [Hin | Hin].
        { rewrite Forall_forall in Hta. apply Hta in Hin. discriminate. }
        apply in_app_or in Hin as [Hin | Hin].
        { rewrite Forall_forall in Hb. apply Hb in Hin. discriminate. }
        eapply remove_scratch_disks_raises_on_failed_listing; eassumption.
      * apply Hq in Hb.
        apply in_app_or in Hin as [Hin | Hin].
        { rewrite Forall_forall in Hta. apply Hta in Hin. discriminate. }
        rewrite Forall_forall in Hb. apply Hb in Hin. discriminate.
    + assert (Hta : Forall (fun e => is_listing e = false) evs).
      { eapply (backup_exists_avoids_listing h backup_id); eassumption. }
      rewrite Forall_forall in Hta. apply Hta in Hin. discriminate.
  - intros drives w0 r w' evs code message Hrun Hin.
    eapply create_scratch_disks_raises_on_failed_listing; eassumption.
  - intros p c w0 r w' evs code message Hrun Hin.
    eapply start_backup_raises_on_failed_listing; eassumption.
Qed.

(** C8.  When [_create_scratch_disks] returns, it has skipped every
    drive that came with a scratch disk and, for every other drive of
    the session, in order, asked [blockInfo] for the drive and created
    exactly one transient disk named [{backup_id}.{drive_name}] whose
    size is the capacity (the first component) that [blockInfo]
    answered, not its allocation; the disk created becomes the scratch
    disk of the drive, so that afterwards every drive has one. *)
Theorem create_scratch_disks_sized_by_capacity
    (W : Type) (h : Host W) (backup_id : string)
    (drives drives' : list (string * BackupDrive)) (w w' : W)
    (evs : list Event) :
  _create_scratch_disks h backup_id drives w = (Ok drives', w', evs) ->
  scratch_disks_created h backup_id drives drives' evs
  /\ map fst (created evs)
     = map (fun kv =>
              (vm_id h, (backup_id ++ "." ++ drive_name (snd kv))%string))
           (filter lacks_scratch_disk drives)
  /\ map fst drives' = map fst drives
  /\ Forall (fun kv => drive_scratch_disk (snd kv) <> None) drives'.
Proof.
  intros Hrun. apply create_scratch_disks_created in Hrun.
  split; [exact Hrun |]. eapply scratch_disks_created_names; eassumption.
Qed.

(** C8, witness: two drives without scratch disk on a storage that
    creates both. *)
Lemma create_scratch_disks_sized_by_capacity_witness :
  exists drives' w' evs,
    _create_scratch_disks (Sim.host Sim.calm) "b1" Sim.two_drives
                          Sim.empty_world
    = (Ok drives', w', evs)
    /\ scratch_disks_created (Sim.host Sim.calm) "b1" Sim.two_drives
                             drives' evs
    /\ created evs = [("vm-1", "b1.sda", 10737418240%Z);
                      ("vm-1", "b1.vda", 10737418240%Z)].
Proof.
  eexists. eexists. eexists. split; [vm_compute; reflexivity |].
  split; [| reflexivity].
  refine (proj1 (create_scratch_disks_sized_by_capacity
                   _ (Sim.host Sim.calm) "b1" Sim.two_drives _
                   Sim.empty_world _ _ _)).
  vm_compute. reflexivity.
Defined.

(** ** Rollback on the reference storage *)

Section SimStorage.
Variable sc : Sim.Scenario.

Lemma sim_remove owner name w :
  irs_remove_transient_disk (Sim.host sc) owner name w
  = if Sim.sc_remove_fails sc name
    then (RespError 100 "remove failed", w)
    else (RespOk tt,
          Sim.set_transient w (Sim.without name (Sim.transient w))).
Proof. reflexivity. Qed.

Lemma sim_list owner w :
  irs_list_transient_disks (Sim.host sc) owner w
  = (if Sim.sc_list_fails sc then RespError 100 "list failed"
     else RespOk (Sim.transient w), w).
Proof. reflexivity. Qed.

Lemma in_without x name l :
  In x (Sim.without name l) -> In x l /\ x <> name.
Proof.
  unfold Sim.without. intros H. apply filter_In in H as [Hin Hneq].
  split; [assumption |]. intros ->. rewrite String.eqb_refl in Hneq.
  discriminate.
Qed.

(** What is left after the removal loop was left by a refusal. *)
Lemma remove_listed_leftovers backup_id names : forall w r w' t,
  remove_listed (Sim.host sc) backup_id names w = (r, w', t) ->
  forall x, In x (Sim.transient w') ->
            In x (Sim.transient w)
            /\ (In x names -> Sim.sc_remove_fails sc x = true).
Proof.
  induction names as [| name rest IH]; intros w r w' t Hrun x Hx.
  - injection Hrun as _ <- _. split; [assumption | intros []].
  - cbn [remove_listed] in Hrun.
    apply bind_run in Hrun
      as [(res & w1 & t1 & t2 & Hrm & Hk & _) | (e & Hrm & _)].
    2:{ unfold remove_transient_disk, call_response in Hrm.
        destruct (irs_remove_transient_disk _ _ _ _); discriminate. }
    apply bind_run in Hk
      as [(u & w2 & t3 & t4 & Hlog & Hrest & _) | (e & Hlog & _)].
    2:{ destruct (is_error res); discriminate. }
    assert (w2 = w1) as ->.
    { destruct (is_error res); injection Hlog as _ <- _; reflexivity. }
    destruct (IH _ _ _ _ Hrest x Hx) as [Hin Hfail].
    unfold remove_transient_disk, call_response in Hrm.
    rewrite sim_remove in Hrm.
    destruct (Sim.sc_remove_fails sc name) eqn:Ef;
      injection Hrm as _ <- _.
    + split; [assumption |]. intros [<- | Hr]; auto.
    + apply in_without in Hin as [Hin Hneq].
      split; [assumption |]. intros [-> | Hr]; [congruence | auto].
Qed.

Lemma remove_scratch_disks_leftovers backup_id w r w' t :
  Sim.sc_list_fails sc = false ->
  _remove_scratch_disks (Sim.host sc) backup_id w = (r, w', t) ->
  forall x, In x (Sim.transient w') -> Sim.sc_remove_fails sc x = true.
Proof.
  intros Hlist Hrun x Hx.
  destruct (remove_scratch_disks_listed (Sim.host sc) backup_id w
              (Sim.transient w) w)
    as (w2 & t2 & Hrun2 & Hloop & _).
  { rewrite sim_list, Hlist. reflexivity. }
  rewrite Hrun2 in Hrun. injection Hrun as _ <- _.
  destruct (remove_listed_leftovers _ _ _ _ _ _ Hloop x Hx) as [Hin Hf].
  auto.
Qed.

Lemma create_scratch_disks_leftovers backup_id drives : forall w e w' evs,
  Sim.sc_list_fails sc = false ->
  _create_scratch_disks (Sim.host sc) backup_id drives w
  = (Raise e, w', evs) ->
  forall x, In x (Sim.transient w') -> Sim.sc_remove_fails sc x = true.
Proof.
  induction drives as [| [img drive] rest IH]; intros w e w' evs Hlist Hrun.
  - discriminate.
  - cbn [_create_scratch_disks] in Hrun.
    destruct (drive_scratch_disk drive) as [sd |].
    + apply bind_run in Hrun
        as [(rest' & w1 & t1 & t2 & _ & Hret & _) | (e0 & Hr & _)];
        [discriminate |].
      eapply IH; eassumption.
    + apply bind_run in Hrun
        as [(path & w1 & t1 & t2 & _ & Hk & _) | (e0 & Hc & _)].
      * apply bind_run in Hk
          as [(rest' & w2 & t3 & t4 & _ & Hret & _) | (e0 & Hr & _)];
          [discriminate |].
        eapply IH; eassumption.
      * apply try_except_run in Hc
          as [(a & _ & Ha) | (e1 & w0 & ta & tb & _ & Hh & _)];
          [discriminate |].
        apply bind_run in Hh
          as [(u & w2 & t3 & t4 & Hrm & Hret & _) | (e2 & Hrm & _)].
        -- injection Hret as _ <- _.
           eapply remove_scratch_disks_leftovers; eassumption.
        -- eapply remove_scratch_disks_leftovers; eassumption.
Qed.

End SimStorage.

(** C2 (amended).  When the creation of a scratch disk fails,
    [_create_scratch_disks] rolls back before it raises: it lists the
    transient disks of the VM once and asks for the removal of every
    disk listed, whichever backup the disk belongs to; a scratch disk
    supplied with the request is removed only if the storage lists it.
    After a listing that succeeds, the failure of the creation is what
    is raised; if the listing itself fails nothing is removed and the
    listing failure is raised in place of the creation failure.  On the
    reference storage, when the listing succeeds, the only transient
    disks left are those whose removal the storage refused: when it
    refuses none, none is left. *)
Theorem create_scratch_disks_rollback :
  (forall (W : Type) (h : Host W) backup_id drives (w w' : W) e evs,
      _create_scratch_disks h backup_id drives w = (Raise e, w', evs) ->
      exists pre res t,
        evs = pre ++ removing_scratch_disks backup_id
                  :: EvListTransientDisks (vm_id h) res :: t
        /\ Forall (fun ev => is_listing ev = false) pre
        /\ match res with
           | RespOk names =>
               removed t = names
               /\ Forall (fun ev => removal_call ev = true) t
               /\ exists img drive w0 w1 t0,
                    In (img, drive) drives
                    /\ drive_scratch_disk drive = None
                    /\ _create_transient_disk h backup_id drive w0
                       = (Raise e, w1, t0)
           | RespError _ message => t = [] /\ e = fetch_failed message
           end)
  /\ (forall sc backup_id drives w w' e evs,
         _create_scratch_disks (Sim.host sc) backup_id drives w
         = (Raise e, w', evs) ->
         Sim.sc_list_fails sc = false ->
         (forall name, In name (Sim.transient w') ->
                       Sim.sc_remove_fails sc name = true)
         /\ ((forall name, Sim.sc_remove_fails sc name = false) ->
             Sim.transient w' = [])).
Proof.
  split.
  - intros W h backup_id drives w w' e evs Hrun.
    eapply create_scratch_disks_rolls_back; eassumption.
  - intros sc backup_id drives w w' e evs Hrun Hlist.
    assert (Hleft : forall name, In name (Sim.transient w') ->
                                 Sim.sc_remove_fails sc name = true).
    { eapply create_scratch_disks_leftovers; eassumption. }
    split; [exact Hleft |]. intros Hnone.
    destruct (Sim.transient w') as [| x l]; [reflexivity |].
    specialize (Hleft x (or_introl eq_refl)). rewrite Hnone in Hleft.
    discriminate.
Qed.

(** C2, counterexample: the scratch disk of [sda] is created, the
    creation for [vda] fails, the storage refuses to remove the disk of
    [sda]; the failure is raised and [b1.sda] is still listed. *)
Lemma scratch_disk_survives_refused_removal :
  ~ scratch_disks_all_or_nothing.
Proof.
  intros H.
  destruct (_create_scratch_disks (Sim.host Sim.rollback_refused) "b1"
                                  Sim.two_drives Sim.empty_world)
    as [[[drives' | e] w'] evs] eqn:Er; [vm_compute in Er; discriminate |].
  assert (Hw : w' = {| Sim.transient := ["b1.sda"]; Sim.checkpoints := [];
                       Sim.backup_running := false |}).
  { vm_compute in Er. injection Er as _ <- _. reflexivity. }
  specialize (H Sim.rollback_refused "b1" Sim.two_drives Sim.empty_world
                w' w' e evs ["b1.sda"] Er).
  rewrite Hw in H. specialize (H eq_refl "b1.sda" (or_introl eq_refl)).
  vm_compute in H. discriminate.
Qed.

(** C2, witness: the same run on a storage that removes what it is
    asked to remove leaves no transient disk. *)
Lemma create_scratch_disks_rollback_witness :
  exists e w' evs,
    _create_scratch_disks (Sim.host Sim.second_creation_fails) "b1"
                          Sim.two_drives Sim.empty_world
    = (Raise e, w', evs)
    /\ Sim.transient w' = [].
Proof.
  eexists. eexists. eexists. split; [vm_compute; reflexivity |].
  refine (proj2 (proj2 create_scratch_disks_rollback
                   Sim.second_creation_fails "b1" Sim.two_drives
                   Sim.empty_world _ _ _ _ eq_refl) _).
  - vm_compute. reflexivity.
  - intros name. reflexivity.
Defined.

(** C10, witness: on a storage whose listing fails, the removal raises
    and removes nothing. *)
Lemma remove_scratch_disks_outcomes_witness :
  _remove_scratch_disks (Sim.host Sim.listing_fails) "b1"
                        Sim.backup_finished
  = (Raise (fetch_failed "list failed"), Sim.backup_finished,
     [removing_scratch_disks "b1";
      EvListTransientDisks "vm-1" (RespError 100 "list failed")]).
Proof.
  exact (proj1 (remove_scratch_disks_outcomes
                  _ (Sim.host Sim.listing_fails) "b1" Sim.backup_finished
                  Sim.backup_finished (RespError 100 "list failed")
                  eq_refl)).
Defined.

(** C9, witness: a request with [from_checkpoint_id] and no parent is
    rejected; the request of a chain-continuing backup with both is
    accepted. *)
Lemma BackupConfig_validation_witness :
  (exists e,
      BackupConfig_init Sim.platform
        (Sim.request (Some "cp1") (Some "cp2") None
                     [Sim.disk "img-1" (Some "incremental")])
      = Raise e /\ validation_error e)
  /\ (exists cfg,
         BackupConfig_init Sim.platform Sim.stale_parent_new_checkpoint
         = Ok cfg).
Proof.
  split.
  - apply (proj1 (BackupConfig_validation Sim.platform _)).
    split; [discriminate | reflexivity].
  - apply (proj2 (proj2 (proj1 (proj2 (proj2
             (BackupConfig_validation
                Sim.platform Sim.stale_parent_new_checkpoint))) eq_refl))).
    + intros [_ H]. discriminate H.
    + intros [H _]. discriminate H.
Defined.

(** ** The backup descriptor *)

Section BackupDescriptor.
Variable p : Platform.
Hypothesis Hkeeps : keeps_tag_and_attributes (disable_dynamic_ownership p).

Lemma backup_disk_element_describes from d sd :
  drive_scratch_disk d = Some sd ->
  exists entry,
    backup_disk_element p from d = Ok entry /\ describes_drive from d entry.
Proof.
  intros Hsd. unfold backup_disk_element. rewrite Hsd.
  eexists. split; [reflexivity |].
  set (scratch0 := if String.eqb (scratch_type sd) DISK_TYPE_BLOCK
                   then Element_new "scratch" [("dev", Some (scratch_path sd))]
                   else Element_new "scratch"
                          [("file", Some (scratch_path sd))]).
  destruct (Hkeeps false scratch0) as [Htag Hattrs].
  assert (Htag0 : el_tag scratch0 = "scratch").
  { unfold scratch0. destruct (String.eqb _ _); reflexivity. }
  assert (Hscratch : forall disk,
             el_children disk = [] ->
             children_tagged "scratch"
               (appendChild disk (disable_dynamic_ownership p false scratch0))
             = [disable_dynamic_ownership p false scratch0]).
  { intros [t a x c] Hc. simpl in Hc. subst c.
    unfold children_tagged. simpl. rewrite Htag, Htag0. reflexivity. }
  assert (Hrefs :
            if String.eqb (scratch_type sd) DISK_TYPE_BLOCK
            then attr "dev" (disable_dynamic_ownership p false scratch0)
                 = Some (Some (scratch_path sd))
                 /\ attr "file" (disable_dynamic_ownership p false scratch0)
                    = None
            else attr "file" (disable_dynamic_ownership p false scratch0)
                 = Some (Some (scratch_path sd))
                 /\ attr "dev" (disable_dynamic_ownership p false scratch0)
                    = None).
  { unfold attr. rewrite Hattrs. unfold scratch0.
    destruct (String.eqb (scratch_type sd) DISK_TYPE_BLOCK);
      split; reflexivity. }
  unfold describes_drive.
  destruct (drive_backup_mode d) as [mode |] eqn:Emode.
  - unfold is_incremental.
    destruct (String.eqb mode MODE_INCREMENTAL) eqn:Einc.
    + repeat split; try reflexivity.
      exists sd, (disable_dynamic_ownership p false scratch0).
      split; [exact Hsd |]. split; [reflexivity |].
      split; [apply Hscratch; reflexivity | exact Hrefs].
    + repeat split; try reflexivity.
      exists sd, (disable_dynamic_ownership p false scratch0).
      split; [exact Hsd |]. split; [reflexivity |].
      split; [apply Hscratch; reflexivity | exact Hrefs].
  - repeat split; try reflexivity.
    exists sd, (disable_dynamic_ownership p false scratch0).
    split; [exact Hsd |]. split; [reflexivity |].
    split; [apply Hscratch; reflexivity | exact Hrefs].
Qed.

Lemma backup_disk_elements_describe from ds : forall t a x c,
  Forall (fun d => drive_scratch_disk d <> None) ds ->
  exists entries,
    backup_disk_elements p from ds (Elem t a x c)
    = Ok (Elem t a x (c ++ entries))
    /\ Forall2 (describes_drive from) ds entries.
Proof.
  induction ds as [| d rest IH]; intros t a x c Hall.
  - exists []. rewrite app_nil_r. split; [reflexivity | constructor].
  - inversion Hall as [| ? ? Hd Hrest]; subst.
    destruct (drive_scratch_disk d) as [sd |] eqn:Esd; [| congruence].
    destruct (backup_disk_element_describes from d sd Esd)
      as (entry & Hentry & Hdesc).
    cbn [backup_disk_elements]. rewrite Hentry. cbn [rbind appendChild].
    destruct (IH t a x (c ++ [entry]) Hrest) as (entries & Hrun & Hall2).
    exists (entry :: entries). rewrite Hrun, <- app_assoc.
    split; [reflexivity | constructor; assumption].
Qed.

End BackupDescriptor.

(** C6.  For every address and every drive map whose drives have their
    scratch disks, what [create_backup_xml] returns is the serialization
    of a [domainbackup] element in pull mode whose [server] child
    declares the transport and the socket of the address, and whose
    [disks] child holds, for the drives in order, one entry each that
    names the drive and its scratch disk (by [dev] for a block scratch
    disk, by [file] otherwise), carries the backup mode exactly when the
    drive has one and, for an incremental drive, the checkpoint to diff
    from. *)
Theorem create_backup_xml_descriptor
    (p : Platform) (address : Address)
    (drives : list (string * BackupDrive))
    (from_checkpoint_id : option string) :
  keeps_tag_and_attributes (disable_dynamic_ownership p) ->
  Forall (fun d => drive_scratch_disk d <> None) (values drives) ->
  exists doc server entries,
    create_backup_xml p address drives from_checkpoint_id
    = tostring p doc
    /\ el_tag doc = "domainbackup"
    /\ attr "mode" doc = Some (Some "pull")
    /\ children_tagged "server" doc = [server]
    /\ attr "transport" server = Some (Some (transport address))
    /\ attr "socket" server = Some (Some (address_path address))
    /\ children_tagged "disks" doc = [Elem "disks" [] None entries]
    /\ Forall2 (describes_drive from_checkpoint_id) (values drives) entries.
Proof.
  intros Hkeeps Hall.
  destruct (backup_disk_elements_describe p Hkeeps from_checkpoint_id
              (values drives) "disks" [] None [] Hall)
    as (entries & Hrun & Hdesc).
  unfold create_backup_xml, backup_xml_tree.
  change (Element_new "disks" []) with (Elem "disks" [] None []).
  rewrite Hrun. cbn [rbind app].
  eexists. exists (Element_new "server"
                     [("transport", Some (transport address));
                      ("socket", Some (address_path address))]), entries.
  split; [reflexivity |].
  destruct from_checkpoint_id; repeat split; try reflexivity; assumption.
Qed.

(** C6, witness: the descriptor of a file-backed full drive and a
    block-backed incremental drive. *)
Lemma create_backup_xml_descriptor_witness :
  exists doc server entries,
    create_backup_xml Sim.platform (UnixAddress "/run/vdsm/backup/b1")
                      Sim.mixed_drives (Some "cp1")
    = tostring Sim.platform doc
    /\ el_tag doc = "domainbackup"
    /\ attr "mode" doc = Some (Some "pull")
    /\ children_tagged "server" doc = [server]
    /\ attr "transport" server = Some (Some "unix")
    /\ attr "socket" server = Some (Some "/run/vdsm/backup/b1")
    /\ children_tagged "disks" doc = [Elem "disks" [] None entries]
    /\ Forall2 (describes_drive (Some "cp1")) (values Sim.mixed_drives)
               entries.
Proof.
  apply (create_backup_xml_descriptor
           Sim.platform (UnixAddress "/run/vdsm/backup/b1")
           Sim.mixed_drives (Some "cp1")).
  - intros write_type [t a x c]. split; reflexivity.
  - repeat constructor; discriminate.
Defined.

(** ** The checkpoint descriptor *)

Section CheckpointDescriptor.

Lemma checkpoint_disk_elements_track to_id drives ds : forall t a x c,
  (forall disk, In disk ds -> checkpoint disk = true ->
                dict_get (img_id disk) drives <> None) ->
  exists entries,
    checkpoint_disk_elements to_id drives ds (Elem t a x c)
    = Ok (Elem t a x (c ++ entries))
    /\ Forall2 (tracks_disk to_id drives)
               (filter checkpoint ds) entries.
Proof.
  induction ds as [| disk rest IH]; intros t a x c Hall.
  - exists []. rewrite app_nil_r. split; [reflexivity | constructor].
  - cbn [checkpoint_disk_elements filter].
    destruct (checkpoint disk) eqn:Ecp.
    + destruct (dict_get (img_id disk) drives) as [drive |] eqn:Eg.
      2:{ exfalso. eapply Hall; [left; reflexivity | | ]; eassumption. }
      destruct (IH t a x (c ++ [bitmap_entry to_id (drive_name drive)]))
        as (entries & Hrun & Htrack).
      { intros d Hd. apply Hall. now right. }
      exists (bitmap_entry to_id (drive_name drive) :: entries).
      split.
      * rewrite <- app_assoc in Hrun. exact Hrun.
      * constructor; [| exact Htrack]. exists drive. auto.
    + apply IH. intros d Hd. apply Hall. now right.
Qed.

(** The shape of the element [create_checkpoint_xml] serializes. *)
Lemma checkpoint_xml_tree_shape cfg drives to_id :
  (forall disk, In disk (disks cfg) -> checkpoint disk = true ->
                dict_get (img_id disk) drives <> None) ->
  exists doc entries,
    checkpoint_xml_tree cfg drives to_id = Ok doc
    /\ el_tag doc = "domaincheckpoint"
    /\ children_tagged "name" doc = [text_element "name" to_id]
    /\ children_tagged "description" doc
       = [text_element "description"
            ("checkpoint for backup '" ++ backup_id cfg ++ "'")]
    /\ children_tagged "parent" doc
       = match parent_checkpoint_id cfg with
         | Some parent =>
             [Elem "parent" [] None [text_element "name" parent]]
         | None => []
         end
    /\ children_tagged "creationTime" doc
       = match creation_time cfg with
         | Some t =>
             if Z.eqb t 0 then []
             else [text_element "creationTime" (str_of_Z t)]
         | None => []
         end
    /\ children_tagged "disks" doc
       = match disks cfg with
         | [] => []
         | _ :: _ => [Elem "disks" [] None entries]
         end
    /\ Forall2 (tracks_disk to_id drives)
               (filter checkpoint (disks cfg)) entries.
Proof.
  intros Hall.
  destruct (checkpoint_disk_elements_track to_id drives (disks cfg)
              "disks" [] None [] Hall)
    as (entries & Hrun & Htrack).
  unfold checkpoint_xml_tree.
  change (Element_new "disks" []) with (Elem "disks" [] None []).
  rewrite Hrun. cbn [rbind app].
  destruct (parent_checkpoint_id cfg) as [parent |];
    destruct (creation_time cfg) as [t |];
    try (unfold truthy_Z; destruct (Z.eqb t 0));
    destruct (disks cfg) as [| d ds] eqn:Ed;
    (eexists; exists entries; split; [reflexivity |];
     repeat split; try reflexivity; exact Htrack).
Qed.

End CheckpointDescriptor.

(** X1.  The checkpoint descriptor in general: [create_checkpoint_xml]
    returns [None] exactly when [to_checkpoint_id] is unset; otherwise,
    when every disk flagged for the checkpoint has its drive in the map,
    it serializes a [domaincheckpoint] that names the checkpoint,
    embeds the backup id in its description, has the parent linkage
    when a parent is given, has the creation time when one is given
    and is not 0, and has a [disks] section, with one bitmap entry per
    flagged disk, exactly when the request lists disks. *)
Theorem create_checkpoint_xml_descriptor
    (p : Platform) (cfg : BackupConfig)
    (drives : list (string * BackupDrive)) :
  (create_checkpoint_xml p cfg drives = Ok None
   <-> to_checkpoint_id cfg = None)
  /\ forall to_id,
       to_checkpoint_id cfg = Some to_id ->
       (forall disk, In disk (disks cfg) -> checkpoint disk = true ->
                     dict_get (img_id disk) drives <> None) ->
       exists doc entries,
         create_checkpoint_xml p cfg drives
         = (xml <-- tostring p doc ;; Ok (Some xml))
         /\ el_tag doc = "domaincheckpoint"
         /\ children_tagged "name" doc = [text_element "name" to_id]
         /\ children_tagged "description" doc
            = [text_element "description"
                 ("checkpoint for backup '" ++ backup_id cfg ++ "'")]
         /\ children_tagged "parent" doc
            = match parent_checkpoint_id cfg with
              | Some parent =>
                  [Elem "parent" [] None [text_element "name" parent]]
              | None => []
              end
         /\ children_tagged "creationTime" doc
            = match creation_time cfg with
              | Some t =>
                  if Z.eqb t 0 then []
                  else [text_element "creationTime" (str_of_Z t)]
              | None => []
              end
         /\ children_tagged "disks" doc
            = match disks cfg with
              | [] => []
              | _ :: _ => [Elem "disks" [] None entries]
              end
         /\ Forall2 (tracks_disk to_id drives)
                    (filter checkpoint (disks cfg)) entries.
Proof.
  split.
  - unfold create_checkpoint_xml.
    destruct (to_checkpoint_id cfg) as [to_id |]; [| tauto].
    split; [| discriminate].
    destruct (checkpoint_xml_tree cfg drives to_id) as [doc |];
      [| discriminate].
    simpl. destruct (tostring p doc); discriminate.
  - intros to_id Hto Hall.
    destruct (checkpoint_xml_tree_shape cfg drives to_id Hall)
      as (doc & entries & Hrun & Hshape).
    exists doc, entries. split; [| exact Hshape].
    unfold create_checkpoint_xml. rewrite Hto, Hrun. reflexivity.
Qed.

(** C7, at the failing input.  A creation time of 0 passes the
    validation of the request, and the descriptor built for it has no
    [creationTime] element, while the same request with the creation
    time 1 gets one. *)
Theorem create_checkpoint_xml_drops_zero_creation_time :
  creation_time (Sim.config_of (Sim.checkpoint_request 0)) = Some 0%Z
  /\ create_checkpoint_xml Sim.platform
       (Sim.config_of (Sim.checkpoint_request 0))
       [("img-1", Sim.provisioned "sda" None "file")]
     = Ok (Some
             "<domaincheckpoint><name>cp2</name><description>checkpoint for backup 'b1'</description><parent><name>cp1</name></parent><disks><disk name='sda' checkpoint='bitmap' bitmap='cp2'></disk></disks></domaincheckpoint>")
  /\ create_checkpoint_xml Sim.platform
       (Sim.config_of (Sim.checkpoint_request 1))
       [("img-1", Sim.provisioned "sda" None "file")]
     = Ok (Some
             "<domaincheckpoint><name>cp2</name><description>checkpoint for backup 'b1'</description><parent><name>cp1</name></parent><creationTime>1</creationTime><disks><disk name='sda' checkpoint='bitmap' bitmap='cp2'></disk></disks></domaincheckpoint>").
Proof. repeat split; vm_compute; reflexivity. Qed.

(** X1, witness: a checkpoint [cp2] on top of [cp1] with the creation
    time 1 and one flagged disk. *)
Lemma create_checkpoint_xml_descriptor_witness :
  exists doc entries,
    create_checkpoint_xml Sim.platform
      (Sim.config_of (Sim.checkpoint_request 1))
      [("img-1", Sim.provisioned "sda" None "file")]
    = (xml <-- tostring Sim.platform doc ;; Ok (Some xml))
    /\ el_tag doc = "domaincheckpoint"
    /\ children_tagged "name" doc = [text_element "name" "cp2"]
    /\ children_tagged "description" doc
       = [text_element "description" "checkpoint for backup 'b1'"]
    /\ children_tagged "parent" doc
       = [Elem "parent" [] None [text_element "name" "cp1"]]
    /\ children_tagged "creationTime" doc
       = [text_element "creationTime" "1"]
    /\ children_tagged "disks" doc = [Elem "disks" [] None entries]
    /\ Forall2 (tracks_disk "cp2"
                  [("img-1", Sim.provisioned "sda" None "file")])
               (filter checkpoint
                  (disks (Sim.config_of (Sim.checkpoint_request 1))))
               entries.
Proof.
  apply (proj2 (create_checkpoint_xml_descriptor
                  Sim.platform (Sim.config_of (Sim.checkpoint_request 1))
                  [("img-1", Sim.provisioned "sda" None "file")])
               "cp2" eq_refl).
  intros disk Hin _. vm_compute in Hin. destruct Hin as [<- | []].
  vm_compute. discriminate.
Defined.

(** * The further operations *)

(** ** Listing and dumping checkpoints *)

Lemma leaf_name_last names : leaf_name names = last (map Some names) None.
Proof.
  induction names as [| a [| b rest] IH]; try reflexivity.
  change (leaf_name (b :: rest) = last (map Some (b :: rest)) None).
  exact IH.
Qed.

(** X2.  [list_checkpoints] makes one call, the topologically ordered
    listing, and returns the names in the order of the answer; on the
    same state the leaf that the parent check of [start_backup] reads is
    the last of these names, and [None] when there is none.  A libvirt
    error of the listing leaves both as a checkpoint error, any other
    exception as it is. *)
Theorem list_checkpoints_outcomes (W : Type) (h : Host W) (w : W) :
  let answer :=
    dom_listAllCheckpoints h [VIR_DOMAIN_CHECKPOINT_LIST_TOPOLOGICAL] w in
  let listing :=
    EvListAllCheckpoints [VIR_DOMAIN_CHECKPOINT_LIST_TOPOLOGICAL]
                         (fst answer) in
  match fst answer with
  | Ok names =>
      list_checkpoints h w = (Ok names, snd answer, [listing])
      /\ _get_leaf_checkpoint_name h w
         = (Ok (last (map Some names) None), snd answer, [listing])
  | Raise e =>
      list_checkpoints h w
      = (Raise (as_CheckpointError
                  "Failed to fetch defined checkpoints list: " e),
         snd answer, [listing])
      /\ _get_leaf_checkpoint_name h w
         = (Raise (as_CheckpointError
                     "Failed to fetch defined leaf checkpoint: " e),
            snd answer, [listing])
  end.
Proof.
  cbv zeta.
  cbv beta iota zeta delta [list_checkpoints _get_leaf_checkpoint_name
                            except_libvirtError try_except bind
                            listAllCheckpoints call ret raise].
  destruct (dom_listAllCheckpoints h _ w) as [[names | e] w1];
    cbv beta iota zeta delta [fst snd].
  - rewrite leaf_name_last. split; reflexivity.
  - destruct e; split; reflexivity.
Qed.

Section Describe.
Context {W : Type}.
Variable h : Host W.

(** The two calls that fetch a description. *)
Lemma fetch_description_run {A} checkpoint_id (k : string -> M W A) w :
  exists g w1 t,
    description_fetched checkpoint_id t g
    /\ bind (checkpointLookupByName h checkpoint_id)
            (fun checkpoint => bind (getXMLDesc h checkpoint) k) w
       = match g with
         | Ok xml => let '(r, w2, t2) := k xml w1 in (r, w2, t ++ t2)
         | Raise e => (Raise e, w1, t)
         end.
Proof.
  cbv beta iota zeta delta [bind checkpointLookupByName getXMLDesc call].
  destruct (dom_checkpointLookupByName h checkpoint_id w) as [[cp | e] w1].
  - destruct (checkpoint_getXMLDesc h cp w1) as [[xml | e] w2].
    + exists (Ok xml), w2, [EvCheckpointLookupByName checkpoint_id (Ok cp);
                           EvCheckpointGetXMLDesc cp (Ok xml)].
      split; [right; exists cp; reflexivity |].
      destruct (k xml w2) as [[r w3] t3]. reflexivity.
    + exists (Raise e), w2, [EvCheckpointLookupByName checkpoint_id (Ok cp);
                            EvCheckpointGetXMLDesc cp (Raise e)].
      split; [right; exists cp; reflexivity | reflexivity].
  - exists (Raise e), w1, [EvCheckpointLookupByName checkpoint_id (Raise e)].
    split; [left; exists e; split; reflexivity | reflexivity].
Qed.

Lemma dump_checkpoint_run checkpoint_id w :
  exists g w1 t,
    description_fetched checkpoint_id t g
    /\ dump_checkpoint h checkpoint_id w
       = (match g with
          | Ok xml => Ok xml
          | Raise e => Raise (dump_error e)
          end, w1, t).
Proof.
  destruct (fetch_description_run checkpoint_id (fun xml => ret xml) w)
    as (g & w1 & t & Hf & Hrun).
  exists g, w1, t. split; [exact Hf |].
  unfold dump_checkpoint, except_libvirtError, try_except. rewrite Hrun.
  destruct g as [xml | e].
  - cbv beta iota zeta delta [ret]. now rewrite app_nil_r.
  - destruct e as [| | | | | | | code msg | | | |];
      try (cbv beta iota zeta delta [raise]; now rewrite app_nil_r).
    destruct code; cbv beta iota zeta delta [virErrorNumber_eqb raise];
      now rewrite app_nil_r.
Qed.

Lemma add_checkpoint_xml_run backup_id checkpoint_id result w :
  exists g w1 t,
    description_fetched checkpoint_id t g
    /\ _add_checkpoint_xml h backup_id checkpoint_id result w
       = match g with
         | Ok xml => (Ok (with_checkpoint result xml), w1, t)
         | Raise (libvirtError code msg) =>
             (Ok result, w1,
              t ++ [description_failure_logged backup_id checkpoint_id
                                               code msg])
         | Raise e => (Raise e, w1, t)
         end.
Proof.
  destruct (fetch_description_run checkpoint_id
              (fun xml => ret (with_checkpoint result xml)) w)
    as (g & w1 & t & Hf & Hrun).
  exists g, w1, t. split; [exact Hf |].
  unfold _add_checkpoint_xml, except_libvirtError, try_except.
  change (fun xml : string =>
            ret {| result_disks := result_disks result;
                   result_checkpoint := Some xml |})
    with (fun xml : string => @ret W _ (with_checkpoint result xml)).
  rewrite Hrun.
  destruct g as [xml | e].
  - cbv beta iota zeta delta [ret]. now rewrite app_nil_r.
  - destruct e as [| | | | | | | code msg | | | |];
      try (cbv beta iota zeta delta [raise]; now rewrite app_nil_r).
    unfold description_failure_logged.
    destruct (virErrorNumber_eqb code VIR_ERR_NO_DOMAIN_CHECKPOINT);
      reflexivity.
Qed.

Lemma add_checkpoint_xml_described backup_id id result w r w' post :
  _add_checkpoint_xml h backup_id id result w = (r, w', post) ->
  checkpoint_described backup_id (Some id) result post r.
Proof.
  intros Hrun.
  destruct (add_checkpoint_xml_run backup_id id result w)
    as (g & w1 & td & Hf & Hrun').
  rewrite Hrun in Hrun'. exists g, td. split; [exact Hf |].
  destruct g as [xml | e]; [injection Hrun' as -> _ ->; auto |].
  destruct e; injection Hrun' as -> _ ->; auto.
Qed.

End Describe.

(** X3.  [dump_checkpoint] looks the checkpoint up and, only when it is
    found, asks for its description, which is what it returns.  A
    libvirt error of either call that says that there is no such
    checkpoint leaves as [NoSuchCheckpointError]; every other
    exception, a libvirt error with another code included, leaves as it
    was raised. *)
Theorem dump_checkpoint_outcomes
    (W : Type) (h : Host W) (checkpoint_id : string) (w : W) :
  exists g,
    description_fetched checkpoint_id
                        (events_of (dump_checkpoint h checkpoint_id) w) g
    /\ outcome_of (dump_checkpoint h checkpoint_id) w
       = match g with
         | Ok xml => Ok xml
         | Raise e => Raise (dump_error e)
         end.
Proof.
  destruct (dump_checkpoint_run h checkpoint_id w)
    as (g & w1 & t & Hf & Hrun).
  exists g. unfold events_of, outcome_of. rewrite Hrun.
  split; [exact Hf | reflexivity].
Qed.

(** X4.  [_add_checkpoint_xml] makes the same two calls.  It adds the
    description to the result when both succeed; a libvirt error of
    either call is logged and the result is returned as it was, so a
    failure to fetch the description never fails the operation that
    reports it; only an exception that is not a libvirt error leaves.
    The URLs of the result are never changed. *)
Theorem add_checkpoint_xml_outcomes
    (W : Type) (h : Host W) (backup_id checkpoint_id : string)
    (result : BackupResult) (w : W) :
  exists g t,
    description_fetched checkpoint_id t g
    /\ match g with
       | Ok xml =>
           events_of (_add_checkpoint_xml h backup_id checkpoint_id result) w
           = t
           /\ outcome_of (_add_checkpoint_xml h backup_id checkpoint_id
                                              result) w
              = Ok {| result_disks := result_disks result;
                      result_checkpoint := Some xml |}
       | Raise (libvirtError code msg) =>
           events_of (_add_checkpoint_xml h backup_id checkpoint_id result) w
           = t ++ [description_failure_logged backup_id checkpoint_id
                                              code msg]
           /\ outcome_of (_add_checkpoint_xml h backup_id checkpoint_id
                                              result) w
              = Ok result
       | Raise e =>
           events_of (_add_checkpoint_xml h backup_id checkpoint_id result) w
           = t
           /\ outcome_of (_add_checkpoint_xml h backup_id checkpoint_id
                                              result) w
              = Raise e
       end.
Proof.
  destruct (add_checkpoint_xml_run h backup_id checkpoint_id result w)
    as (g & w1 & t & Hf & Hrun).
  exists g, t. split; [exact Hf |].
  unfold events_of, outcome_of. rewrite Hrun.
  destruct g as [xml | e]; [split; reflexivity |].
  destruct e; split; reflexivity.
Qed.

(** ** Checkpoint configs *)

Lemma uuid_ok_required p name v :
  uuid_ok p true v = true -> exists s, prop_UUID_required p name v = Ok s.
Proof.
  destruct v as [s |]; simpl; [| discriminate].
  destruct (UUID_validate p s) as [s' |]; simpl; [eauto | discriminate].
Qed.

(** X5.  A checkpoint entry needs a well-formed id and an XML or a
    backup config.  An entry with neither is rejected; a backup config
    is validated also when an XML is given, and its rejection is the
    rejection of the entry; in every other case the entry is accepted
    with its XML and its validated config. *)
Theorem CheckpointConfig_validation (p : Platform) (c : checkpoint_dict) :
  (k_xml c = None -> k_config c = None ->
   exists e,
     CheckpointConfig_init p c = Raise e
     /\ (uuid_ok p true (k_id c) = true ->
         e = CheckpointError
               "Cannot redefine checkpoint without checkpoint XML or backup config"))
  /\ (forall b e,
         k_config c = Some b -> BackupConfig_init p b = Raise e ->
         exists e',
           CheckpointConfig_init p c = Raise e'
           /\ (uuid_ok p true (k_id c) = true -> e' = e))
  /\ (forall cfg,
         CheckpointConfig_init p c = Ok cfg <->
         prop_UUID_required p "id" (k_id c) = Ok (cp_id cfg)
         /\ cp_xml cfg = k_xml c
         /\ match k_config c with
            | Some b =>
                exists bc,
                  BackupConfig_init p b = Ok bc /\ cp_config cfg = Some bc
            | None => cp_config cfg = None /\ k_xml c <> None
            end).
Proof.
  unfold CheckpointConfig_init. split; [| split].
  - intros Hx Hc. rewrite Hx, Hc.
    destruct (prop_UUID_required p "id" (k_id c)) as [cid | e] eqn:E; simpl.
    + eexists. split; [reflexivity | reflexivity].
    + exists e. split; [reflexivity |].
      intros Hok. apply (uuid_ok_required p "id") in Hok as [s Hs].
      congruence.
  - intros b e Hc Hb. rewrite Hc, Hb.
    destruct (prop_UUID_required p "id" (k_id c)) as [cid | e1] eqn:E; simpl.
    + exists e. split; [reflexivity | reflexivity].
    + exists e1. split; [reflexivity |].
      intros Hok. apply (uuid_ok_required p "id") in Hok as [s Hs].
      congruence.
  - intros cfg.
    destruct (prop_UUID_required p "id" (k_id c)) as [cid | e1]; simpl.
    2:{ split; [discriminate | intros [H _]; discriminate]. }
    destruct (k_config c) as [b |]; simpl.
    + destruct (BackupConfig_init p b) as [bc | e]; simpl.
      * split.
        -- intros [= <-]. simpl. eauto.
        -- intros ([= ->] & Hx & bc' & [= <-] & Hc).
           destruct cfg as [i x cf]. simpl in *. now subst.
      * split; [discriminate | intros (_ & _ & bc & Hbc & _); discriminate].
    + destruct (k_xml c) as [x |]; simpl.
      * split.
        -- intros [= <-]. simpl. repeat split. discriminate.
        -- intros ([= ->] & Hx & Hc & _).
           destruct cfg as [i x' cf]. simpl in *. now subst.
      * split; [discriminate | intros (_ & _ & _ & H); congruence].
Qed.

(** ** Runs that record the two further calls *)

Section CallFacts.
Context {W : Type}.

Lemma xbind_run {A B} (m : MX W A) (f : A -> MX W B) w r w' evs :
  xbind m f w = (r, w', evs) ->
  (exists a w1 t1 t2,
      m w = (Ok a, w1, t1) /\ f a w1 = (r, w', t2) /\ evs = t1 ++ t2)
  \/ (exists e, m w = (Raise e, w', evs) /\ r = Raise e).
Proof.
  unfold xbind. destruct (m w) as [[[a | e] w1] t1].
  - destruct (f a w1) as [[r2 w2] t2] eqn:Ef. intros H.
    injection H as <- <- <-. left. exists a, w1, t1, t2. auto.
  - intros H. injection H as <- <- <-. right. exists e. auto.
Qed.

Lemma xtry_except_run {A} (m : MX W A) (handler : exn -> MX W A)
      w r w' evs :
  xtry_except m handler w = (r, w', evs) ->
  (exists a, m w = (Ok a, w', evs) /\ r = Ok a)
  \/ (exists e w1 t1 t2,
         m w = (Raise e, w1, t1) /\ handler e w1 = (r, w', t2)
         /\ evs = t1 ++ t2).
Proof.
  unfold xtry_except. destruct (m w) as [[[a | e] w1] t1].
  - intros H. injection H as <- <- <-. left. exists a. auto.
  - destruct (handler e w1) as [[r2 w2] t2] eqn:Eh. intros H.
    injection H as <- <- <-. right. exists e, w1, t1, t2. auto.
Qed.

Lemma embed_run {A} (m : M W A) w r w' evs :
  embed m w = (r, w', evs) ->
  exists t, m w = (r, w', t) /\ evs = map Boundary t.
Proof.
  unfold embed. destruct (m w) as [[r1 w1] t1]. intros H.
  injection H as <- <- <-. eauto.
Qed.

Lemma redefined_app t1 t2 :
  redefined (t1 ++ t2) = redefined t1 ++ redefined t2.
Proof.
  induction t1 as [| e t1 IH]; simpl; [reflexivity |].
  destruct e; simpl; rewrite ?IH; reflexivity.
Qed.

Lemma redefined_boundary t : redefined (map Boundary t) = [].
Proof. induction t as [| e t IH]; simpl; [reflexivity | exact IH]. Qed.

End CallFacts.

(** ** Redefining checkpoints *)

Section Redefine.
Context {W : Type}.
Variable h : Host W.
Variable hx : HostExt W.
Variable p : Platform.
Variable px : PlatformExt.

Lemma CheckpointConfig_init_sound c cfg :
  CheckpointConfig_init p c = Ok cfg ->
  id_of p c = Some (cp_id cfg)
  /\ cp_xml cfg = k_xml c
  /\ match k_config c with
     | Some b =>
         exists bc, BackupConfig_init p b = Ok bc /\ cp_config cfg = Some bc
     | None => cp_config cfg = None
     end.
Proof.
  unfold CheckpointConfig_init, id_of.
  destruct (prop_UUID_required p "id" (k_id c)) as [cid | e1]; simpl;
    [| discriminate].
  destruct (k_config c) as [b |]; simpl.
  - destruct (BackupConfig_init p b) as [bc | e]; simpl; [| discriminate].
    intros [= <-]. simpl. eauto.
  - destruct (k_xml c) as [x |]; simpl; [| discriminate].
    intros [= <-]. simpl. auto.
Qed.

(** The XML that is submitted for a validated entry. *)
Lemma checkpoint_xml_run c cfg w r w' evs :
  CheckpointConfig_init p c = Ok cfg ->
  match cp_config cfg with
  | Some config =>
      xbind (embed (_get_disks_drives h config))
            (fun drives =>
               embed (lift (create_checkpoint_xml p config drives)))
  | None => xret (cp_xml cfg)
  end w = (r, w', evs) ->
  redefined evs = []
  /\ forall xml a, r = Ok xml ->
       submitted_for p px c (xml, redefine_flags px, a).
Proof.
  intros Hc Hrun.
  apply CheckpointConfig_init_sound in Hc as (_ & Hx & Hconf).
  unfold submitted_for. cbn [fst snd].
  destruct (k_config c) as [b |].
  - destruct Hconf as (bc & Hb & Hcfg). rewrite Hcfg in Hrun.
    apply xbind_run in Hrun
      as [(drives & w1 & t1 & t2 & Hd & Hx' & ->) | (e & Hd & ->)].
    + apply embed_run in Hd as (td & Hd & ->).
      apply embed_run in Hx' as (tx & Hx' & ->).
      injection Hx' as <- <- <-.
      split; [rewrite redefined_app, !redefined_boundary; reflexivity |].
      intros xml a Hr. split; [reflexivity |]. eauto.
    + apply embed_run in Hd as (td & Hd & ->).
      split; [apply redefined_boundary | discriminate].
  - rewrite Hconf in Hrun. injection Hrun as <- <- <-.
    split; [reflexivity |].
    intros xml a [= <-]. split; [reflexivity | exact Hx].
Qed.

(** One round of the loop: it stops before the call; or it makes the
    call, and goes on after a success, reports a libvirt error, or
    raises any other exception. *)
Lemma redefine_step c rest ids w r w' evs :
  redefine_checkpoints_loop h hx p px (c :: rest) ids w = (r, w', evs) ->
  (exists e, r = Raise e /\ redefined evs = [])
  \/ (exists cid submission,
         id_of p c = Some cid
         /\ submitted_for p px c submission
         /\ ((snd submission = Ok tt
              /\ exists w1 t1 t2,
                   redefine_checkpoints_loop h hx p px rest (ids ++ [cid]) w1
                   = (r, w', t2)
                   /\ evs = t1 ++ t2 /\ redefined t1 = [submission])
             \/ (exists code msg,
                    snd submission = Raise (libvirtError code msg)
                    /\ r = Ok {| checkpoint_ids := ids;
                                 error := Some (code, msg) |}
                    /\ redefined evs = [submission])
             \/ (exists e,
                    snd submission = Raise e /\ is_libvirtError e = false
                    /\ r = Raise e /\ redefined evs = [submission]))).
Proof.
  cbn [redefine_checkpoints_loop]. intros Hrun.
  apply xbind_run in Hrun
    as [(cfg & w1 & t1 & t2 & Hc & Hrun & ->) | (e & Hc & ->)].
  2:{ apply embed_run in Hc as (t & Hc & ->). left. exists e.
      split; [reflexivity | apply redefined_boundary]. }
  apply embed_run in Hc as (t & Hc & ->). injection Hc as Hc <- <-.
  cbn [map app].
  apply xbind_run in Hrun
    as [(u & w2 & t3 & t4 & Hl & Hrun & ->) | (e & Hl & ->)].
  2:{ apply embed_run in Hl as (t & Hl & _). discriminate. }
  apply embed_run in Hl as (t & Hl & ->). injection Hl as _ <- <-.
  apply xbind_run in Hrun
    as [(xml & w3 & t5 & t6 & Hx & Hrun & ->) | (e & Hx & ->)].
  2:{ apply (checkpoint_xml_run c cfg) in Hx as [Hx _]; [| exact Hc].
      left. exists e. split; [reflexivity |]. cbn [map app redefined].
      exact Hx. }
  apply (checkpoint_xml_run c cfg) in Hx as [Hq Hsub]; [| exact Hc].
  pose proof (CheckpointConfig_init_sound c cfg Hc) as (Hid & _).
  right. exists (cp_id cfg).
  apply xbind_run in Hrun
    as [(failure & w4 & t7 & t8 & Ht & Hrun & ->) | (e & Ht & ->)].
  - apply xtry_except_run in Ht
      as [(a & Ht & [= <-]) | (e & w5 & ta & tb & Ht & Hh & ->)].
    + (* the call succeeded *)
      apply xbind_run in Ht
        as [(u' & w6 & tc & td & Hcall & Hret & ->) | (e & _ & He)];
        [| discriminate].
      injection Hret as <- <- <-.
      unfold checkpointCreateXML, xcall in Hcall.
      destruct (dom_checkpointCreateXML hx xml (redefine_flags px) w3)
        as [a w7] eqn:Ea.
      injection Hcall as -> <- <-.
      exists (xml, redefine_flags px, Ok u'). split; [exact Hid |].
      split; [apply Hsub; reflexivity |]. left. destruct u'.
      split; [reflexivity |].
      eexists. exists (map Boundary
                    [EvLog INFO "Redefine VM %r checkpoint %r"
                           [vm_id h; cp_id cfg]]
                  ++ t5 ++ [EvCheckpointCreateXML xml (redefine_flags px)
                                                  (Ok tt)] ++ []), t8.
      split; [exact Hrun |]. split.
      * cbn [map app]. rewrite <- !app_assoc. reflexivity.
      * cbn [map app redefined]. rewrite redefined_app, Hq. reflexivity.
    + (* the call raised *)
      apply xbind_run in Ht
        as [(u' & w6 & tc & td & _ & Hret & _) | (e' & Hcall & [= <-])].
      { injection Hret as Hret _ _. discriminate. }
      unfold checkpointCreateXML, xcall in Hcall.
      destruct (dom_checkpointCreateXML hx xml (redefine_flags px) w3)
        as [a w7] eqn:Ea.
      injection Hcall as -> <- <-.
      exists (xml, redefine_flags px, Raise e). split; [exact Hid |].
      split; [apply Hsub; reflexivity |]. right. left.
      destruct e; try (injection Hh as Hh _ _; discriminate).
      apply xbind_run in Hh
        as [(u' & w6 & tc & td & Hlog & Hret & ->) | (e' & Hlog & _)].
      2:{ apply embed_run in Hlog as (t & Hlog & _). discriminate. }
      apply embed_run in Hlog as (t & Hlog & ->).
      injection Hlog as _ <- <-. injection Hret as <- <- <-.
      injection Hrun as <- <- <-.
      exists code, msg. split; [reflexivity |]. split; [reflexivity |].
      cbn [map app redefined]. rewrite !redefined_app, Hq. reflexivity.
  - apply xtry_except_run in Ht
      as [(a & _ & Ha) | (e0 & w5 & ta & tb & Ht & Hh & ->)];
      [discriminate |].
    apply xbind_run in Ht
      as [(u' & w6 & tc & td & _ & Hret & _) | (e' & Hcall & [= <-])].
    { injection Hret as Hret _ _. discriminate. }
    unfold checkpointCreateXML, xcall in Hcall.
    destruct (dom_checkpointCreateXML hx xml (redefine_flags px) w3)
      as [a w7] eqn:Ea.
    injection Hcall as -> <- <-.
    exists (xml, redefine_flags px, Raise e0). split; [exact Hid |].
    split; [apply Hsub; reflexivity |]. right. right.
    destruct e0;
      try (injection Hh as <- <- <-; eexists;
           split; [reflexivity |]; split; [reflexivity |];
           split; [reflexivity |];
           cbn [map app redefined]; rewrite !redefined_app, Hq;
           reflexivity).
    apply xbind_run in Hh
      as [(u' & w6 & tc & td & _ & Hret & _) | (e' & Hlog & _)].
    + injection Hret as Hret _ _. discriminate.
    + apply embed_run in Hlog as (t & Hlog & _). discriminate.
Qed.

End Redefine.

Section RedefineLoop.
Context {W : Type}.
Variable h : Host W.
Variable hx : HostExt W.
Variable p : Platform.
Variable px : PlatformExt.

Lemma redefine_loop_returns cps : forall ids w res w' evs,
  redefine_checkpoints_loop h hx p px cps ids w = (Ok res, w', evs) ->
  exists done,
    checkpoint_ids res = ids ++ done
    /\ map Some done = map (id_of p) (firstn (List.length done) cps)
    /\ map snd (redefined evs)
       = repeat (Ok tt) (List.length done) ++ failure_of (error res)
    /\ Forall2 (submitted_for p px)
               (firstn (List.length (redefined evs)) cps) (redefined evs)
    /\ (error res = None -> List.length done = List.length cps).
Proof.
  induction cps as [| c rest IH]; intros ids w res w' evs Hrun.
  - injection Hrun as <- <- <-. exists []. cbn.
    rewrite app_nil_r. repeat split; constructor.
  - apply redefine_step in Hrun
      as [(e & He & _) | (cid & sub & Hid & Hsub &
                          [(Hok & w1 & t1 & t2 & Hrest & -> & Ht1)
                          | [(code & msg & Hans & [= ->] & Hq)
                            | (e & _ & _ & He & _)]])];
      try discriminate.
    + apply IH in Hrest as (done & Hids & Hdone & Hans & Hall & Hnone).
      exists (cid :: done). rewrite redefined_app, Ht1. cbn.
      rewrite Hids, <- app_assoc, Hid, Hdone, Hans, Hok.
      split; [reflexivity |]. split; [reflexivity |].
      split; [reflexivity |]. split.
      * constructor; assumption.
      * intros Hn. now rewrite Hnone.
    + exists []. rewrite Hq. cbn. rewrite app_nil_r, Hans.
      split; [reflexivity |]. split; [reflexivity |].
      split; [reflexivity |]. split.
      * constructor; [assumption | constructor].
      * discriminate.
Qed.

End RedefineLoop.

(** X7.  When [redefine_checkpoints] raises, the entries before the
    one that made it raise have been redefined: every call but
    possibly the last has succeeded, and nothing reports them.  The
    exception comes from the validation of an entry, from the lookup of
    its drives or from the descriptor builder, or it is the exception
    of the last call, which then is not a libvirt error. *)
Theorem redefine_checkpoints_raises
    (W : Type) (h : Host W) (hx : HostExt W) (p : Platform)
    (px : PlatformExt) (cps : list checkpoint_dict) (w w' : W)
    (e : exn) (evs : list Call) :
  redefine_checkpoints h hx p px cps w = (Raise e, w', evs) ->
  exists n,
    (n < List.length cps)%nat
    /\ (map snd (redefined evs) = repeat (Ok tt) n
        \/ (map snd (redefined evs) = repeat (Ok tt) n ++ [Raise e]
            /\ is_libvirtError e = false))
    /\ Forall2 (submitted_for p px)
               (firstn (List.length (redefined evs)) cps) (redefined evs).
Proof.
  unfold redefine_checkpoints. generalize (@nil string) as ids.
  revert w e w' evs.
  induction cps as [| c rest IH]; intros w e w' evs ids Hrun.
  - discriminate.
  - apply redefine_step in Hrun
      as [(e' & _ & Hq) | (cid & sub & Hid & Hsub &
                           [(Hok & w1 & t1 & t2 & Hrest & -> & Ht1)
                           | [(code & msg & _ & Hr & _)
                             | (e' & Hans & Hlib & [= <-] & Hq)]])];
      try discriminate.
    + exists 0%nat. rewrite Hq. cbn.
      split; [lia |]. split; [auto | constructor].
    + apply IH in Hrest as (n & Hn & Hans & Hall).
      exists (S n). rewrite redefined_app, Ht1. cbn. rewrite Hok.
      split; [lia |]. split.
      * destruct Hans as [-> | [-> Hlib]]; [left | right; split]; auto.
      * constructor; assumption.
    + exists 0%nat. rewrite Hq. cbn. rewrite Hans.
      split; [lia |]. split; [right; split; auto |].
      constructor; [assumption | constructor].
Qed.

(** X7, witness: the second entry has neither XML nor config; the
    first one has been redefined when the error is raised. *)
Lemma redefine_checkpoints_raises_witness :
  exists e w' evs,
    redefine_checkpoints (Sim.host Sim.calm)
      (SimCalls.host_ext SimCalls.accepts [])
      Sim.platform (SimCalls.platform_ext [])
      [SimCalls.entry "a"; SimCalls.bare_entry "b"] Sim.empty_world
    = (Raise e, w', evs)
    /\ e = CheckpointError
             "Cannot redefine checkpoint without checkpoint XML or backup config"
    /\ map snd (redefined evs) = [Ok tt]
    /\ exists n,
         (n < 2)%nat
         /\ (map snd (redefined evs) = repeat (Ok tt) n
             \/ (map snd (redefined evs) = repeat (Ok tt) n ++ [Raise e]
                 /\ is_libvirtError e = false))
         /\ Forall2 (submitted_for Sim.platform (SimCalls.platform_ext []))
                    (firstn (List.length (redefined evs))
                            [SimCalls.entry "a"; SimCalls.bare_entry "b"])
                    (redefined evs).
Proof.
  eexists _, _, _. split; [vm_compute; reflexivity |].
  split; [reflexivity |]. split; [reflexivity |].
  refine (redefine_checkpoints_raises
            _ (Sim.host Sim.calm) (SimCalls.host_ext SimCalls.accepts [])
            Sim.platform (SimCalls.platform_ext [])
            [SimCalls.entry "a"; SimCalls.bare_entry "b"]
            Sim.empty_world _ _ _ _).
  vm_compute. reflexivity.
Defined.

(** ** Backup information *)

Section BackupInfo.
Context {W : Type}.
Variable h : Host W.
Variable hx : HostExt W.
Variable p : Platform.
Variable px : PlatformExt.

Lemma parse_backup_disks_run backup_xml path ds : forall urls w,
  exists found,
    map (fun kv => Some (fst kv)) found
    = firstn (List.length found) (map (get "name") ds)
    /\ match ends_with (parse_backup_disks hx p backup_xml path ds urls) w
       with
       | Ok urls' =>
           calls_of (parse_backup_disks hx p backup_xml path ds urls) w
           = map device_found found
           /\ List.length found = List.length ds
           /\ urls' = urls_of p path found urls
       | Raise e =>
           (calls_of (parse_backup_disks hx p backup_xml path ds urls) w
            = map device_found found
            /\ nth_error (map (get "name") ds) (List.length found)
               = Some None
            /\ e = parse_error backup_xml)
           \/ (exists name,
                  calls_of (parse_backup_disks hx p backup_xml path ds urls)
                           w
                  = map device_found found
                    ++ [EvFindDeviceByNameOrPath name (Raise e)]
                  /\ nth_error (map (get "name") ds) (List.length found)
                     = Some (Some name))
       end.
Proof.
  induction ds as [| disk rest IH]; intros urls w.
  - exists []. cbn. auto.
  - cbn [parse_backup_disks map].
    destruct (get "name" disk) as [disk_name |] eqn:En.
    2:{ exists []. unfold ends_with, calls_of, xraise. cbn.
        split; [reflexivity |]. left. auto. }
    unfold ends_with, calls_of.
    cbv beta iota zeta delta [xbind find_device_by_name_or_path xcall].
    destruct (vm_find_device_by_name_or_path hx disk_name w)
      as [[imageID | e] w1].
    2:{ exists []. cbn. split; [reflexivity |]. right.
        exists disk_name. auto. }
    destruct (IH (dict_set imageID (nbd_url p path disk_name) urls) w1)
      as (found & Hnames & Hend).
    unfold ends_with, calls_of in Hend.
    destruct (parse_backup_disks hx p backup_xml path rest _ w1)
      as [[r w2] t].
    exists ((disk_name, imageID) :: found). cbn [fst snd] in *.
    split; [cbn; now rewrite Hnames |].
    destruct r as [urls' | e].
    + destruct Hend as (-> & Hlen & ->). cbn.
      split; [reflexivity |]. split; [now rewrite Hlen | reflexivity].
    + destruct Hend as [(-> & Hnth & ->) | (name & -> & Hnth)].
      * left. cbn. auto.
      * right. exists name. cbn. auto.
Qed.

Lemma parse_backup_info_run backup_id backup_xml w :
  match fromstring px backup_xml with
  | Raise e =>
      _parse_backup_info hx p px backup_id backup_xml w = (Raise e, w, [])
  | Ok domainbackup =>
      match socket_of domainbackup with
      | None =>
          _parse_backup_info hx p px backup_id backup_xml w
          = (Raise (parse_error backup_xml), w, [])
      | Some path =>
          _parse_backup_info hx p px backup_id backup_xml w
          = parse_backup_disks hx p backup_xml path
                               (backup_disks domainbackup) [] w
      end
  end.
Proof.
  unfold _parse_backup_info, socket_of.
  cbv beta iota zeta delta [xbind embed lift].
  destruct (fromstring px backup_xml) as [doc | e]; [| reflexivity].
  cbn [map].
  destruct (find_child "server" doc) as [server |].
  - destruct (get "socket" server) as [path |].
    + destruct (parse_backup_disks _ _ _ _ _ _ w) as [[r w1] t].
      reflexivity.
    + reflexivity.
  - reflexivity.
Qed.

End BackupInfo.

(** X8.  [_parse_backup_info] raises what the parser raises on a
    document that is not well formed, and the parse error, before any
    call, on a document without a server or whose server has no socket.
    Otherwise it looks up, in document order, the device of every disk
    marked [backup='yes'] and of no other disk, and returns the URL of
    each on that socket, keyed by the image id of its device.  It stops
    with the parse error at a disk without name, after the lookups of
    the disks before it, and with the exception of a lookup that
    fails. *)
Theorem parse_backup_info_outcomes
    (W : Type) (hx : HostExt W) (p : Platform) (px : PlatformExt)
    (backup_id backup_xml : string) (w : W) :
  match fromstring px backup_xml with
  | Raise e =>
      _parse_backup_info hx p px backup_id backup_xml w = (Raise e, w, [])
  | Ok domainbackup =>
      match socket_of domainbackup with
      | None =>
          _parse_backup_info hx p px backup_id backup_xml w
          = (Raise (parse_error backup_xml), w, [])
      | Some path =>
          exists found,
            disks_parsed p backup_xml path
              (map (get "name") (backup_disks domainbackup)) found
              (calls_of (_parse_backup_info hx p px backup_id backup_xml) w)
              (ends_with (_parse_backup_info hx p px backup_id backup_xml) w)
      end
  end.
Proof.
  pose proof (parse_backup_info_run hx p px backup_id backup_xml w) as Hrun.
  destruct (fromstring px backup_xml) as [doc | e]; [| exact Hrun].
  destruct (socket_of doc) as [path |]; [| exact Hrun].
  destruct (parse_backup_disks_run hx p backup_xml path (backup_disks doc)
                                   [] w) as (found & Hnames & Hend).
  exists found. unfold disks_parsed, calls_of, ends_with in *.
  rewrite Hrun. split; [exact Hnames |].
  destruct (fst (fst _)); [rewrite length_map |]; exact Hend.
Qed.

Section BackupInfoRun.
Context {W : Type}.
Variable h : Host W.

Lemma get_backup_xml_run backup_id w :
  _get_backup_xml h backup_id w
  = (match fst (dom_backupGetXMLDesc h w) with
     | Ok xml => Ok xml
     | Raise e => Raise (backup_xml_error e)
     end, snd (dom_backupGetXMLDesc h w),
     [EvBackupGetXMLDesc (fst (dom_backupGetXMLDesc h w))]).
Proof.
  cbv beta iota zeta delta [_get_backup_xml except_libvirtError try_except
                            backupGetXMLDesc call].
  destruct (dom_backupGetXMLDesc h w) as [[xml | e] w1];
    cbv beta iota zeta delta [fst snd]; [reflexivity |].
  destruct e as [| | | | | | | code msg | | | |]; try reflexivity.
  destruct code; reflexivity.
Qed.

End BackupInfoRun.

(** X9.  [backup_info] first asks libvirt for the descriptor of the
    running backup.  When that call raises, nothing else is called: a
    libvirt error that says that there is no backup leaves as
    [NoSuchBackupError], any other libvirt error as [BackupError], and
    any other exception, [NotConnectedError] included, as it is.
    Otherwise the descriptor is logged and parsed, and what the parser
    raises is raised.  The URLs of the result are the URLs the parser
    returned; the description of a checkpoint is only fetched when a
    checkpoint id is given, after the parsing, and a libvirt error of
    that fetch leaves the result without description. *)
Theorem backup_info_outcomes
    (W : Type) (h : Host W) (hx : HostExt W) (p : Platform)
    (px : PlatformExt) (backup_id : string) (checkpoint_id : option string)
    (w : W) :
  let answer := dom_backupGetXMLDesc h w in
  let info := backup_info h hx p px backup_id checkpoint_id in
  match fst answer with
  | Raise e =>
      info w = (Raise (backup_xml_error e), snd answer,
                [Boundary (EvBackupGetXMLDesc (Raise e))])
  | Ok backup_xml =>
      let parse := _parse_backup_info hx p px backup_id backup_xml in
      exists t,
        calls_of info w
        = Boundary (EvBackupGetXMLDesc (Ok backup_xml))
          :: Boundary (EvLog DEBUG "backup_id %r info: %s"
                             [backup_id; backup_xml])
          :: calls_of parse (snd answer) ++ map Boundary t
        /\ match ends_with parse (snd answer) with
           | Raise e => t = [] /\ ends_with info w = Raise e
           | Ok urls =>
               checkpoint_described backup_id checkpoint_id
                 {| result_disks := urls; result_checkpoint := None |}
                 t (ends_with info w)
           end
  end.
Proof.
  cbv zeta. unfold calls_of, ends_with, backup_info.
  cbv beta iota zeta delta [xbind embed log].
  rewrite get_backup_xml_run.
  destruct (dom_backupGetXMLDesc h w) as [[xml | e] w1];
    cbv beta iota zeta delta [fst snd]; [| reflexivity].
  destruct (_parse_backup_info hx p px backup_id xml w1)
    as [[[urls | e] w2] t1]; cbv beta iota zeta delta [fst snd].
  2:{ exists []. cbn [map app]. rewrite app_nil_r. auto. }
  destruct checkpoint_id as [id |].
  2:{ exists []. cbn [map app xret fst snd]. rewrite !app_nil_r.
      split; [reflexivity |]. split; reflexivity. }
  destruct (_add_checkpoint_xml h backup_id id
              {| result_disks := urls; result_checkpoint := None |} w2)
    as [[r w3] t] eqn:Hrun.
  exists t. cbn [map app fst snd]. split; [reflexivity |].
  eapply add_checkpoint_xml_described. exact Hrun.
Qed.

(** ** The descriptor that is submitted, read back *)

Section ReadBack.
Variable p : Platform.

Lemma backup_disk_element_attrs from drive disk :
  backup_disk_element p from drive = Ok disk ->
  el_tag disk = "disk" /\ get "backup" disk = None.
Proof.
  unfold backup_disk_element.
  destruct (drive_scratch_disk drive) as [sd |]; [| discriminate].
  intros [= <-].
  destruct (drive_backup_mode drive) as [mode |].
  - destruct (String.eqb mode MODE_INCREMENTAL); split; reflexivity.
  - split; reflexivity.
Qed.

Lemma backup_disk_elements_unmarked from ds : forall disks disks',
  backup_disk_elements p from ds disks = Ok disks' ->
  Forall (fun d => get "backup" d = None) (el_children disks) ->
  Forall (fun d => get "backup" d = None) (el_children disks')
  /\ el_tag disks' = el_tag disks.
Proof.
  induction ds as [| drive rest IH]; intros disks disks' Hrun Hall.
  - injection Hrun as <-. auto.
  - cbn [backup_disk_elements] in Hrun.
    destruct (backup_disk_element p from drive) as [disk |] eqn:Ed;
      [| discriminate].
    cbn [rbind] in Hrun. apply IH in Hrun.
    + destruct disks. exact Hrun.
    + destruct disks as [t a x c]. cbn [appendChild el_children] in *.
      apply Forall_app. split; [exact Hall |].
      constructor; [| constructor].
      now apply backup_disk_element_attrs in Ed.
Qed.

Lemma filter_none {A} (f : A -> bool) l :
  Forall (fun a => f a = false) l -> filter f l = [].
Proof.
  induction 1 as [| a l Ha _ IH]; [reflexivity |].
  cbn. now rewrite Ha.
Qed.

Lemma backup_xml_tree_read_back address drives from tree :
  backup_xml_tree p address drives from = Ok tree ->
  socket_of tree = Some (address_path address) /\ backup_disks tree = [].
Proof.
  unfold backup_xml_tree.
  destruct (backup_disk_elements p from (values drives)
                                 (Element_new "disks" [])) as [disks |] eqn:E;
    [| discriminate].
  cbn [rbind]. intros [= <-].
  apply backup_disk_elements_unmarked in E as [Hall Htag];
    [| constructor].
  destruct disks as [dt da dx dc]. cbn in Htag. subst dt.
  cbn [el_children] in Hall.
  assert (Hf : filter
                 (fun disk =>
                    String.eqb (el_tag disk) "disk"
                    && option_string_eqb (get "backup" disk) (Some "yes")) dc
               = []).
  { apply filter_none. eapply Forall_impl; [| exact Hall].
    intros d Hd. cbv beta. rewrite Hd. cbn. apply andb_false_r. }
  destruct from as [id |]; split; try reflexivity;
    unfold backup_disks; cbn; rewrite Hf; reflexivity.
Qed.

End ReadBack.

(** X10.  Read back with [_parse_backup_info], the descriptor that
    [create_backup_xml] builds gives the socket of the address it was
    built for and no URL: the builder writes no [backup] attribute, so
    the URLs [backup_info] reports are those of the disks that the
    descriptor libvirt answers marks as backed up.  The parser makes no
    call. *)
Theorem parse_backup_info_of_built_descriptor
    (W : Type) (hx : HostExt W) (p : Platform) (px : PlatformExt)
    (address : Address) (drives : list (string * BackupDrive))
    (from_checkpoint_id : option string) (tree : Element)
    (backup_id backup_xml : string) (w : W) :
  backup_xml_tree p address drives from_checkpoint_id = Ok tree ->
  fromstring px backup_xml = Ok tree ->
  socket_of tree = Some (address_path address)
  /\ _parse_backup_info hx p px backup_id backup_xml w = (Ok [], w, []).
Proof.
  intros Ht Hp.
  destruct (backup_xml_tree_read_back p address drives from_checkpoint_id
                                      tree Ht) as [Hs Hd].
  split; [exact Hs |].
  pose proof (parse_backup_info_run hx p px backup_id backup_xml w) as Hrun.
  rewrite Hp, Hs, Hd in Hrun. exact Hrun.
Qed.

(** ** Requests without disks *)

Section NoDisks.
Variable p : Platform.

Lemma DiskConfig_list_length ds l :
  DiskConfig_list p ds = Ok l -> List.length l = List.length ds.
Proof.
  revert l. induction ds as [| d rest IH]; simpl; intros l.
  - now intros [= <-].
  - unfold rbind. destruct (DiskConfig_init p d); [| discriminate].
    destruct (DiskConfig_list p rest) as [l' |]; [| discriminate].
    intros [= <-]. simpl. f_equal. now apply IH.
Qed.

Lemma BackupConfig_init_disks c cfg :
  BackupConfig_init p c = Ok cfg ->
  DiskConfig_list p (k_disks c) = Ok (disks cfg)
  /\ check_disk_modes (from_checkpoint_id cfg) (disks cfg) = Ok tt.
Proof.
  unfold BackupConfig_init, rbind.
  destruct (prop_UUID_required p "backup_id" _); [| discriminate].
  destruct (prop_UUID p "from_checkpoint_id" _) as [from |]; [| discriminate].
  destruct (prop_UUID p "to_checkpoint_id" _); [| discriminate].
  destruct (prop_UUID p "parent_checkpoint_id" _) as [parent |];
    [| discriminate].
  destruct (prop_Integer 0 "creation_time" _); [| discriminate].
  destruct (negb (is_None from) && is_None parent); [discriminate |].
  destruct (DiskConfig_list p (k_disks c)) as [l |]; [| discriminate].
  destruct (check_disk_modes from l) as [[] |] eqn:E; [| discriminate].
  intros [= <-]. simpl. auto.
Qed.

End NoDisks.

(** X11.  A request without disks is never started: [start_backup]
    raises before any call, the error of the validation when the
    request does not pass it, and otherwise the backup error that says
    that a backup cannot be started without disks. *)
Theorem start_backup_without_disks
    (W : Type) (h : Host W) (p : Platform) (c : backup_dict) (w : W) :
  k_disks c = [] ->
  start_backup h p c w
  = (Raise match BackupConfig_init p c with
           | Ok _ => without_disks
           | Raise e => e
           end, w, []).
Proof.
  intros Hd. unfold start_backup, bind, lift.
  destruct (BackupConfig_init p c) as [cfg | e] eqn:Ec; [| reflexivity].
  apply BackupConfig_init_disks in Ec as [Hl _].
  apply DiskConfig_list_length in Hl. rewrite Hd in Hl.
  destruct (disks cfg); [reflexivity | discriminate].
Qed.

(** X11, witness: a well-formed request for a full backup without
    disks. *)
Lemma start_backup_without_disks_witness :
  start_backup (Sim.host Sim.calm) Sim.platform
               (Sim.request None None None []) Sim.empty_world
  = (Raise without_disks, Sim.empty_world, []).
Proof.
  exact (start_backup_without_disks _ (Sim.host Sim.calm) Sim.platform
           (Sim.request None None None []) Sim.empty_world eq_refl).
Defined.

(** ** The socket of a backup *)

Lemma append_inj_l x a b : (x ++ a = x ++ b)%string -> a = b.
Proof.
  induction x as [| ch x IH]; simpl; [auto |].
  intros [= H]. auto.
Qed.

Lemma prefix_append x y : String.prefix x (x ++ y) = true.
Proof.
  induction x as [| ch x IH]; simpl; [destruct y; reflexivity |].
  destruct (ascii_dec ch ch); [exact IH | congruence].
Qed.

Lemma append_assoc x y z : ((x ++ y) ++ z = x ++ y ++ z)%string.
Proof. induction x as [| ch x IH]; simpl; [reflexivity | now rewrite IH]. Qed.

(** X12.  The socket of a backup is inside [P_BACKUP] and two backup
    ids have different sockets, for ids that do not start with a slash;
    an id that starts with a slash is its own socket path, wherever it
    points. *)
Theorem socket_path_of_backup_id (p : Platform) (a b : string) :
  String.prefix "/" a = false -> String.prefix "/" b = false ->
  String.prefix (P_BACKUP p) (socket_path p a) = true
  /\ (socket_path p a = socket_path p b -> a = b)
  /\ (forall c, String.prefix "/" c = true -> socket_path p c = c).
Proof.
  intros Ha Hb. unfold socket_path, os_path_join. rewrite Ha, Hb.
  split; [| split].
  - destruct (String.eqb (P_BACKUP p) "" || ends_with_slash (P_BACKUP p));
      apply prefix_append.
  - destruct (String.eqb (P_BACKUP p) "" || ends_with_slash (P_BACKUP p));
      intros H; apply append_inj_l in H; [exact H |].
    now apply (append_inj_l "/") in H.
  - intros c Hc. now rewrite Hc.
Qed.

(** X12, witness: the sockets of the backups [b1] and [b2]. *)
Lemma socket_path_of_backup_id_witness :
  String.prefix (P_BACKUP Sim.platform) (socket_path Sim.platform "b1") = true
  /\ (socket_path Sim.platform "b1" = socket_path Sim.platform "b2" ->
      "b1" = "b2")
  /\ (forall c, String.prefix "/" c = true -> socket_path Sim.platform c = c).
Proof.
  exact (socket_path_of_backup_id Sim.platform "b1" "b2" eq_refl eq_refl).
Defined.

(** ** Drives of the disks *)

Section Dict.
Context {V : Type}.

Lemma dict_get_set_same k (v : V) d : dict_get k (dict_set k v d) = Some v.
Proof.
  induction d as [| [k' v'] rest IH]; simpl.
  - now rewrite String.eqb_refl.
  - destruct (String.eqb k' k) eqn:E; simpl; rewrite ?E; auto.
    now rewrite String.eqb_refl.
Qed.

Lemma dict_get_set_other k k' (v : V) d :
  k <> k' -> dict_get k' (dict_set k v d) = dict_get k' d.
Proof.
  intros Hk. induction d as [| [k0 v0] rest IH]; simpl.
  - destruct (String.eqb k k') eqn:E; [| reflexivity].
    apply String.eqb_eq in E. contradiction.
  - destruct (String.eqb k0 k) eqn:E; simpl.
    + apply String.eqb_eq in E. subst k0.
      destruct (String.eqb k k') eqn:E'; [| reflexivity].
      apply String.eqb_eq in E'. contradiction.
    + now rewrite IH.
Qed.

Lemma dict_set_keys k (v : V) d :
  forall k', In k' (map fst (dict_set k v d)) <-> k' = k \/ In k' (map fst d).
Proof.
  intros k'. induction d as [| [k0 v0] rest IH]; simpl.
  - intuition congruence.
  - destruct (String.eqb k0 k) eqn:E; simpl.
    + apply String.eqb_eq in E. subst k0. intuition congruence.
    + rewrite IH. intuition congruence.
Qed.

End Dict.

Section Drives.
Context {W : Type}.
Variable h : Host W.

Lemma get_disks_drives_loop_run ds : forall drives w,
  exists found,
    map fst found = firstn (List.length found) ds
    /\ match outcome_of (_get_disks_drives_loop h ds drives) w with
       | Ok drives' =>
           events_of (_get_disks_drives_loop h ds drives) w
           = map (fun df => drive_lookup (fst df) (Ok (snd df))) found
           /\ List.length found = List.length ds
           /\ drives' = drives_of found drives
       | Raise e =>
           exists disk,
             nth_error ds (List.length found) = Some disk
             /\ events_of (_get_disks_drives_loop h ds drives) w
                = map (fun df => drive_lookup (fst df) (Ok (snd df))) found
                  ++ [drive_lookup disk (Raise e)]
       end.
Proof.
  induction ds as [| disk rest IH]; intros drives w.
  - exists []. cbn. auto.
  - unfold outcome_of, events_of. cbn [_get_disks_drives_loop].
    cbv beta iota zeta delta [bind findDriveByUUIDs call].
    destruct (vm_findDriveByUUIDs h (dom_id disk) (img_id disk)
                                  (vol_id disk) w) as [[drive | e] w1].
    2:{ exists []. cbn. split; [reflexivity |]. exists disk. auto. }
    destruct (IH (dict_set (img_id disk)
                           {| drive_name := fst drive;
                              drive_path := snd drive;
                              drive_backup_mode := backup_mode disk;
                              drive_scratch_disk := scratch_disk disk |}
                           drives) w1) as (found & Hfst & Hend).
    unfold outcome_of, events_of in Hend.
    destruct (_get_disks_drives_loop h rest _ w1) as [[r w2] t].
    exists ((disk, drive) :: found). cbn [fst snd] in *.
    split; [cbn; now rewrite Hfst |].
    destruct r as [drives' | e].
    + destruct Hend as (-> & Hlen & ->). cbn.
      split; [reflexivity |]. split; [now rewrite Hlen | reflexivity].
    + destruct Hend as (failed & Hnth & ->). exists failed. cbn. auto.
Qed.

(** The drives of a run that returned. *)
Lemma get_disks_drives_ok cfg w drives w' t :
  _get_disks_drives h cfg w = (Ok drives, w', t) ->
  exists found,
    map fst found = disks cfg
    /\ t = map (fun df => drive_lookup (fst df) (Ok (snd df))) found
    /\ drives = drives_of found [].
Proof.
  unfold _get_disks_drives, try_except. intros Hrun.
  destruct (get_disks_drives_loop_run (disks cfg) [] w)
    as (found & Hfst & Hend).
  unfold outcome_of, events_of in Hend.
  destruct (_get_disks_drives_loop h (disks cfg) [] w)
    as [[[drives0 | e] w1] t1]; cbn [fst snd] in Hend.
  - injection Hrun as <- <- <-. destruct Hend as (-> & Hlen & ->).
    exists found. rewrite Hlen, firstn_all in Hfst. auto.
  - destruct (is_LookupError e); discriminate.
Qed.

End Drives.

(** X13.  [_get_disks_drives] looks up the drive of each disk of the
    config, in order, by the three ids of the disk, and stops at the
    first lookup that raises.  When every lookup succeeds it returns
    the drives keyed by image id, each with the name and the path that
    the lookup answered and the backup mode and the scratch disk of its
    disk; of two disks with one image id the second replaces the
    first.  A lookup error leaves as a backup error, any other
    exception as it is. *)
Theorem get_disks_drives_outcomes
    (W : Type) (h : Host W) (cfg : BackupConfig) (w : W) :
  exists found,
    map fst found = firstn (List.length found) (disks cfg)
    /\ match outcome_of (_get_disks_drives h cfg) w with
       | Ok drives =>
           events_of (_get_disks_drives h cfg) w
           = map (fun df => drive_lookup (fst df) (Ok (snd df))) found
           /\ List.length found = List.length (disks cfg)
           /\ drives = drives_of found []
       | Raise e =>
           exists disk e0,
             nth_error (disks cfg) (List.length found) = Some disk
             /\ events_of (_get_disks_drives h cfg) w
                = map (fun df => drive_lookup (fst df) (Ok (snd df))) found
                  ++ [drive_lookup disk (Raise e0)]
             /\ e = drive_error e0
       end.
Proof.
  destruct (get_disks_drives_loop_run h (disks cfg) [] w)
    as (found & Hfst & Hend).
  exists found. split; [exact Hfst |].
  unfold outcome_of, events_of, _get_disks_drives, try_except in *.
  destruct (_get_disks_drives_loop h (disks cfg) [] w) as [[[drives | e] w1] t].
  - exact Hend.
  - cbn [fst snd] in Hend. destruct Hend as (disk & Hnth & ->).
    destruct (is_LookupError e) eqn:E;
      cbv beta iota zeta delta [raise fst snd]; rewrite app_nil_r;
      exists disk, e; unfold drive_error; rewrite E;
      (split; [exact Hnth |]); split; reflexivity.
Qed.

(** ** What [redefine_checkpoints] submits *)

Section RedefineRounds.
Context {W : Type}.
Variable h : Host W.
Variable hx : HostExt W.
Variable p : Platform.
Variable px : PlatformExt.

Lemma submissions_boundary t : forall rest lookups,
  submissions (map Boundary t ++ rest) lookups
  = submissions rest (lookups ++ filter drive_call t).
Proof.
  induction t as [| e t IH]; intros rest lookups; cbn [map app filter].
  - now rewrite app_nil_r.
  - cbn [submissions]. rewrite IH. destruct (drive_call e); [| reflexivity].
    now rewrite <- app_assoc.
Qed.

Lemma filter_drive_lookups (found : list (DiskConfig * (string * string))) :
  filter drive_call
         (map (fun df => drive_lookup (fst df) (Ok (snd df))) found)
  = map (fun df => drive_lookup (fst df) (Ok (snd df))) found.
Proof.
  induction found as [| df found IH]; cbn; [reflexivity | now rewrite IH].
Qed.

(** The calls that produce the XML of a validated entry. *)
Lemma checkpoint_xml_calls c cfg w xml w' evs :
  CheckpointConfig_init p c = Ok cfg ->
  match cp_config cfg with
  | Some config =>
      xbind (embed (_get_disks_drives h config))
            (fun drives =>
               embed (lift (create_checkpoint_xml p config drives)))
  | None => xret (cp_xml cfg)
  end w = (Ok xml, w', evs) ->
  exists t,
    evs = map Boundary t
    /\ forall a, round_for p px c (filter drive_call t,
                                   (xml, redefine_flags px, a)).
Proof.
  intros Hc Hrun.
  apply CheckpointConfig_init_sound in Hc as (_ & Hx & Hconf).
  unfold round_for. cbn [fst snd].
  destruct (k_config c) as [b |].
  - destruct Hconf as (bc & Hb & Hcfg). rewrite Hcfg in Hrun.
    apply xbind_run in Hrun
      as [(drives & w1 & t1 & t2 & Hd & Hx' & ->) | (e & _ & He)];
      [| discriminate].
    apply embed_run in Hd as (td & Hd & ->).
    apply embed_run in Hx' as (tx & Hx' & ->).
    injection Hx' as Hx' <- <-.
    apply get_disks_drives_ok in Hd as (found & Hfst & -> & ->).
    exists (map (fun df => drive_lookup (fst df) (Ok (snd df))) found).
    split; [cbn [map]; now rewrite app_nil_r |].
    intros a. split; [reflexivity |].
    exists bc, found. rewrite filter_drive_lookups. auto.
  - rewrite Hconf in Hrun. injection Hrun as <- <- <-.
    exists []. split; [reflexivity |].
    intros a. split; [reflexivity |]. split; [reflexivity | exact Hx].
Qed.

(** A round of a run that returns: the lookups and the call, and then
    the rest of the loop after a success, or the record of the libvirt
    error. *)
Lemma redefine_round c rest ids w res w' evs :
  redefine_checkpoints_loop h hx p px (c :: rest) ids w = (Ok res, w', evs) ->
  exists cid t xml a tail,
    evs = map Boundary t
          ++ EvCheckpointCreateXML xml (redefine_flags px) a :: tail
    /\ round_for p px c (filter drive_call t, (xml, redefine_flags px, a))
    /\ ((a = Ok tt
         /\ exists w1,
              redefine_checkpoints_loop h hx p px rest (ids ++ [cid]) w1
              = (Ok res, w', tail))
        \/ (exists l, tail = [Boundary l])).
Proof.
  cbn [redefine_checkpoints_loop]. intros Hrun.
  apply xbind_run in Hrun
    as [(cfg & w1 & t1 & t2 & Hc & Hrun & ->) | (e & _ & He)];
    [| discriminate].
  apply embed_run in Hc as (t & Hc & ->). injection Hc as Hc <- <-.
  cbn [map app].
  apply xbind_run in Hrun
    as [(u & w2 & t3 & t4 & Hl & Hrun & ->) | (e & _ & He)];
    [| discriminate].
  apply embed_run in Hl as (t & Hl & ->). injection Hl as _ <- <-.
  apply xbind_run in Hrun
    as [(xml & w3 & t5 & t6 & Hx & Hrun & ->) | (e & _ & He)];
    [| discriminate].
  apply (checkpoint_xml_calls c cfg) in Hx as (tx & -> & Hbuilt);
    [| exact Hc].
  apply xbind_run in Hrun
    as [(failure & w4 & t7 & t8 & Ht & Hrun & ->) | (e & _ & He)];
    [| discriminate].
  exists (cp_id cfg),
    (EvLog INFO "Redefine VM %r checkpoint %r" [vm_id h; cp_id cfg] :: tx),
    xml.
  apply xtry_except_run in Ht
    as [(a & Ht & [= <-]) | (e & w5 & ta & tb & Ht & Hh & ->)].
  - apply xbind_run in Ht
      as [(u' & w6 & tc & td & Hcall & Hret & ->) | (e & _ & He)];
      [| discriminate].
    injection Hret as <- <- <-.
    unfold checkpointCreateXML, xcall in Hcall.
    destruct (dom_checkpointCreateXML hx xml (redefine_flags px) w3)
      as [a w7] eqn:Ea.
    injection Hcall as -> <- <-. destruct u'.
    exists (Ok tt), t8. split.
    { cbn [map app]. reflexivity. }
    split; [apply Hbuilt |]. left. split; [reflexivity |].
    eexists. exact Hrun.
  - apply xbind_run in Ht
      as [(u' & w6 & tc & td & _ & Hret & _) | (e' & Hcall & [= <-])].
    { injection Hret as Hret _ _. discriminate. }
    unfold checkpointCreateXML, xcall in Hcall.
    destruct (dom_checkpointCreateXML hx xml (redefine_flags px) w3)
      as [a w7] eqn:Ea.
    injection Hcall as -> <- <-.
    destruct e; try (injection Hh as Hh _ _; discriminate).
    apply xbind_run in Hh
      as [(u' & w6 & tc & td & Hlog & Hret & ->) | (e' & _ & He)];
      [| discriminate].
    apply embed_run in Hlog as (t & Hlog & ->).
    injection Hlog as _ <- <-. injection Hret as <- <- <-.
    injection Hrun as <- <- <-.
    exists (Raise (libvirtError code msg)),
      [Boundary (EvLog ERROR "Failed to redefine VM %r checkpoint %r: %s"
                       [vm_id h; cp_id cfg; msg])].
    split.
    { cbn [map app]. rewrite ?app_nil_r. reflexivity. }
    split; [apply Hbuilt |]. right. eexists. reflexivity.
Qed.

Lemma redefine_loop_rounds cps : forall ids w res w' evs,
  redefine_checkpoints_loop h hx p px cps ids w = (Ok res, w', evs) ->
  map snd (submissions evs []) = redefined evs
  /\ Forall2 (round_for p px)
             (firstn (List.length (submissions evs [])) cps)
             (submissions evs []).
Proof.
  induction cps as [| c rest IH]; intros ids w res w' evs Hrun.
  - injection Hrun as <- <- <-. split; [reflexivity | constructor].
  - apply redefine_round in Hrun
      as (cid & t & xml & a & tail & -> & Hround & Hend).
    rewrite submissions_boundary, redefined_app, redefined_boundary.
    cbn [app submissions redefined map snd].
    destruct Hend as [(-> & w1 & Hrest) | (l & ->)].
    + apply IH in Hrest as [Hans Hall]. rewrite Hans.
      split; [reflexivity |]. cbn [List.length firstn].
      constructor; assumption.
    + cbn [submissions redefined map List.length firstn].
      split; [reflexivity |]. constructor; [assumption | constructor].
Qed.

End RedefineRounds.

(** X6.  When [redefine_checkpoints] returns, the ids it reports are
    the validated ids of the first entries, in order, one for each
    [checkpointCreateXML] call that succeeded.  It reports the ids of
    all entries and no error when every call succeeded; the first call
    that fails with a libvirt error is the last call, and its code and
    message are the error reported beside the ids redefined before.
    The calls are made one per entry, in the order of the entries, each
    with the redefine flags: for an entry without backup config no
    drive is looked up before the call and the XML of the entry is
    submitted; for an entry with a backup config the drive of each disk
    of the config is looked up before the call, and what is submitted
    is the checkpoint descriptor built from the config for the drives
    these lookups answered, whatever the XML of the entry. *)
Theorem redefine_checkpoints_partial_progress
    (W : Type) (h : Host W) (hx : HostExt W) (p : Platform)
    (px : PlatformExt) (cps : list checkpoint_dict) (w w' : W)
    (res : DeleteResult) (evs : list Call) :
  redefine_checkpoints h hx p px cps w = (Ok res, w', evs) ->
  map Some (checkpoint_ids res)
  = map (id_of p) (firstn (List.length (checkpoint_ids res)) cps)
  /\ map snd (redefined evs)
     = repeat (Ok tt) (List.length (checkpoint_ids res))
       ++ failure_of (error res)
  /\ map snd (submissions evs []) = redefined evs
  /\ Forall2 (round_for p px)
             (firstn (List.length (submissions evs [])) cps)
             (submissions evs [])
  /\ (error res = None ->
      List.length (checkpoint_ids res) = List.length cps).
Proof.
  intros Hrun.
  pose proof (redefine_loop_rounds h hx p px cps [] w res w' evs Hrun)
    as [Hsub Hrounds].
  apply redefine_loop_returns in Hrun
    as (done & Hids & Hdone & Hans & _ & Hnone).
  cbn [app] in Hids. rewrite Hids. auto.
Qed.

(** X6, witness: of the entries [cp2; b; c], the first has a backup
    config and the redefinition of [b] fails. *)
Lemma redefine_checkpoints_partial_progress_witness :
  exists res w' evs,
    redefine_checkpoints (Sim.host Sim.calm)
      (SimCalls.host_ext SimCalls.refuses_b [])
      Sim.platform (SimCalls.platform_ext [])
      [configured_entry; SimCalls.entry "b"; SimCalls.entry "c"]
      Sim.chain_abc
    = (Ok res, w', evs)
    /\ res = {| checkpoint_ids := ["cp2"];
                error := Some (VIR_ERR_INTERNAL_ERROR, "internal error") |}
    /\ map fst (submissions evs [])
       = [[EvFindDriveByUUIDs "dom-1" "img-1" "vol-of-img-1"
                              (Ok ("sda", "/dev/vg/sda"))]; []]
    /\ map Some (checkpoint_ids res)
       = map (id_of Sim.platform)
             (firstn (List.length (checkpoint_ids res))
                     [configured_entry; SimCalls.entry "b";
                      SimCalls.entry "c"])
    /\ map snd (redefined evs)
       = repeat (Ok tt) (List.length (checkpoint_ids res))
         ++ failure_of (error res)
    /\ map snd (submissions evs []) = redefined evs
    /\ Forall2 (round_for Sim.platform (SimCalls.platform_ext []))
               (firstn (List.length (submissions evs []))
                       [configured_entry; SimCalls.entry "b";
                        SimCalls.entry "c"])
               (submissions evs [])
    /\ (error res = None ->
        List.length (checkpoint_ids res) = 3%nat).
Proof.
  eexists _, _, _. split; [vm_compute; reflexivity |].
  split; [reflexivity |]. split; [reflexivity |].
  refine (redefine_checkpoints_partial_progress
            _ (Sim.host Sim.calm) (SimCalls.host_ext SimCalls.refuses_b [])
            Sim.platform (SimCalls.platform_ext [])
            [configured_entry; SimCalls.entry "b"; SimCalls.entry "c"]
            Sim.chain_abc _ _ _ _).
  vm_compute. reflexivity.
Defined.

(** ** The guarded part of [start_backup] *)

Section Session.
Context {W : Type}.
Variable h : Host W.
Variable p : Platform.

Lemma start_backup_session_run cfg addr drives w :
  start_backup_session h p cfg addr drives w
  = match submission p cfg addr drives (fst (vm_freeze h w)) with
    | Raise e =>
        (Raise e, snd (vm_freeze h w), [EvFreeze (fst (vm_freeze h w))])
    | Ok (backup_xml, checkpoint_xml) =>
        let b := dom_backupBegin h backup_xml checkpoint_xml
                   [VIR_DOMAIN_BACKUP_BEGIN_REUSE_EXTERNAL]
                   (snd (vm_freeze h w)) in
        (match fst b with
         | Ok u => Ok u
         | Raise e => Raise (begin_error p e)
         end, snd b,
         [EvFreeze (fst (vm_freeze h w));
          starting_backup cfg backup_xml checkpoint_xml;
          EvBackupBegin backup_xml checkpoint_xml
                        [VIR_DOMAIN_BACKUP_BEGIN_REUSE_EXTERNAL] (fst b)])
    end.
Proof.
  unfold start_backup_session, submission, starting_backup.
  cbv beta iota zeta delta [bind freeze call lift log rbind].
  destruct (vm_freeze h w) as [[res | e] w1]; cbv beta iota zeta delta [fst snd];
    [| reflexivity].
  destruct (is_error res && truthy_bool (require_consistency cfg));
    [reflexivity |].
  cbv beta iota zeta delta [ret].
  destruct (create_backup_xml p addr drives (from_checkpoint_id cfg))
    as [bx | e]; [| reflexivity].
  destruct (create_checkpoint_xml p cfg drives) as [cx | e]; [| reflexivity].
  cbv beta iota zeta delta [_begin_backup except_libvirtError try_except
                            backupBegin call].
  destruct (dom_backupBegin h bx cx _ w1) as [[u | e] w2];
    cbv beta iota zeta delta [fst snd app]; [reflexivity |].
  destruct e as [| | | | | | | code msg | | | |]; try reflexivity.
  unfold begin_error.
  destruct (cold_backup_enabled p
            && virErrorNumber_eqb code VIR_ERR_CHECKPOINT_INCONSISTENT);
    reflexivity.
Qed.

Lemma remove_scratch_disks_run backup_id w :
  exists removals w',
    _remove_scratch_disks h backup_id w
    = (match fst (irs_list_transient_disks h (vm_id h) w) with
       | RespOk _ => Ok tt
       | RespError _ message => Raise (fetch_failed message)
       end, w',
       removing_scratch_disks backup_id
       :: EvListTransientDisks (vm_id h)
            (fst (irs_list_transient_disks h (vm_id h) w))
       :: removals)
    /\ Forall (fun e => removal_call e = true) removals
    /\ removed removals
       = listed (fst (irs_list_transient_disks h (vm_id h) w)).
Proof.
  destruct (irs_list_transient_disks h (vm_id h) w) as [[names | c m] w1]
    eqn:Hl; cbn [fst].
  - destruct (remove_scratch_disks_listed h backup_id w names w1 Hl)
      as (w' & t & Hrun & _ & Hrem & Hkind & _).
    exists t, w'. auto.
  - exists [], w1.
    rewrite (remove_scratch_disks_listing_failed h backup_id w c m w1 Hl).
    repeat split. constructor.
Qed.

(** The guarded part: after a [try] block that returned, thaw; after
    one that raised, the removal of the scratch disks and thaw. *)
Lemma guarded_session_run cfg drives w :
  let session :=
    start_backup_session h p cfg
      (UnixAddress (socket_path p (backup_id cfg))) drives w in
  match fst (fst session) with
  | Ok _ =>
      guarded_session h p cfg drives w
      = (match fst (vm_thaw h (snd (fst session))) with
         | Ok _ => Ok tt
         | Raise e => Raise e
         end, snd (vm_thaw h (snd (fst session))),
         snd session ++ [EvThaw (fst (vm_thaw h (snd (fst session))))])
  | Raise e =>
      exists removals w' th,
        guarded_session h p cfg drives w
        = (Raise (rollback_error e
                    (fst (irs_list_transient_disks h (vm_id h)
                                                   (snd (fst session))))
                    th), w',
           snd session
           ++ removing_scratch_disks (backup_id cfg)
              :: EvListTransientDisks (vm_id h)
                   (fst (irs_list_transient_disks h (vm_id h)
                                                  (snd (fst session))))
              :: removals ++ [EvThaw th])
        /\ Forall (fun ev => removal_call ev = true) removals
        /\ removed removals
           = listed (fst (irs_list_transient_disks h (vm_id h)
                                                   (snd (fst session))))
  end.
Proof.
  cbv zeta. unfold guarded_session, try_finally, try_except.
  destruct (start_backup_session h p cfg _ drives w) as [[[u | e] ws] ts];
    cbn [fst snd].
  - cbv beta iota zeta delta [bind thaw call ret].
    destruct (vm_thaw h ws) as [[res | e] wt]; cbn [fst snd];
      rewrite ?app_nil_r; destruct u; reflexivity.
  - destruct (remove_scratch_disks_run (backup_id cfg) ws)
      as (removals & w1 & Hrun & Hkind & Hrem).
    cbv beta iota zeta delta [bind]. rewrite Hrun.
    cbv beta iota zeta delta [thaw call ret raise].
    exists removals.
    destruct (fst (irs_list_transient_disks h (vm_id h) ws))
      as [names | c m];
      destruct (vm_thaw h w1) as [[res | e'] wt];
      [exists wt, (Ok res) | exists wt, (Raise e')
      | exists wt, (Ok res) | exists wt, (Raise e')];
      (split;
       [cbn [rollback_error]; rewrite ?app_nil_r;
        rewrite <- ?app_assoc; cbn [app]; reflexivity
       | split; assumption]).
Qed.

End Session.

(** ** Runs of [start_backup] *)

Section StartBackup.
Context {W : Type}.
Variable h : Host W.
Variable p : Platform.

Lemma scratch_disks_created_given backup_id drives drives' evs :
  scratch_disks_created h backup_id drives drives' evs ->
  Forall2 given_scratch_disk drives drives'.
Proof.
  induction 1 as [| img drive rest rest' t Hsd _ IH
                  | img drive rest rest' t c a ph path Hsd _ IH].
  - constructor.
  - constructor; [| exact IH]. unfold given_scratch_disk. cbn. auto 7.
  - constructor; [| exact IH]. unfold given_scratch_disk. cbn.
    repeat split; try reflexivity; [discriminate | congruence].
Qed.

Lemma describe_is_quiet e : describe_call e = true -> session_call e = false.
Proof. destruct e; cbv; congruence. Qed.

Lemma removal_is_quiet e : removal_call e = true -> session_call e = false.
Proof. destruct e; cbv; congruence. Qed.

Lemma quiet_within {A} footprint (m : M W A) w r w' t :
  within footprint m ->
  (forall e, footprint e = true -> session_call e = false) ->
  m w = (r, w', t) -> Forall (fun e => session_call e = false) t.
Proof.
  intros Hm Hk Hrun.
  exact (within_avoids footprint session_call m Hm Hk w r w' t Hrun).
Qed.

(** A run for a validated request with disks: it ends in the setup,
    which makes no call of the guarded part, or it goes through the
    guarded part with the drives of the disks and their scratch disks,
    and after a guarded part that returned, through the fetch of the
    description of the checkpoint that was asked for. *)
Lemma start_backup_run c cfg w r w' evs :
  BackupConfig_init p c = Ok cfg -> disks cfg <> [] ->
  start_backup h p c w = (r, w', evs) ->
  (exists e, r = Raise e /\ Forall (fun ev => session_call ev = false) evs)
  \/ (exists found drives pre wg g wg' tg post,
         map fst found = disks cfg
         /\ (forall df, In df found ->
                        In (drive_lookup (fst df) (Ok (snd df))) pre)
         /\ Forall2 given_scratch_disk (drives_of found []) drives
         /\ start_backup_setup h cfg w = (Ok drives, wg, pre)
         /\ (exists checked created,
                pre = checked
                      ++ map (fun df => drive_lookup (fst df) (Ok (snd df)))
                             found
                      ++ created
                /\ scratch_disks_created h (backup_id cfg)
                                         (drives_of found []) drives created)
         /\ Forall (fun ev => session_call ev = false) pre
         /\ guarded_session h p cfg drives wg = (g, wg', tg)
         /\ evs = pre ++ tg ++ post
         /\ match g with
            | Raise e => r = Raise e /\ post = []
            | Ok _ =>
                match to_checkpoint_id cfg with
                | None => post = [] /\ r = Ok (urls_result p cfg drives)
                | Some id =>
                    _add_checkpoint_xml h (backup_id cfg) id
                                        (urls_result p cfg drives) wg'
                    = (r, w', post)
                end
            end).
Proof.
  intros Hc Hd Hrun.
  destruct (disks cfg) as [| d ds] eqn:Ed; [congruence |].
  rewrite (start_backup_unfold h p c cfg w d ds Hc Ed) in Hrun.
  unfold start_backup_steps in Hrun.
  apply bind_run in Hrun
    as [(u & w1 & t1 & t2 & Hv & Hrun & ->) | (e & Hv & ->)].
  2:{ left. exists e. split; [reflexivity |].
      eapply quiet_within;
        [apply validate_parent_id_footprint | by_kind | exact Hv]. }
  assert (Q1 : Forall (fun ev => session_call ev = false) t1).
  { eapply quiet_within;
      [apply validate_parent_id_footprint | by_kind | exact Hv]. }
  apply bind_run in Hrun
    as [(drives0 & w2 & t3 & t4 & Hdr & Hrun & ->) | (e & Hdr & ->)].
  2:{ left. exists e. split; [reflexivity |]. apply Forall_app.
      split; [exact Q1 |].
      eapply quiet_within;
        [apply get_disks_drives_footprint | by_kind | exact Hdr]. }
  assert (Q2 : Forall (fun ev => session_call ev = false) t3).
  { eapply quiet_within;
      [apply get_disks_drives_footprint | by_kind | exact Hdr]. }
  apply bind_run in Hrun
    as [(drives & w3 & t5 & t6 & Hs & Hrun & ->) | (e & Hs & ->)].
  2:{ left. exists e. split; [reflexivity |]. apply Forall_app.
      split; [exact Q1 |]. apply Forall_app. split; [exact Q2 |].
      eapply quiet_within;
        [apply create_scratch_disks_footprint | by_kind | exact Hs]. }
  assert (Q3 : Forall (fun ev => session_call ev = false) t5).
  { eapply quiet_within;
      [apply create_scratch_disks_footprint | by_kind | exact Hs]. }
  right.
  assert (Hset : start_backup_setup h cfg w = (Ok drives, w3, t1 ++ t3 ++ t5)).
  { unfold start_backup_setup, bind. rewrite Hv, Hdr, Hs. reflexivity. }
  apply get_disks_drives_ok in Hdr as (found & Hfst & -> & ->).
  apply create_scratch_disks_created in Hs.
  pose proof (scratch_disks_created_given _ _ _ _ Hs) as Hgiven.
  rewrite Ed in Hfst.
  exists found, drives,
    (t1 ++ map (fun df => drive_lookup (fst df) (Ok (snd df))) found ++ t5).
  change (bind (guarded_session h p cfg drives)
            (fun _ =>
               match to_checkpoint_id cfg with
               | Some to_id =>
                   _add_checkpoint_xml h (backup_id cfg) to_id
                                       (urls_result p cfg drives)
               | None => ret (urls_result p cfg drives)
               end) w3 = (r, w', t6)) in Hrun.
  apply bind_run in Hrun
    as [(u' & w4 & t7 & t8 & Hg & Hpost & ->) | (e & Hg & ->)].
  - exists w3, (Ok u'), w4, t7, t8.
    split; [exact Hfst |]. split.
    { intros df Hin. apply in_or_app. right. apply in_or_app. left.
      apply (in_map (fun df => drive_lookup (fst df) (Ok (snd df)))).
      exact Hin. }
    split; [exact Hgiven |]. split; [exact Hset |].
    split; [exists t1, t5; split; [reflexivity | exact Hs] |]. split.
    { apply Forall_app. split; [exact Q1 |]. apply Forall_app. auto. }
    split; [exact Hg |]. split; [now rewrite <- !app_assoc |].
    destruct (to_checkpoint_id cfg) as [id |]; [exact Hpost |].
    injection Hpost as <- _ <-. auto.
  - exists w3, (Raise e), w', t6, [].
    split; [exact Hfst |]. split.
    { intros df Hin. apply in_or_app. right. apply in_or_app. left.
      apply (in_map (fun df => drive_lookup (fst df) (Ok (snd df)))).
      exact Hin. }
    split; [exact Hgiven |]. split; [exact Hset |].
    split; [exists t1, t5; split; [reflexivity | exact Hs] |]. split.
    { apply Forall_app. split; [exact Q1 |]. apply Forall_app. auto. }
    split; [exact Hg |]. split; [now rewrite app_nil_r, <- !app_assoc |].
    auto.
Qed.

Lemma not_quiet t f :
  Forall (fun ev => session_call ev = false) t -> ~ In (EvFreeze f) t.
Proof.
  intros Ht Hin. rewrite Forall_forall in Ht. apply Ht in Hin. discriminate.
Qed.

Lemma count_zero_not_in kind (l : list Event) e :
  count kind l = 0%nat -> kind e = true -> ~ In e l.
Proof.
  unfold count. intros Hc He Hin.
  assert (Hf : In e (filter kind l)) by (apply filter_In; auto).
  destruct (filter kind l); [destruct Hf | discriminate].
Qed.

Lemma rolled_back_quiet backup_id res th t f :
  rolled_back h backup_id res th t -> ~ In (EvFreeze f) t.
Proof.
  intros (removals & -> & Hkind & _) [Hin | [Hin | Hin]]; try discriminate.
  apply in_app_or in Hin as [Hin | [Hin | []]]; [| discriminate].
  rewrite Forall_forall in Hkind. apply Hkind in Hin. discriminate.
Qed.

Lemma describe_quiet post f :
  Forall (fun ev => describe_call ev = true) post -> ~ In (EvFreeze f) post.
Proof.
  intros Hp Hin. rewrite Forall_forall in Hp. apply Hp in Hin. discriminate.
Qed.

(** A run that reached freeze: what came after it. *)
Lemma start_backup_freeze_run c w f :
  In (EvFreeze f) (events_of (start_backup h p c) w) ->
  exists cfg found drives wg pre rest,
    BackupConfig_init p c = Ok cfg
    /\ map fst found = disks cfg
    /\ Forall2 given_scratch_disk (drives_of found []) drives
    /\ start_backup_setup h cfg w = (Ok drives, wg, pre)
    /\ (exists checked created,
           pre = checked
                 ++ map (fun df => drive_lookup (fst df) (Ok (snd df))) found
                 ++ created
           /\ scratch_disks_created h (backup_id cfg)
                                    (drives_of found []) drives created)
    /\ events_of (start_backup h p c) w = pre ++ EvFreeze f :: rest
    /\ Forall (fun ev => session_call ev = false) pre
    /\ match submission p cfg (UnixAddress (socket_path p (backup_id cfg)))
                        drives f with
       | Raise e =>
           exists res th,
             rolled_back h (backup_id cfg) res th rest
             /\ outcome_of (start_backup h p c) w
                = Raise (rollback_error e res th)
       | Ok (backup_xml, checkpoint_xml) =>
           exists b tail,
             rest = starting_backup cfg backup_xml checkpoint_xml
                    :: EvBackupBegin backup_xml checkpoint_xml
                         [VIR_DOMAIN_BACKUP_BEGIN_REUSE_EXTERNAL] b
                    :: tail
             /\ match b with
                | Raise e0 =>
                    exists res th,
                      rolled_back h (backup_id cfg) res th tail
                      /\ outcome_of (start_backup h p c) w
                         = Raise (rollback_error (begin_error p e0) res th)
                | Ok _ =>
                    exists th post,
                      tail = EvThaw th :: post
                      /\ match th with
                         | Raise e =>
                             post = []
                             /\ outcome_of (start_backup h p c) w = Raise e
                         | Ok _ =>
                             checkpoint_described (backup_id cfg)
                               (to_checkpoint_id cfg)
                               (urls_result p cfg drives) post
                               (outcome_of (start_backup h p c) w)
                         end
                end
       end.
Proof.
  unfold events_of, outcome_of.
  destruct (start_backup h p c w) as [[r w'] evs] eqn:Hrun. cbn [fst snd].
  intros Hin.
  destruct (BackupConfig_init p c) as [cfg | e] eqn:Ec.
  2:{ unfold start_backup, bind, lift in Hrun. rewrite Ec in Hrun.
      injection Hrun as _ _ <-. destruct Hin. }
  destruct (disks cfg) as [| d ds] eqn:Ed.
  { unfold start_backup, bind, lift in Hrun. rewrite Ec, Ed in Hrun.
    injection Hrun as _ _ <-. destruct Hin. }
  assert (Hd : disks cfg <> []) by (rewrite Ed; discriminate).
  destruct (start_backup_run c cfg w r w' evs Ec Hd Hrun)
    as [(e & _ & Hq)
       | (found & drives & pre & wg & g & wg' & tg & post & Hfst & _ & Hgiven
          & Hset & Hpre & Hq & Hg & -> & Hend)].
  { exfalso. exact (not_quiet _ _ Hq Hin). }
  exists cfg, found, drives, wg, pre.
  apply in_app_or in Hin as [Hin | Hin];
    [exfalso; exact (not_quiet _ _ Hq Hin) |].
  pose proof (guarded_session_run h p cfg drives wg) as Hgr. cbv zeta in Hgr.
  rewrite (start_backup_session_run h p cfg _ drives wg) in Hgr.
  destruct (vm_freeze h wg) as [F wf]. cbn [fst snd] in Hgr.
  destruct (submission p cfg (UnixAddress (socket_path p (backup_id cfg)))
                       drives F) as [[bx cx] | es] eqn:Esub.
  - cbv zeta in Hgr.
    destruct (dom_backupBegin h bx cx _ wf) as [[u | e0] wb].
    + cbn [fst snd] in Hgr. rewrite Hg in Hgr.
      injection Hgr as Hg1 Hg2 Hg3. subst tg. cbn [app] in *.
      assert (F = f) as ->.
      { destruct Hin as [[= ->] | [Hin | [Hin | Hin]]];
          try reflexivity; try discriminate.
        destruct Hin as [Hin | Hin]; [discriminate |].
        exfalso. eapply describe_quiet; [| exact Hin].
        destruct g as [v | e]; [| destruct Hend as [_ ->]; constructor].
        destruct (to_checkpoint_id cfg) as [id |];
          [| destruct Hend as [-> _]; constructor].
        pose proof (add_checkpoint_xml_footprint h (backup_id cfg) id
                      (urls_result p cfg drives) wg' r w' post Hend) as Hfp.
        eapply Forall_impl; [| exact Hfp].
        intros ev Hev. cbv beta in Hev. now destruct (describe_call ev). }
      eexists. split; [reflexivity |]. split; [exact Hfst |].
      split; [exact Hgiven |]. split; [exact Hset |].
      split; [exact Hpre |]. split; [reflexivity |].
      split; [exact Hq |]. rewrite Esub.
      exists (Ok u), (EvThaw (fst (vm_thaw h wb)) :: post).
      split; [reflexivity |].
      exists (fst (vm_thaw h wb)), post. split; [reflexivity |].
      destruct (fst (vm_thaw h wb)) as [res | e]; subst g.
      * destruct (to_checkpoint_id cfg) as [id |]; [| exact Hend].
        eapply add_checkpoint_xml_described. exact Hend.
      * destruct Hend as [-> ->]. auto.
    + cbn [fst snd] in Hgr.
      destruct Hgr as (removals & w1 & th & Hgr & Hkind & Hrem).
      rewrite Hg in Hgr. injection Hgr as Hg1 Hg2 Hg3. subst g tg.
      destruct Hend as [-> ->]. cbn [app] in *. rewrite app_nil_r in *.
      assert (Hrb : rolled_back h (backup_id cfg)
                      (fst (irs_list_transient_disks h (vm_id h) wb)) th
                      (removing_scratch_disks (backup_id cfg)
                       :: EvListTransientDisks (vm_id h)
                            (fst (irs_list_transient_disks h (vm_id h) wb))
                       :: removals ++ [EvThaw th])).
      { exists removals. auto. }
      assert (F = f) as ->.
      { destruct Hin as [[= ->] | [Hin | [Hin | Hin]]];
          try reflexivity; try discriminate.
        exfalso. eapply rolled_back_quiet; [exact Hrb | exact Hin]. }
      eexists. split; [reflexivity |]. split; [exact Hfst |].
      split; [exact Hgiven |]. split; [exact Hset |].
      split; [exact Hpre |]. split; [reflexivity |].
      split; [exact Hq |]. rewrite Esub.
      exists (Raise e0), (removing_scratch_disks (backup_id cfg)
                          :: EvListTransientDisks (vm_id h)
                               (fst (irs_list_transient_disks h (vm_id h) wb))
                          :: removals ++ [EvThaw th]).
      split; [reflexivity |].
      exists (fst (irs_list_transient_disks h (vm_id h) wb)), th. auto.
  - cbn [fst snd] in Hgr.
    destruct Hgr as (removals & w1 & th & Hgr & Hkind & Hrem).
    rewrite Hg in Hgr. injection Hgr as Hg1 Hg2 Hg3. subst g tg.
    destruct Hend as [-> ->]. cbn [app] in *. rewrite app_nil_r in *.
    assert (Hrb : rolled_back h (backup_id cfg)
                    (fst (irs_list_transient_disks h (vm_id h) wf)) th
                    (removing_scratch_disks (backup_id cfg)
                     :: EvListTransientDisks (vm_id h)
                          (fst (irs_list_transient_disks h (vm_id h) wf))
                     :: removals ++ [EvThaw th])).
    { exists removals. auto. }
    assert (F = f) as ->.
    { destruct Hin as [[= ->] | Hin]; [reflexivity |].
      exfalso. eapply rolled_back_quiet; [exact Hrb | exact Hin]. }
    eexists. split; [reflexivity |]. split; [exact Hfst |].
    split; [exact Hgiven |]. split; [exact Hset |].
    split; [exact Hpre |]. split; [reflexivity |].
    split; [exact Hq |]. rewrite Esub.
    exists (fst (irs_list_transient_disks h (vm_id h) wf)), th. auto.
Qed.

End StartBackup.

Section StartBackupFacts.
Context {W : Type}.
Variable h : Host W.
Variable p : Platform.

Lemma count_one_in kind (l : list Event) :
  count kind l = 1%nat -> exists e, In e l /\ kind e = true.
Proof.
  unfold count. intros Hc.
  destruct (filter kind l) as [| e rest] eqn:Ef; [discriminate |].
  assert (Hin : In e (filter kind l)) by (rewrite Ef; left; reflexivity).
  apply filter_In in Hin. eauto.
Qed.

(** A run makes no call of the guarded part, or it freezes. *)
Lemma start_backup_quiet_or_frozen c w :
  Forall (fun ev => session_call ev = false)
         (events_of (start_backup h p c) w)
  \/ exists f, In (EvFreeze f) (events_of (start_backup h p c) w).
Proof.
  unfold events_of.
  destruct (start_backup h p c w) as [[r w'] evs] eqn:Hrun. cbn [snd].
  destruct (BackupConfig_init p c) as [cfg | e] eqn:Ec.
  2:{ unfold start_backup, bind, lift in Hrun. rewrite Ec in Hrun.
      injection Hrun as _ _ <-. left. constructor. }
  destruct (disks cfg) as [| d ds] eqn:Ed.
  { unfold start_backup, bind, lift in Hrun. rewrite Ec, Ed in Hrun.
    injection Hrun as _ _ <-. left. constructor. }
  assert (Hd : disks cfg <> []) by (rewrite Ed; discriminate).
  destruct (start_backup_run h p c cfg w r w' evs Ec Hd Hrun)
    as [(e & _ & Hq)
       | (found & drives & pre & wg & g & wg' & tg & post & _ & _ & _
          & _ & _ & _ & Hg & -> & _)].
  { left. exact Hq. }
  right.
  pose proof (guarded_session_trace h p cfg
                (UnixAddress (socket_path p (backup_id cfg))) drives
                wg g wg' tg Hg) as [Hfz _].
  apply count_one_in in Hfz as (e & Hin & He).
  destruct e; try discriminate. exists r0.
  apply in_or_app. right. apply in_or_app. left. exact Hin.
Qed.

Lemma rolled_back_counts backup_id res th t :
  rolled_back h backup_id res th t ->
  count is_freeze t = 0%nat /\ count is_begin t = 0%nat
  /\ count is_thaw t = 1%nat.
Proof.
  intros (removals & -> & Hkind & _).
  change (removing_scratch_disks backup_id
          :: EvListTransientDisks (vm_id h) res :: removals ++ [EvThaw th])
    with ([removing_scratch_disks backup_id;
           EvListTransientDisks (vm_id h) res] ++ removals ++ [EvThaw th]).
  rewrite !count_app.
  assert (Hq : forall kind,
             (forall e, removal_call e = true -> kind e = false) ->
             count kind removals = 0%nat).
  { intros kind Hk. apply count_avoided.
    eapply Forall_impl; [| exact Hkind]. exact Hk. }
  rewrite (Hq is_freeze), (Hq is_begin), (Hq is_thaw);
    try (intros e He; destruct e; cbv in He |- *; congruence).
  repeat split.
Qed.

Lemma described_counts post :
  Forall (fun ev => describe_call ev = true) post ->
  count is_freeze post = 0%nat /\ count is_begin post = 0%nat
  /\ count is_thaw post = 0%nat.
Proof.
  intros Hp.
  assert (Hq : forall kind,
             (forall e, describe_call e = true -> kind e = false) ->
             count kind post = 0%nat).
  { intros kind Hk. apply count_avoided.
    eapply Forall_impl; [| exact Hp]. exact Hk. }
  rewrite (Hq is_freeze), (Hq is_begin), (Hq is_thaw);
    try (intros e He; destruct e; cbv in He |- *; congruence).
  repeat split.
Qed.

Lemma description_fetched_calls id td g :
  description_fetched id td g ->
  Forall (fun ev => describe_call ev = true) td.
Proof.
  intros [(e & -> & _) | (cp & ->)]; repeat constructor.
Qed.

Lemma checkpoint_described_calls backup_id cid urls post r :
  checkpoint_described backup_id cid urls post r ->
  Forall (fun ev => describe_call ev = true) post.
Proof.
  unfold checkpoint_described. destruct cid as [id |].
  - intros (g & td & Hf & Hend).
    apply description_fetched_calls in Hf.
    destruct g as [xml | e]; [destruct Hend as [-> _]; exact Hf |].
    destruct e; destruct Hend as [-> _]; try exact Hf.
    apply Forall_app. split; [exact Hf | repeat constructor].
  - intros [-> _]. constructor.
Qed.



End StartBackupFacts.


(** X15.  When [backupBegin] raises, [start_backup] removes the
    scratch disks and thaws: right after the call it lists the
    transient disks of the VM and asks for the removal of each, then
    calls thaw, and nothing else.  It never returns a result: it
    raises the exception of thaw when thaw raised, else the failure of
    the listing when the listing failed, and else the error of the
    begin, which for a libvirt error is [InconsistentCheckpointError]
    when libvirt reports an inconsistent checkpoint and knows that
    code, [BackupError] otherwise. *)
Theorem start_backup_rolls_back_failed_begin
    (W : Type) (h : Host W) (p : Platform) (c : backup_dict) (w : W)
    (backup_xml : string) (checkpoint_xml : option string)
    (flags : list virFlag) (e0 : exn) :
  In (EvBackupBegin backup_xml checkpoint_xml flags (Raise e0))
     (events_of (start_backup h p c) w) ->
  exists cfg pre res th rollback,
    BackupConfig_init p c = Ok cfg
    /\ events_of (start_backup h p c) w
       = pre ++ EvBackupBegin backup_xml checkpoint_xml flags (Raise e0)
             :: rollback
    /\ rolled_back h (backup_id cfg) res th rollback
    /\ outcome_of (start_backup h p c) w
       = Raise (rollback_error (begin_error p e0) res th).
Proof.
  intros Hin.
  assert (Hnq : forall t, Forall (fun ev => session_call ev = false) t ->
                          ~ In (EvBackupBegin backup_xml checkpoint_xml
                                              flags (Raise e0)) t).
  { intros t Ht Hi. rewrite Forall_forall in Ht. apply Ht in Hi.
    discriminate. }
  assert (Hnb : forall t, count is_begin t = 0%nat ->
                          ~ In (EvBackupBegin backup_xml checkpoint_xml
                                              flags (Raise e0)) t).
  { intros t Ht.
    apply (count_zero_not_in is_begin); [exact Ht | reflexivity]. }
  destruct (start_backup_quiet_or_frozen h p c w) as [Hq | [f Hf]].
  { exfalso. exact (Hnq _ Hq Hin). }
  destruct (start_backup_freeze_run h p c w f Hf)
    as (cfg & found & drives & wg & pre & rest & Ec & Hfst & Hgiven & Hset
        & Hpre & Hevs & Hq & Hsub).
  rewrite Hevs in Hin.
  apply in_app_or in Hin as [Hin | [Hin | Hin]];
    [exfalso; exact (Hnq _ Hq Hin) | discriminate |].
  destruct (submission p cfg _ drives f) as [[bx cx] | e] eqn:Esub.
  2:{ destruct Hsub as (res & th & Hrb & _). exfalso.
      apply (rolled_back_counts h) in Hrb as (_ & Hb & _).
      exact (Hnb _ Hb Hin). }
  destruct Hsub as (b' & tail & -> & Htail).
  destruct b' as [u | e1].
  - exfalso. destruct Htail as (th & post & -> & Hend).
    destruct Hin as [Hin | [Hin | [Hin | Hin]]]; try discriminate.
    assert (Hp : Forall (fun ev => describe_call ev = true) post).
    { destruct th as [res | e]; [| destruct Hend as [-> _]; constructor].
      eapply checkpoint_described_calls. exact Hend. }
    apply described_counts in Hp as (_ & H2 & _). exact (Hnb _ H2 Hin).
  - destruct Htail as (res & th & Hrb & Hout).
    destruct Hin as [Hin | [Hin | Hin]]; [discriminate | |].
    2:{ exfalso. apply (rolled_back_counts h) in Hrb as (_ & Hb & _).
        exact (Hnb _ Hb Hin). }
    injection Hin as -> -> <- ->.
    exists cfg, (pre ++ [EvFreeze f; starting_backup cfg backup_xml
                                                     checkpoint_xml]),
      res, th, tail.
    split; [exact Ec |]. split; [| split; assumption].
    rewrite Hevs, <- app_assoc. reflexivity.
Qed.

(** X16.  When freeze raises, or answers an error for a request that
    requires consistency, the backup is not begun: [start_backup]
    removes the scratch disks, thaws all the same, and raises the
    exception of thaw when thaw raised, else the failure of the
    listing when the listing failed, and else the exception of freeze
    or the backup error that reports the failed freeze. *)
Theorem start_backup_requires_frozen_guest
    (W : Type) (h : Host W) (p : Platform) (c : backup_dict) (w : W)
    (f : result (response unit)) :
  In (EvFreeze f) (events_of (start_backup h p c) w) ->
  exists cfg,
    BackupConfig_init p c = Ok cfg
    /\ forall e,
         f = Raise e
         \/ (exists res,
                f = Ok res /\ is_error res = true
                /\ truthy_bool (require_consistency cfg) = true
                /\ e = freeze_failed res) ->
         count is_begin (events_of (start_backup h p c) w) = 0%nat
         /\ exists pre res th rollback,
              events_of (start_backup h p c) w
              = pre ++ EvFreeze f :: rollback
              /\ rolled_back h (backup_id cfg) res th rollback
              /\ outcome_of (start_backup h p c) w
                 = Raise (rollback_error e res th).
Proof.
  intros Hf.
  destruct (start_backup_freeze_run h p c w f Hf)
    as (cfg & found & drives & wg & pre & rest & Ec & Hfst & Hgiven & Hset
        & Hpre & Hevs & Hq & Hsub).
  exists cfg. split; [exact Ec |]. intros e He.
  assert (Esub : submission p cfg
                   (UnixAddress (socket_path p (backup_id cfg))) drives f
                 = Raise e).
  { destruct He as [-> | (res & -> & Herr & Hreq & ->)]; [reflexivity |].
    unfold submission, rbind. now rewrite Herr, Hreq. }
  rewrite Esub in Hsub. destruct Hsub as (res & th & Hrb & Hout).
  split.
  - rewrite Hevs.
    change (EvFreeze f :: rest) with ([EvFreeze f] ++ rest).
    rewrite !count_app.
    apply (rolled_back_counts h) in Hrb as (_ & -> & _).
    rewrite (count_avoided is_begin pre); [reflexivity |].
    eapply Forall_impl; [| exact Hq].
    intros ev Hev. unfold session_call in Hev.
    apply orb_false_iff in Hev as [Hev _].
    apply orb_false_iff in Hev as [_ Hev]. exact Hev.
  - exists pre, res, th, rest. auto.
Qed.

(** X17.  When [start_backup] returns, its result has one URL for each
    image id of the disks of the request, in the order of their first
    occurrence: the URL, on the socket of the backup id, of the export
    named as the drive that was found for the disk, the last one for an
    image id that occurs twice.  The description of the checkpoint is
    fetched at the very end, only when the request asks for a
    checkpoint; it is in the result when the fetch succeeds, and a
    libvirt error of the fetch leaves the result without it. *)
Theorem start_backup_result
    (W : Type) (h : Host W) (p : Platform) (c : backup_dict) (w w' : W)
    (res : BackupResult) (evs : list Event) :
  start_backup h p c w = (Ok res, w', evs) ->
  exists cfg found pre post,
    BackupConfig_init p c = Ok cfg
    /\ map fst found = disks cfg
    /\ (forall df, In df found ->
                   In (drive_lookup (fst df) (Ok (snd df))) pre)
    /\ result_disks res = disks_urls p cfg (drives_of found [])
    /\ evs = pre ++ post
    /\ checkpoint_described (backup_id cfg) (to_checkpoint_id cfg)
         {| result_disks := result_disks res; result_checkpoint := None |}
         post (Ok res).
Proof.
  intros Hrun.
  destruct (BackupConfig_init p c) as [cfg | e] eqn:Ec.
  2:{ unfold start_backup, bind, lift in Hrun. rewrite Ec in Hrun.
      discriminate. }
  destruct (disks cfg) as [| d ds] eqn:Ed.
  { unfold start_backup, bind, lift in Hrun. rewrite Ec, Ed in Hrun.
    discriminate. }
  assert (Hd : disks cfg <> []) by (rewrite Ed; discriminate).
  destruct (start_backup_run h p c cfg w (Ok res) w' evs Ec Hd Hrun)
    as [(e & He & _)
       | (found & drives & pre & wg & g & wg' & tg & post & Hfst & Hlook
          & Hgiven & _ & _ & _ & _ & -> & Hend)];
    [discriminate |].
  destruct g as [u | e]; [| destruct Hend as [Hend _]; discriminate].
  assert (Hurls : disks_urls p cfg drives
                  = disks_urls p cfg (drives_of found [])).
  { unfold disks_urls. clear - Hgiven.
    induction Hgiven as [| kv kv' l l' (H1 & H2 & _) _ IH];
      [reflexivity |].
    cbn. now rewrite IH, H1, H2. }
  assert (Hdesc : checkpoint_described (backup_id cfg) (to_checkpoint_id cfg)
                    (urls_result p cfg drives) post (Ok res)).
  { destruct (to_checkpoint_id cfg) as [id |]; [| exact Hend].
    eapply add_checkpoint_xml_described. exact Hend. }
  assert (Hres : result_disks res = disks_urls p cfg drives).
  { unfold checkpoint_described in Hdesc.
    destruct (to_checkpoint_id cfg) as [id |].
    - destruct Hdesc as (g & td & _ & Hg).
      destruct g as [xml | e]; [destruct Hg as [_ [= ->]]; reflexivity |].
      destruct e; destruct Hg as [_ Hg]; try discriminate.
      injection Hg as ->. reflexivity.
    - destruct Hdesc as [_ [= ->]]. reflexivity. }
  exists cfg, found, (pre ++ tg), post.
  split; [reflexivity |]. split; [exact Hfst |]. split.
  { intros df Hin. apply in_or_app. left. now apply Hlook. }
  split; [now rewrite Hres |]. split; [now rewrite app_assoc |].
  rewrite Hres. exact Hdesc.
Qed.

(** ** The descriptors of a validated request *)

Section Built.
Variable p : Platform.

Lemma dict_set_Forall {V} (P : string * V -> Prop) k v d :
  P (k, v) -> Forall P d -> Forall P (dict_set k v d).
Proof.
  intros Hkv. induction 1 as [| [k' v'] rest Hh Ht IH]; simpl.
  - repeat constructor. exact Hkv.
  - destruct (String.eqb k' k); constructor; auto.
Qed.

Lemma dict_get_in {V} k (d : list (string * V)) :
  In k (map fst d) -> dict_get k d <> None.
Proof.
  induction d as [| [k' v'] rest IH]; simpl; [tauto |].
  intros [-> | Hin].
  - now rewrite String.eqb_refl.
  - destruct (String.eqb k' k); [discriminate | auto].
Qed.

Lemma drives_of_Forall (P : string * BackupDrive -> Prop) found :
  forall acc,
    Forall P acc ->
    (forall df, In df found -> P (img_id (fst df), drive_of (fst df) (snd df))) ->
    Forall P (drives_of found acc).
Proof.
  unfold drives_of.
  induction found as [| df rest IH]; intros acc Hacc Hall; simpl;
    [exact Hacc |].
  apply IH.
  - apply dict_set_Forall; [apply Hall; now left | exact Hacc].
  - intros df' Hin. apply Hall. now right.
Qed.

Lemma drives_of_keys found : forall acc k,
  In k (map fst acc) \/ In k (map (fun df => img_id (fst df)) found) ->
  In k (map fst (drives_of found acc)).
Proof.
  unfold drives_of.
  induction found as [| df rest IH]; intros acc k Hk; simpl.
  - destruct Hk as [Hk | []]. exact Hk.
  - apply IH. destruct Hk as [Hk | [<- | Hk]].
    + left. apply dict_set_keys. now right.
    + left. apply dict_set_keys. now left.
    + now right.
Qed.

Lemma check_disk_modes_from from l disk :
  check_disk_modes from l = Ok tt -> In disk l ->
  is_incremental (backup_mode disk) = true -> from <> None.
Proof.
  induction l as [| d rest IH]; simpl; [tauto |].
  destruct (is_None from && is_incremental (backup_mode d)) eqn:E;
    [discriminate |].
  intros Hrest [-> | Hin] Hinc; [| auto].
  rewrite Hinc, andb_true_r in E. destruct from; [discriminate |].
  discriminate.
Qed.

Hypothesis Hkeeps : keeps_attributes_set (disable_dynamic_ownership p).

Lemma dict_set_values_set k v (a : list (string * option string)) :
  forallb (fun kv => negb (is_None (snd kv))) a = true ->
  forallb (fun kv => negb (is_None (snd kv))) (dict_set k (Some v) a) = true.
Proof.
  induction a as [| [k' v'] rest IH]; simpl; [reflexivity |].
  intros H. apply andb_true_iff in H as [H1 H2].
  destruct (String.eqb k' k); simpl; [exact H2 |].
  now rewrite H1, IH.
Qed.

Lemma backup_disk_element_set from d :
  drive_scratch_disk d <> None ->
  (is_incremental (drive_backup_mode d) = true -> from <> None) ->
  exists entry,
    backup_disk_element p from d = Ok entry /\ attributes_set entry = true.
Proof.
  intros Hsd Hinc. unfold backup_disk_element.
  destruct (drive_scratch_disk d) as [sd |]; [| congruence].
  eexists. split; [reflexivity |].
  set (scratch0 := if String.eqb (scratch_type sd) DISK_TYPE_BLOCK
                   then Element_new "scratch" [("dev", Some (scratch_path sd))]
                   else Element_new "scratch"
                          [("file", Some (scratch_path sd))]).
  assert (Hs : attributes_set (disable_dynamic_ownership p false scratch0)
               = true).
  { apply Hkeeps. unfold scratch0. destruct (String.eqb _ _); reflexivity. }
  set (disk0 := Element_new "disk"
                  [("name", Some (drive_name d));
                   ("type", Some (scratch_type sd))]).
  assert (Hattrs : forall e,
             forallb (fun kv => negb (is_None (snd kv))) (el_attrs e) = true ->
             el_children e = [] ->
             attributes_set
               (appendChild e (disable_dynamic_ownership p false scratch0))
             = true).
  { intros [t a x c] Ha Hc. cbn in Ha, Hc. subst c.
    cbn [appendChild app attributes_set forallb]. now rewrite Ha, Hs. }
  destruct (drive_backup_mode d) as [mode |].
  - unfold is_incremental in Hinc.
    destruct (String.eqb mode MODE_INCREMENTAL).
    + destruct from as [id |]; [| exfalso; now apply Hinc].
      apply Hattrs; [| reflexivity].
      unfold set_attr, disk0, Element_new. cbn [el_attrs].
      apply dict_set_values_set, dict_set_values_set. reflexivity.
    + apply Hattrs; [| reflexivity].
      unfold set_attr, disk0, Element_new. cbn [el_attrs].
      apply dict_set_values_set. reflexivity.
  - apply Hattrs; reflexivity.
Qed.

Lemma backup_disk_elements_set from ds : forall t a x c,
  Forall (fun d => drive_scratch_disk d <> None
                   /\ (is_incremental (drive_backup_mode d) = true ->
                       from <> None)) ds ->
  exists entries,
    backup_disk_elements p from ds (Elem t a x c)
    = Ok (Elem t a x (c ++ entries))
    /\ forallb attributes_set entries = true.
Proof.
  induction ds as [| d rest IH]; intros t a x c Hall.
  - exists []. rewrite app_nil_r. split; reflexivity.
  - inversion Hall as [| ? ? [Hsd Hinc] Hrest]; subst.
    destruct (backup_disk_element_set from d Hsd Hinc)
      as (entry & Hentry & Hset).
    cbn [backup_disk_elements]. rewrite Hentry. cbn [rbind appendChild].
    destruct (IH t a x (c ++ [entry]) Hrest) as (entries & Hrun & Hall2).
    exists (entry :: entries). rewrite Hrun, <- app_assoc.
    split; [reflexivity |]. cbn. now rewrite Hset, Hall2.
Qed.

Lemma backup_xml_tree_set address drives from :
  Forall (fun d => drive_scratch_disk d <> None
                   /\ (is_incremental (drive_backup_mode d) = true ->
                       from <> None)) (values drives) ->
  exists tree,
    backup_xml_tree p address drives from = Ok tree
    /\ attributes_set tree = true.
Proof.
  intros Hall.
  destruct (backup_disk_elements_set from (values drives)
                                     "disks" [] None [] Hall)
    as (entries & Hrun & Hset).
  unfold backup_xml_tree.
  change (Element_new "disks" []) with (Elem "disks" [] None []).
  rewrite Hrun. cbn [rbind app]. eexists. split; [reflexivity |].
  destruct from; cbn; now rewrite Hset.
Qed.

Lemma tracked_entries_set to_id drives ds entries :
  Forall2 (tracks_disk to_id drives) ds entries ->
  forallb attributes_set entries = true.
Proof.
  induction 1 as [| disk entry ds' es (drive & _ & ->) _ IH];
    [reflexivity |].
  cbn. exact IH.
Qed.

Lemma checkpoint_xml_tree_set cfg drives to_id :
  (forall disk, In disk (disks cfg) -> checkpoint disk = true ->
                dict_get (img_id disk) drives <> None) ->
  exists tree,
    checkpoint_xml_tree cfg drives to_id = Ok tree
    /\ attributes_set tree = true.
Proof.
  intros Hall.
  destruct (checkpoint_disk_elements_track to_id drives (disks cfg)
              "disks" [] None [] Hall)
    as (entries & Hrun & Htrack).
  apply tracked_entries_set in Htrack.
  unfold checkpoint_xml_tree.
  change (Element_new "disks" []) with (Elem "disks" [] None []).
  rewrite Hrun. cbn [rbind app].
  destruct (parent_checkpoint_id cfg) as [parent |];
    destruct (creation_time cfg) as [t |];
    try (unfold truthy_Z; destruct (Z.eqb t 0));
    destruct (disks cfg) as [| d ds] eqn:Ed;
    (eexists; split; [reflexivity |]; cbn; now rewrite ?Htrack).
Qed.

End Built.

(** X18.  For a validated request, the descriptor builders of
    [start_backup] do not fail on the drives it found for the disks and
    provided with scratch disks: every drive has its scratch disk,
    every disk flagged for the checkpoint has its drive, and an
    incremental drive comes with the checkpoint to start from.  No
    attribute of the two descriptors holds [None], so that only the
    serializer can make their construction raise. *)
Theorem start_backup_descriptors_are_built
    (p : Platform) (c : backup_dict) (cfg : BackupConfig)
    (found : list (DiskConfig * (string * string)))
    (drives : list (string * BackupDrive)) (address : Address) :
  keeps_attributes_set (disable_dynamic_ownership p) ->
  BackupConfig_init p c = Ok cfg ->
  map fst found = disks cfg ->
  Forall2 given_scratch_disk (drives_of found []) drives ->
  (exists tree,
      backup_xml_tree p address drives (from_checkpoint_id cfg) = Ok tree
      /\ attributes_set tree = true)
  /\ (forall to_id,
         exists tree,
           checkpoint_xml_tree cfg drives to_id = Ok tree
           /\ attributes_set tree = true).
Proof.
  intros Hkeeps Hc Hfst Hgiven.
  apply BackupConfig_init_disks in Hc as [_ Hmodes].
  assert (Hsrc : Forall (fun kv =>
                           exists disk, In disk (disks cfg)
                             /\ drive_backup_mode (snd kv) = backup_mode disk)
                        (drives_of found [])).
  { apply drives_of_Forall; [constructor |].
    intros df Hin. exists (fst df). split; [| reflexivity].
    rewrite <- Hfst. now apply in_map. }
  split.
  - apply backup_xml_tree_set; [exact Hkeeps |].
    unfold values. clear - Hgiven Hsrc Hmodes.
    induction Hgiven as [| kv kv' l l' (_ & _ & _ & Hm & Hsd & _) _ IH];
      [constructor |].
    inversion Hsrc as [| ? ? (disk & Hin & Hmode) Hrest]; subst.
    cbn [map]. constructor; [| apply IH; exact Hrest].
    split; [exact Hsd |]. rewrite Hm, Hmode.
    eapply check_disk_modes_from; eassumption.
  - intros to_id. apply checkpoint_xml_tree_set.
    intros disk Hin _. apply dict_get_in.
    assert (Hkeys : map fst drives = map fst (drives_of found [])).
    { clear - Hgiven.
      induction Hgiven as [| kv kv' l l' (H1 & _) _ IH]; [reflexivity |].
      cbn. now rewrite IH, H1. }
    rewrite Hkeys. apply drives_of_keys. right.
    rewrite <- Hfst in Hin. apply in_map_iff in Hin as (df & <- & Hin).
    apply (in_map (fun df => img_id (fst df))). exact Hin.
Qed.

(** ** Witnesses on the reference host *)

Lemma begun_in evs backup_xml checkpoint_xml flags r :
  In (backup_xml, checkpoint_xml, flags, r) (begun evs) ->
  In (EvBackupBegin backup_xml checkpoint_xml flags r) evs.
Proof.
  induction evs as [| e rest IH]; simpl; [tauto |].
  destruct e; simpl; try (intros H; right; exact (IH H)).
  intros [[= -> -> -> ->] | H]; [left; reflexivity | right; exact (IH H)].
Qed.


(** X15, witness: the hypervisor refuses to begin the backup. *)
Lemma start_backup_rolls_back_failed_begin_witness :
  exists backup_xml cfg pre res th rollback,
    BackupConfig_init Sim.platform
      (Sim.request None None None [Sim.disk "img-1" None]) = Ok cfg
    /\ events_of (start_backup (Sim.host begin_refused) Sim.platform
                    (Sim.request None None None [Sim.disk "img-1" None]))
                 Sim.empty_world
       = pre ++ EvBackupBegin backup_xml None
                  [VIR_DOMAIN_BACKUP_BEGIN_REUSE_EXTERNAL]
                  (Raise (libvirtError VIR_ERR_CHECKPOINT_INCONSISTENT
                                       "stale"))
             :: rollback
    /\ rolled_back (Sim.host begin_refused) (backup_id cfg) res th rollback
    /\ outcome_of (start_backup (Sim.host begin_refused) Sim.platform
                     (Sim.request None None None [Sim.disk "img-1" None]))
                  Sim.empty_world
       = Raise (rollback_error
                  (begin_error Sim.platform
                     (libvirtError VIR_ERR_CHECKPOINT_INCONSISTENT "stale"))
                  res th).
Proof.
  eexists.
  apply (start_backup_rolls_back_failed_begin
           _ (Sim.host begin_refused) Sim.platform
           (Sim.request None None None [Sim.disk "img-1" None])
           Sim.empty_world).
  cbv. do 5 right. left. reflexivity.
Defined.

(** X16, witness: the guest agent does not answer and the request
    requires consistency. *)
Lemma start_backup_requires_frozen_guest_witness :
  exists cfg,
    BackupConfig_init Sim.platform consistent_backup = Ok cfg
    /\ forall e,
         agent_silent = Raise e
         \/ (exists res,
                agent_silent = Ok res
                /\ is_error res = true
                /\ truthy_bool (require_consistency cfg) = true
                /\ e = freeze_failed res) ->
         count is_begin
               (events_of (start_backup (Sim.host guest_not_frozen)
                                        Sim.platform consistent_backup)
                          Sim.empty_world) = 0%nat
         /\ exists pre res th rollback,
              events_of (start_backup (Sim.host guest_not_frozen)
                                      Sim.platform consistent_backup)
                        Sim.empty_world
              = pre ++ EvFreeze agent_silent :: rollback
              /\ rolled_back (Sim.host guest_not_frozen) (backup_id cfg)
                             res th rollback
              /\ outcome_of (start_backup (Sim.host guest_not_frozen)
                                          Sim.platform consistent_backup)
                            Sim.empty_world
                 = Raise (rollback_error e res th).
Proof.
  apply (start_backup_requires_frozen_guest
           _ (Sim.host guest_not_frozen) Sim.platform consistent_backup
           Sim.empty_world).
  cbv. do 3 right. left. reflexivity.
Defined.

(** X17, witness: the backup is started, and the checkpoint it asked
    for cannot be described. *)
Lemma start_backup_result_witness :
  exists res w' evs,
    start_backup (Sim.host Sim.calm) Sim.platform backup_with_checkpoint
                 Sim.two_checkpoints
    = (Ok res, w', evs)
    /\ res = {| result_disks :=
                  [("img-1", "nbd:unix:/run/vdsm/backup/b1:exportname=sda")];
                result_checkpoint := None |}
    /\ exists cfg found pre post,
         BackupConfig_init Sim.platform backup_with_checkpoint = Ok cfg
         /\ map fst found = disks cfg
         /\ (forall df, In df found ->
                        In (drive_lookup (fst df) (Ok (snd df))) pre)
         /\ result_disks res
            = disks_urls Sim.platform cfg (drives_of found [])
         /\ evs = pre ++ post
         /\ checkpoint_described (backup_id cfg) (to_checkpoint_id cfg)
              {| result_disks := result_disks res;
                 result_checkpoint := None |}
              post (Ok res).
Proof.
  eexists _, _, _. split; [vm_compute; reflexivity |].
  split; [reflexivity |].
  eapply (start_backup_result _ (Sim.host Sim.calm) Sim.platform
                              backup_with_checkpoint Sim.two_checkpoints).
  vm_compute. reflexivity.
Defined.

Lemma attributes_set_appendChild e child :
  attributes_set (appendChild e child)
  = attributes_set e && attributes_set child.
Proof.
  destruct e as [t a x c]. cbn [appendChild attributes_set].
  rewrite forallb_app. cbn [forallb]. rewrite andb_true_r.
  now rewrite andb_assoc.
Qed.

Lemma reference_platform_keeps_attributes_set :
  keeps_attributes_set (disable_dynamic_ownership Sim.platform).
Proof.
  intros write_type e He. cbn [disable_dynamic_ownership Sim.platform].
  rewrite attributes_set_appendChild, He. now destruct write_type.
Qed.

Lemma with_scratch_file_given (path : string * BackupDrive -> string)
      (drives : list (string * BackupDrive)) :
  Forall (fun kv => drive_scratch_disk (snd kv) = None) drives ->
  Forall2 given_scratch_disk drives
          (map (fun kv => (fst kv, with_scratch_file (snd kv) (path kv)))
               drives).
Proof.
  induction 1 as [| kv l Hkv _ IH]; cbn [map]; constructor; [| exact IH].
  unfold given_scratch_disk. cbn.
  repeat split; try reflexivity; [discriminate | congruence].
Qed.

(** X18, witness: the descriptors of the full backup of two drives. *)
Lemma start_backup_descriptors_are_built_witness :
  (exists tree,
      backup_xml_tree Sim.platform (UnixAddress "/run/vdsm/backup/b1")
                      drives_with_scratch_disks
                      (from_checkpoint_id (Sim.config_of full_backup))
      = Ok tree
      /\ attributes_set tree = true)
  /\ (forall to_id,
         exists tree,
           checkpoint_xml_tree (Sim.config_of full_backup)
                               drives_with_scratch_disks to_id = Ok tree
           /\ attributes_set tree = true).
Proof.
  apply (start_backup_descriptors_are_built
           Sim.platform full_backup (Sim.config_of full_backup)
           found_drives drives_with_scratch_disks
           (UnixAddress "/run/vdsm/backup/b1")).
  - exact reference_platform_keeps_attributes_set.
  - vm_compute. reflexivity.
  - vm_compute. reflexivity.
  - apply (with_scratch_file_given
             (fun kv => ("/run/vdsm/transient_disks/vm-1/b1."
                         ++ drive_name (snd kv))%string)).
    vm_compute. repeat constructor.
Defined.

(** X10, witness: the descriptor of the two-disk example, parsed from
    its rendering. *)
Lemma parse_backup_info_of_built_descriptor_witness :
  socket_of built_backup = Some "/run/vdsm/backup/b1"
  /\ _parse_backup_info (SimCalls.host_ext SimCalls.accepts SimCalls.attached)
       Sim.platform (SimCalls.platform_ext [built_backup]) "b1"
       (Sim.render built_backup) Sim.empty_world
     = (Ok [], Sim.empty_world, []).
Proof.
  apply (parse_backup_info_of_built_descriptor
           _ (SimCalls.host_ext SimCalls.accepts SimCalls.attached)
           Sim.platform (SimCalls.platform_ext [built_backup])
           (UnixAddress "/run/vdsm/backup/b1") Sim.mixed_drives (Some "cp1")
           built_backup "b1" (Sim.render built_backup) Sim.empty_world).
  - vm_compute. reflexivity.
  - vm_compute. reflexivity.
Defined.

(** The descriptor libvirt reports for a running backup: the URLs of
    the two disks that are backed up. *)
Example reported_backup_urls :
  _parse_backup_info (SimCalls.host_ext SimCalls.accepts SimCalls.attached)
    Sim.platform (SimCalls.platform_ext [SimCalls.reported_backup]) "b1"
    (Sim.render SimCalls.reported_backup) Sim.empty_world
  = (Ok [("img-1", "nbd:unix:/run/vdsm/backup/b1:exportname=sda");
         ("img-2", "nbd:unix:/run/vdsm/backup/b1:exportname=vda")],
     Sim.empty_world,
     [EvFindDeviceByNameOrPath "sda" (Ok "img-1");
      EvFindDeviceByNameOrPath "vda" (Ok "img-2")]).
Proof. vm_compute. reflexivity. Qed.

(** ** Runs on the reference host *)

Example leaf_of_chain : leaf_name ["cp0"; "cp1"; "cp2"] = Some "cp2".
Proof. reflexivity. Qed.

Example leaf_of_empty_chain : leaf_name [] = None.
Proof. reflexivity. Qed.

Example socket_of_backup :
  socket_path Sim.platform "b1" = "/run/vdsm/backup/b1".
Proof. reflexivity. Qed.

Example dict_keeps_first_position :
  dict_set "a" 3 (dict_set "b" 2 (dict_set "a" 1 []))
  = [("a", 3); ("b", 2)].
Proof. reflexivity. Qed.

(** The VM goes down while the chain [a; b; c] is deleted: [a] is
    deleted, the lookup of [b] raises, and the exception leaves the
    operation; [c] is never looked up. *)
Example delete_checkpoints_vm_goes_down :
  let run :=
    delete_checkpoints (Sim.host vm_goes_down) ["a"; "b"; "c"]
                       Sim.chain_abc in
  fst (fst run) = Raise (NotConnectedError "VM is down")
  /\ Sim.checkpoints (snd (fst run)) = ["b"; "c"]
  /\ looked_up (snd run) = ["a"; "b"].
Proof. vm_compute. repeat split. Qed.

(** A full backup of two drives without checkpoint: both scratch disks
    are created, the guest is frozen and thawed around the start of the
    backup. *)
Example full_backup_events :
  map (fun e =>
         match e with
         | EvFindDriveByUUIDs _ _ _ _ => "findDriveByUUIDs"
         | EvFreeze _ => "freeze"
         | EvThaw _ => "thaw"
         | EvListTransientDisks _ _ => "list_transient_disks"
         | EvCreateTransientDisk _ _ _ _ => "create_transient_disk"
         | EvRemoveTransientDisk _ _ _ => "remove_transient_disk"
         | EvBackupBegin _ _ _ _ => "backupBegin"
         | EvAbortJob _ => "abortJob"
         | EvBackupGetXMLDesc _ => "backupGetXMLDesc"
         | EvCheckpointLookupByName _ _ => "checkpointLookupByName"
         | EvListAllCheckpoints _ _ => "listAllCheckpoints"
         | EvBlockInfo _ _ => "blockInfo"
         | EvCheckpointDelete _ _ => "delete"
         | EvCheckpointGetXMLDesc _ _ => "getXMLDesc"
         | EvLog _ _ _ => "log"
         end)
      (events_of
         (start_backup (Sim.host Sim.calm) Sim.platform
            (Sim.request None None None
               [Sim.disk "img-1" None; Sim.disk "img-2" None]))
         Sim.empty_world)
  = ["findDriveByUUIDs"; "findDriveByUUIDs";
     "blockInfo"; "create_transient_disk";
     "blockInfo"; "create_transient_disk";
     "freeze"; "log"; "backupBegin"; "thaw"].
Proof. vm_compute. reflexivity. Qed.

(** The begin of the backup fails: the scratch disks are removed and
    the guest is thawed once. *)
Example failed_begin_rolls_back :
  let run :=
    start_backup
      (Sim.host
         (Sim.scenario
            (Raise (libvirtError VIR_ERR_CHECKPOINT_INCONSISTENT "stale"))
            (Ok tt) Sim.never Sim.never false (fun _ => None)))
      Sim.platform
      (Sim.request None None None [Sim.disk "img-1" None])
      Sim.empty_world in
  fst (fst run)
  = Raise (InconsistentCheckpointError "Checkpoint can't be used: stale")
  /\ Sim.transient (snd (fst run)) = []
  /\ count is_thaw (snd run) = 1%nat
  /\ removed (snd run) = ["b1.sda"].
Proof. vm_compute. repeat split. Qed.
